(** * NFT Collage: the grid canvas (components/GridCanvas.tsx)

    A shallow embedding of the canvas component: its item geometry, the
    undo/redo history, the layout routines ([findEmptyPosition],
    [addMultipleNFTs], [fillBlankTiles]), the pointer and nudge handlers and
    the reconciliation of the externally selected NFTs.

    Conventions of the embedding.
    - A JavaScript [number] that carries geometry is an exact rational ([Q]);
      counters and indices are integers ([Z]).  [Math.floor], [Math.ceil] and
      [Math.round] are the rational floor, ceiling and round-half-up.
      The source computes in binary doubles.  Sums and products of whole
      numbers of cells are exact there on the grids of 4, 8, 10 and 16
      columns, whose cell size is 25, 12.5, 10 and 6.25; on the grids of 6,
      12 and 24 columns they are rounded, and an edge computed as [x + size]
      can differ in the last place from the same edge computed as a product.
      The theorems of the second part that compare such edges, or that
      depend on the cells [Math.floor] assigns to an edge, are stated for the
      first kind of grid ([exactColumns]) and for tiles of whole cells
      ([onGrid]).
    - A React state setter does not change the value seen by the running
      handler: a handler reads the state of the render that created it (its
      closure) and queues updates, which React applies in order afterwards.
      A handler is therefore a function from the closed-over state to a list
      of [Update]s, run by [run].
    - [Math.random], [Date.now] and the comparator-driven shuffle are inputs
      of the handlers that use them. *)

From Stdlib Require Import QArith Qminmax Qround Qabs ZArith List Ascii String Bool Lia Lqa.
From Stdlib Require Import Permutation Sorted.
Import ListNotations.
Open Scope Q_scope.

(** ** Numbers *)

Definition Math_max (a b : Q) : Q := Qmax a b.
Definition Math_min (a b : Q) : Q := Qmin a b.
Definition Math_min3 (a b c : Q) : Q := Qmin (Qmin a b) c.
Definition Math_floor (a : Q) : Z := Qfloor a.
Definition Math_ceil (a : Q) : Z := Qceiling a.
(** [Math.round] rounds to the nearest integer, halves towards +infinity. *)
Definition Math_round (a : Q) : Z := Qfloor (a + (1 # 2)).

Definition Qltb (a b : Q) : bool :=
  match a ?= b with Lt => true | _ => false end.

(** ** Data model *)

(** [NFT] of hooks/useWalletCollections.ts; [contract], [identifier] and
    [is_collection_image] are the additional properties the canvas reads. *)
Record NFT := mkNFT {
  nft_id : option string;
  contract_address : option string;
  token_id : option string;
  name : option string;
  image_url : option string;
  collection : option string;
  contract : option string;
  identifier : option string;
  is_collection_image : bool
}.

Record CanvasItem := mkItem {
  id : string;
  nft : NFT;
  x : Q;
  y : Q;
  size : Q;
  zIndex : Z;
  cropX : Q;
  cropY : Q;
  cropWidth : Q;
  cropHeight : Q
}.

(** The resize handles ['n' | 's' | 'e' | 'w' | 'ne' | 'nw' | 'se' | 'sw']. *)
Module Dir.
Inductive ResizeDirection := n | s | e | w | ne | nw | se | sw.
End Dir.
Abbreviation ResizeDirection := Dir.ResizeDirection.

(** The state hooks of [GridCanvas] that the handlers below read or write. *)
Record CanvasState := mkState {
  items : list CanvasItem;
  gridColumns : positive;
  activeItem : option string;
  snapToGrid : bool;
  history : list (list CanvasItem);
  historyIndex : Z;
  isDragging : bool;
  isResizing : bool;
  resizeDirection : option ResizeDirection;
  interactionStart : Q * Q;
  initialItemState : option CanvasItem
}.

(** The column counts offered by the grid selector. *)
Definition gridColumnOptions : list positive := [4; 6; 8; 10; 12; 16; 24]%positive.

(** State of the first render. *)
Definition initialState : CanvasState :=
  mkState [] 12 None true [] (-1) false false None (0, 0) None.

(** A string is truthy when it is present and not empty. *)
Definition truthy (v : option string) : bool :=
  match v with
  | Some str => negb (String.eqb str EmptyString)
  | None => false
  end.

(** [item.id === activeItem] *)
Definition isActive (st : CanvasState) (it : CanvasItem) : bool :=
  match activeItem st with
  | Some a => String.eqb (id it) a
  | None => false
  end.

(** Object spreads [{ ...item, field: value }]. *)
Definition withPosition (it : CanvasItem) (nx ny : Q) : CanvasItem :=
  mkItem (id it) (nft it) nx ny (size it) (zIndex it)
         (cropX it) (cropY it) (cropWidth it) (cropHeight it).
Definition withGeometry (it : CanvasItem) (nx ny nsize : Q) : CanvasItem :=
  mkItem (id it) (nft it) nx ny nsize (zIndex it)
         (cropX it) (cropY it) (cropWidth it) (cropHeight it).
Definition withSize (it : CanvasItem) (nsize : Q) : CanvasItem :=
  mkItem (id it) (nft it) (x it) (y it) nsize (zIndex it)
         (cropX it) (cropY it) (cropWidth it) (cropHeight it).
Definition withCrop (it : CanvasItem) (cx cy cw ch : Q) : CanvasItem :=
  mkItem (id it) (nft it) (x it) (y it) (size it) (zIndex it) cx cy cw ch.

(** ** Queued state updates *)

Inductive Update :=
| SetItems (v : list CanvasItem)
| UpdateItems (f : list CanvasItem -> list CanvasItem)
| SetActiveItem (v : option string)
| SetHistory (v : list (list CanvasItem))
| AppendHistory (v : list CanvasItem)
| AddHistoryIndex (d : Z)
| SetIsDragging (v : bool)
| SetIsResizing (v : bool)
| SetResizeDirection (v : option ResizeDirection)
| SetInitialItemState (v : option CanvasItem).

Definition applyUpdate (st : CanvasState) (u : Update) : CanvasState :=
  match st with
  | mkState its cols act snap hist idx drag rsz dir start init =>
    match u with
    | SetItems v => mkState v cols act snap hist idx drag rsz dir start init
    | UpdateItems f => mkState (f its) cols act snap hist idx drag rsz dir start init
    | SetActiveItem v => mkState its cols v snap hist idx drag rsz dir start init
    | SetHistory v => mkState its cols act snap v idx drag rsz dir start init
    | AppendHistory v => mkState its cols act snap (hist ++ [v]) idx drag rsz dir start init
    | AddHistoryIndex d => mkState its cols act snap hist (idx + d)%Z drag rsz dir start init
    | SetIsDragging v => mkState its cols act snap hist idx v rsz dir start init
    | SetIsResizing v => mkState its cols act snap hist idx drag v dir start init
    | SetResizeDirection v => mkState its cols act snap hist idx drag rsz v start init
    | SetInitialItemState v => mkState its cols act snap hist idx drag rsz dir start v
    end
  end.

(** React applies the queued updates in the order they were queued. *)
Definition run (st : CanvasState) (us : list Update) : CanvasState :=
  fold_left applyUpdate us st.

(** A handler created by the current render: its closure is the live state. *)
Definition dispatch (h : CanvasState -> list Update) (st : CanvasState) : CanvasState :=
  run st (h st).

(** ** History *)

(** [arr.slice(0, stop)]: a negative [stop] counts from the end. *)
Definition slice0 {A} (stop : Z) (l : list A) : list A :=
  if (stop <? 0)%Z
  then firstn (Z.to_nat (Z.of_nat (List.length l) + stop)) l
  else firstn (Z.to_nat stop) l.

(** [arr[i]], [None] standing for [undefined]. *)
Definition lookup {A} (l : list A) (i : Z) : option A :=
  if (i <? 0)%Z then None else nth_error l (Z.to_nat i).

Definition saveToHistory (cl : CanvasState) (newItems : list CanvasItem) : list Update :=
  (if (historyIndex cl <? Z.of_nat (List.length (history cl)) - 1)%Z
   then [SetHistory (slice0 (historyIndex cl + 1) (history cl))]
   else [])
  ++ [AppendHistory newItems; AddHistoryIndex 1].

(** [undo] and [redo] store [history[i]] as the item list; the result is
    [None] when that entry is [undefined]. *)
Definition undo (cl : CanvasState) : option (list Update) :=
  if (historyIndex cl >? 0)%Z
  then match lookup (history cl) (historyIndex cl - 1) with
       | Some snapshot => Some [AddHistoryIndex (-1); SetItems snapshot]
       | None => None
       end
  else Some [].

Definition redo (cl : CanvasState) : option (list Update) :=
  if (historyIndex cl <? Z.of_nat (List.length (history cl)) - 1)%Z
  then match lookup (history cl) (historyIndex cl + 1) with
       | Some snapshot => Some [AddHistoryIndex 1; SetItems snapshot]
       | None => None
       end
  else Some [].

Definition dispatchOpt (h : CanvasState -> option (list Update)) (st : CanvasState)
  : option CanvasState :=
  option_map (run st) (h st).

(** ** Grid *)

Definition cellSize (st : CanvasState) : Q := 100 / inject_Z (Z.pos (gridColumns st)).

Definition snapToGridValue (st : CanvasState) (value : Q) : Q :=
  if negb (snapToGrid st) then value
  else inject_Z (Math_round (value / cellSize st)) * cellSize st.

(** ** Layout *)

Record Cell := mkCell { row : Z; col : Z }.

Definition cell_eqb (a b : Cell) : bool :=
  ((row a =? row b)%Z && (col a =? col b)%Z)%bool.

(** The values taken by [for (let i = 0; i < k; i++)]. *)
Definition range (k : Z) : list Z := map Z.of_nat (seq 0 (Z.to_nat k)).

(** The values taken by [for (let i = a; i <= b; i++)]. *)
Definition rangeIncl (a b : Z) : list Z := map (fun i => (a + i)%Z) (range (b - a + 1)).

(** The [occupiedCells] set of [findEmptyPosition]: the key ["col,row"] of a
    cell is the cell itself. *)
Definition occupiedCells (cl : CanvasState) : list Cell :=
  flat_map (fun item =>
    let startCol := Math_floor (x item / cellSize cl) in
    let startRow := Math_floor (y item / cellSize cl) in
    let endCol := Math_floor ((x item + size item) / cellSize cl) in
    let endRow := Math_floor ((y item + size item) / cellSize cl) in
    flat_map (fun r => map (fun c => mkCell r c) (rangeIncl startCol endCol))
             (rangeIncl startRow endRow))
    (items cl).

Record Position := mkPosition { pos_x : Q; pos_y : Q; pos_size : Q }.

(** [rnd] holds the two values [Math.random()] returns in the fallback. *)
Definition findEmptyPosition (cl : CanvasState) (rnd : Q * Q) : Position :=
  let occupied := occupiedCells cl in
  let defaultSize := cellSize cl * 2 in
  let span := Math_ceil (defaultSize / cellSize cl) in
  let maxRow := (Math_floor (100 / cellSize cl) - span + 1)%Z in
  let maxCol := (Math_floor (100 / cellSize cl) - span + 1)%Z in
  let isEmpty (row0 col0 : Z) :=
    forallb (fun r => forallb (fun c =>
      negb (existsb (cell_eqb (mkCell (row0 + r) (col0 + c))) occupied))
      (range span)) (range span) in
  let candidates :=
    flat_map (fun row0 => map (fun col0 => mkCell row0 col0) (range maxCol))
             (range maxRow) in
  match find (fun cell => isEmpty (row cell) (col cell)) candidates with
  | Some cell =>
      mkPosition (inject_Z (col cell) * cellSize cl) (inject_Z (row cell) * cellSize cl)
                 defaultSize
  | None =>
      mkPosition (fst rnd * (100 - defaultSize)) (snd rnd * (100 - defaultSize))
                 defaultSize
  end.

(** ** Adding, removing, clearing *)

(** [uniqueId] is the value of [generateUniqueId()]. *)
Definition addNFT (uniqueId : string) (rnd : Q * Q) (newNft : NFT) (cl : CanvasState)
  : list Update :=
  let position := findEmptyPosition cl rnd in
  let newItem :=
    mkItem uniqueId newNft (pos_x position) (pos_y position) (pos_size position)
           (Z.of_nat (List.length (items cl)) + 1) 0 0 100 100 in
  let newItems := items cl ++ [newItem] in
  [SetItems newItems; SetActiveItem (Some uniqueId)] ++ saveToHistory cl newItems.

Definition removeItem (target : string) (cl : CanvasState) : list Update :=
  let newItems := filter (fun item => negb (String.eqb (id item) target)) (items cl) in
  [SetItems newItems]
  ++ (match activeItem cl with
      | Some a => if String.eqb a target then [SetActiveItem None] else []
      | None => []
      end)
  ++ saveToHistory cl newItems.

Definition clearCanvas (cl : CanvasState) : list Update :=
  [SetItems []; SetActiveItem None] ++ saveToHistory cl [].

(** ** Pointer interaction *)

(** [resizeDirection.includes(c)] for the four letters. *)
Definition includes_e (d : ResizeDirection) : bool :=
  match d with Dir.e | Dir.ne | Dir.se => true | _ => false end.
Definition includes_w (d : ResizeDirection) : bool :=
  match d with Dir.w | Dir.nw | Dir.sw => true | _ => false end.
Definition includes_s (d : ResizeDirection) : bool :=
  match d with Dir.s | Dir.se | Dir.sw => true | _ => false end.
Definition includes_n (d : ResizeDirection) : bool :=
  match d with Dir.n | Dir.ne | Dir.nw => true | _ => false end.

(** The local [effectiveDelta] of [handleMouseMove]. *)
Definition effectiveDelta (d : ResizeDirection) (deltaX deltaY : Q) : Q :=
  match d with
  | Dir.e => deltaX
  | Dir.w => - deltaX
  | Dir.s => deltaY
  | Dir.n => - deltaY
  | Dir.ne => Math_max deltaX (- deltaY)
  | Dir.nw => Math_max (- deltaX) (- deltaY)
  | Dir.se => Math_max deltaX deltaY
  | Dir.sw => Math_max (- deltaX) deltaY
  end.

(** The body of the drag branch for the active item. *)
Definition dragItem (cl : CanvasState) (init item : CanvasItem) (deltaX deltaY : Q)
  : CanvasItem :=
  let newX := x init + deltaX in
  let newY := y init + deltaY in
  let newX := if snapToGrid cl then snapToGridValue cl newX else newX in
  let newY := if snapToGrid cl then snapToGridValue cl newY else newY in
  let newX := Math_max 0 (Math_min (100 - size item) newX) in
  let newY := Math_max 0 (Math_min (100 - size item) newY) in
  withPosition item newX newY.

(** The body of the resize branch for the active item. *)
Definition resizeItem (cl : CanvasState) (init item : CanvasItem)
  (d : ResizeDirection) (deltaX deltaY : Q) : CanvasItem :=
  let eff := effectiveDelta d deltaX deltaY in
  let '(newX, newY, newSize) :=
    if includes_e d then (x init, y init, size init + eff)
    else if includes_w d then
      (x init + size init - (size init + eff), y init, size init + eff)
    else if includes_s d then (x init, y init, size init + eff)
    else if includes_n d then
      (x init, y init + size init - (size init + eff), size init + eff)
    else (x init, y init, size init) in
  let newSize := Math_max (cellSize cl) newSize in
  let newX := if snapToGrid cl then snapToGridValue cl newX else newX in
  let newY := if snapToGrid cl then snapToGridValue cl newY else newY in
  let newSize := if snapToGrid cl then snapToGridValue cl newSize else newSize in
  let newX := Math_max 0 newX in
  let newY := Math_max 0 newY in
  let newSize := Math_min3 (100 - newX) (100 - newY) newSize in
  withGeometry item newX newY newSize.

(** [current] is the pointer position in percent of the canvas rectangle. *)
Definition handleMouseMove (current : Q * Q) (cl : CanvasState) : list Update :=
  if (negb (isDragging cl) && negb (isResizing cl)) || negb (truthy (activeItem cl))
  then []
  else match initialItemState cl with
  | None => []
  | Some init =>
    let deltaX := fst current - fst (interactionStart cl) in
    let deltaY := snd current - snd (interactionStart cl) in
    if isDragging cl then
      [UpdateItems (map (fun item =>
         if isActive cl item then dragItem cl init item deltaX deltaY else item))]
    else match isResizing cl, resizeDirection cl with
    | true, Some d =>
      [UpdateItems (map (fun item =>
         if isActive cl item then resizeItem cl init item d deltaX deltaY else item))]
    | _, _ => []
    end
  end.

Definition handleMouseUp (cl : CanvasState) : list Update :=
  (if isDragging cl || isResizing cl then saveToHistory cl (items cl) else [])
  ++ [SetIsDragging false; SetIsResizing false;
      SetResizeDirection None; SetInitialItemState None].

(** ** Crop *)

Definition cropItem (item : CanvasItem) (cx cy cw ch : Q) : CanvasItem :=
  withCrop item
    (Math_max 0 (Math_min 100 cx))
    (Math_max 0 (Math_min 100 cy))
    (Math_max 10 (Math_min (100 - cx) cw))
    (Math_max 10 (Math_min (100 - cy) ch)).

Definition updateCrop (cx cy cw ch : Q) (cl : CanvasState) : list Update :=
  if negb (truthy (activeItem cl)) then []
  else
    [UpdateItems (map (fun item =>
       if isActive cl item then cropItem item cx cy cw ch else item))]
    ++ saveToHistory cl (items cl).

(** ** Discrete nudges *)

Definition nudgeItem (cl : CanvasState) (item : CanvasItem) (dx dy : Q) : CanvasItem :=
  let newX := Math_max 0 (Math_min (100 - size item) (x item + dx)) in
  let newY := Math_max 0 (Math_min (100 - size item) (y item + dy)) in
  withPosition item
    (if snapToGrid cl then snapToGridValue cl newX else newX)
    (if snapToGrid cl then snapToGridValue cl newY else newY).

Definition moveActiveItem (dx dy : Q) (cl : CanvasState) : list Update :=
  if negb (truthy (activeItem cl)) then []
  else
    [UpdateItems (map (fun item =>
       if isActive cl item then nudgeItem cl item dx dy else item))]
    ++ saveToHistory cl (items cl).

Definition nudgeSize (cl : CanvasState) (item : CanvasItem) (delta : Q) : CanvasItem :=
  let newSize :=
    Math_max (cellSize cl)
             (Math_min3 (100 - x item) (100 - y item) (size item + delta)) in
  withSize item (if snapToGrid cl then snapToGridValue cl newSize else newSize).

Definition resizeActiveItem (delta : Q) (cl : CanvasState) : list Update :=
  if negb (truthy (activeItem cl)) then []
  else
    [UpdateItems (map (fun item =>
       if isActive cl item then nudgeSize cl item delta else item))]
    ++ saveToHistory cl (items cl).

(** ** Bulk placement *)

(** The cells of the [k] by [k] block whose top-left cell is [cell]. *)
Definition blockCells (cell : Cell) (k : Z) : list Cell :=
  flat_map (fun r => map (fun c => mkCell (row cell + r) (col cell + c)) (range k))
           (range k).

(** The [canFit] flag of [tryPlaceNFT] once its two loops have run. *)
Definition canFit (gridSize : Z) (availableCells : list Cell) (cell : Cell) (k : Z)
  : bool :=
  forallb (fun t =>
    negb ((row t >=? gridSize)%Z || (col t >=? gridSize)%Z)
    && existsb (cell_eqb t) availableCells)
    (blockCells cell k).

(** [findIndex] followed by [splice(targetIndex, 1)]. *)
Fixpoint removeCell (t : Cell) (l : list Cell) : list Cell :=
  match l with
  | [] => []
  | c :: rest => if cell_eqb c t then rest else c :: removeCell t rest
  end.

(** The two arrays [addMultipleNFTs] mutates while it places tiles. *)
Record Packing := mkPacking {
  availableCells : list Cell;
  newItems : list CanvasItem
}.

(** [genId k] is the identifier [generateUniqueId()] returns for the tile
    pushed when [newItems] already holds [k] tiles. *)
Fixpoint tryPlaceNFT (cs : Q) (gridSize : Z) (genId : nat -> string)
  (tile : NFT) (idx : Z) (sizeMultiplier : nat) (p : Packing) : Packing * bool :=
  match sizeMultiplier with
  | O => (p, false)
  | S smaller =>
    let k := Z.of_nat sizeMultiplier in
    match find (fun cell => canFit gridSize (availableCells p) cell k) (availableCells p) with
    | Some cell =>
      (mkPacking
         (fold_left (fun acc t => removeCell t acc) (blockCells cell k) (availableCells p))
         (newItems p ++
            [mkItem (genId (List.length (newItems p))) tile
                    (inject_Z (col cell) * cs) (inject_Z (row cell) * cs)
                    (cs * inject_Z k) (idx + 1) 0 0 100 100]),
       true)
    | None => tryPlaceNFT cs gridSize genId tile idx smaller p
    end
  end.

(** Step 1: [shuffledNFTs.forEach((nft, index) => tryPlaceNFT(nft, index, 3))]. *)
Fixpoint placeEach (cs : Q) (gridSize : Z) (genId : nat -> string)
  (tiles : list NFT) (idx : Z) (p : Packing) : Packing :=
  match tiles with
  | [] => p
  | tile :: rest =>
    let maxSize := if is_collection_image tile then 3%nat else 3%nat in
    placeEach cs gridSize genId rest (idx + 1)
              (fst (tryPlaceNFT cs gridSize genId tile idx maxSize p))
  end.

(** Step 2: the [while] loop that pops one cell per forced 1x1 tile. *)
Fixpoint fillMinimum (cs : Q) (genId : nat -> string) (shuffled : list NFT)
  (dflt : NFT) (minCount : Z) (cells : list Cell) (placed : list CanvasItem)
  (fillerIndex : nat) : list CanvasItem :=
  match cells with
  | [] => placed
  | cell :: rest =>
    if (Z.of_nat (List.length placed) <? minCount)%Z then
      let tile := nth (fillerIndex mod List.length shuffled) shuffled dflt in
      fillMinimum cs genId shuffled dflt minCount rest
        (placed ++
           [mkItem (genId (List.length placed)) tile
                   (inject_Z (col cell) * cs) (inject_Z (row cell) * cs) cs
                   (Z.of_nat (List.length placed) + 1) 0 0 100 100])
        (S fillerIndex)
    else placed
  end.

(** The final [newItems] of [addMultipleNFTs]; [shuffledNFTs] is the outcome
    of the random sort of [nftsToAdd].  [dflt] stands for the [undefined]
    read past the end of [shuffledNFTs], which does not happen when the
    shuffle keeps the length of a non-empty list. *)
Definition bulkPlacements (cl : CanvasState) (shuffledNFTs : list NFT) (dflt : NFT)
  (minCount : Z) (genId : nat -> string) : list CanvasItem :=
  let gridSize := Math_floor (100 / cellSize cl) in
  let allCells :=
    flat_map (fun r => map (fun c => mkCell r c) (range gridSize)) (range gridSize) in
  let p := placeEach (cellSize cl) gridSize genId shuffledNFTs 0
                     (mkPacking allCells []) in
  if (Z.of_nat (List.length (newItems p)) <? minCount)%Z
  then fillMinimum (cellSize cl) genId shuffledNFTs dflt minCount
                   (availableCells p) (newItems p) 0
  else newItems p.

Definition addMultipleNFTs (nftsToAdd shuffledNFTs : list NFT) (minCount : Z)
  (genId : nat -> string) (cl : CanvasState) : list Update :=
  match nftsToAdd with
  | [] => []
  | dflt :: _ =>
    let placed := bulkPlacements cl shuffledNFTs dflt minCount genId in
    [SetItems []; SetActiveItem None; SetItems placed] ++ saveToHistory cl placed
  end.

(** ** Reconciliation with the externally selected NFTs *)

Definition text (v : option string) : string :=
  match v with Some str => str | None => EmptyString end.

(** The identifier the [selectedNFTs] effect computes, for canvas items and
    for selected NFTs alike. *)
Definition nftKey (a : NFT) : string :=
  if truthy (contract a) && truthy (identifier a)
  then text (contract a) ++ "-" ++ text (identifier a)
  else if truthy (contract_address a) && truthy (token_id a)
  then text (contract_address a) ++ "-" ++ text (token_id a)
  else if truthy (image_url a) then text (image_url a) else "unknown".

Definition existingNFTs (cl : CanvasState) : list string :=
  map (fun item => nftKey (nft item)) (items cl).

Definition newNFTs (cl : CanvasState) (selectedNFTs : list NFT) : list NFT :=
  filter (fun a => negb (existsb (String.eqb (nftKey a)) (existingNFTs cl))) selectedNFTs.

(** [newNFTs.forEach(nft => addNFT(nft))]: every call closes over the same
    render; [fresh k] gives the identifier and the random pair of call [k]. *)
Fixpoint addEach (fresh : nat -> string * (Q * Q)) (k : nat) (l : list NFT)
  (cl : CanvasState) : list Update :=
  match l with
  | [] => []
  | a :: rest =>
    addNFT (fst (fresh k)) (snd (fresh k)) a cl ++ addEach fresh (S k) rest cl
  end.

(** The effect that runs when [selectedNFTs] changes. *)
Definition processSelectedNFTs (selectedNFTs : list NFT)
  (fresh : nat -> string * (Q * Q)) (cl : CanvasState) : list Update :=
  match selectedNFTs with
  | [] => []
  | _ => addEach fresh 0 (newNFTs cl selectedNFTs) cl
  end.

(** The three-step comparison of [handleSelectNFT] (App.tsx) between an NFT
    already selected and the one clicked. *)
Definition sameSelection (selectedNFT clicked : NFT) : bool :=
  if truthy (contract_address selectedNFT) && truthy (contract_address clicked)
     && truthy (token_id selectedNFT) && truthy (token_id clicked)
  then String.eqb (text (contract_address selectedNFT)) (text (contract_address clicked))
       && String.eqb (text (token_id selectedNFT)) (text (token_id clicked))
  else if truthy (nft_id selectedNFT) && truthy (nft_id clicked)
  then String.eqb (text (nft_id selectedNFT)) (text (nft_id clicked))
  else match image_url selectedNFT, image_url clicked with
       | Some u, Some v => String.eqb u v
       | None, None => true
       | _, _ => false
       end.

(** [handleSelectNFT]: the parent appends the clicked NFT to [selectedNFTs]
    unless one of them already matches it. *)
Definition handleSelectNFT (selectedNFTs : list NFT) (clicked : NFT) : list NFT :=
  if existsb (fun selectedNFT => sameSelection selectedNFT clicked) selectedNFTs
  then selectedNFTs
  else selectedNFTs ++ [clicked].

(** ** Mutations as a whole *)

(** One committed user action, with the outside values its handler consumes.
    [Add] is a run of the [selectedNFTs] effect, the only caller of
    [addNFT]: [selectedNFTs] is the selection the parent passes down and
    [fresh k] gives the identifier and the random pair of the [k]-th
    [addNFT] of the run.  [PointerUp] carries the item list closed over by
    the window listener, which is registered when the gesture starts and not
    again while the pointer moves. *)
Inductive Mutation :=
| Add (selectedNFTs : list NFT) (fresh : nat -> string * (Q * Q))
| Remove (target : string)
| Clear
| BulkAdd (nftsToAdd shuffledNFTs : list NFT) (minCount : Z) (genId : nat -> string)
| MoveNudge (dx dy : Q)
| ResizeNudge (delta : Q)
| CropApply (cx cy cw ch : Q)
| PointerUp (listenerItems : list CanvasItem).

Definition perform (m : Mutation) (st : CanvasState) : CanvasState :=
  match m with
  | Add selectedNFTs fresh => dispatch (processSelectedNFTs selectedNFTs fresh) st
  | Remove target => dispatch (removeItem target) st
  | Clear => dispatch clearCanvas st
  | BulkAdd nftsToAdd shuffledNFTs minCount genId =>
      dispatch (addMultipleNFTs nftsToAdd shuffledNFTs minCount genId) st
  | MoveNudge dx dy => dispatch (moveActiveItem dx dy) st
  | ResizeNudge delta => dispatch (resizeActiveItem delta) st
  | CropApply cx cy cw ch => dispatch (updateCrop cx cy cw ch) st
  | PointerUp listenerItems =>
      run st (handleMouseUp (applyUpdate st (SetItems listenerItems)))
  end.

(** Whether the handler of [m] reaches a call of [saveToHistory]. *)
Definition commits (m : Mutation) (st : CanvasState) : bool :=
  match m with
  | Add selectedNFTs _ =>
      match newNFTs st selectedNFTs with [] => false | _ => true end
  | Remove _ | Clear => true
  | BulkAdd nftsToAdd _ _ _ => match nftsToAdd with [] => false | _ => true end
  | MoveNudge _ _ | ResizeNudge _ | CropApply _ _ _ _ => truthy (activeItem st)
  | PointerUp _ => isDragging st || isResizing st
  end.

(** The number of calls of [saveToHistory] the handler of [m] makes: one for
    every new NFT in a run of the [selectedNFTs] effect, one in every other
    handler that commits. *)
Definition saves (m : Mutation) (st : CanvasState) : nat :=
  match m with
  | Add selectedNFTs _ => List.length (newNFTs st selectedNFTs)
  | _ => if commits m st then 1%nat else 0%nat
  end.

(** The handlers that pass to [saveToHistory] the list they store with
    [setItems]; the others pass the [items] of their closure. *)
Definition savesNewItems (m : Mutation) : bool :=
  match m with
  | Add _ _ | Remove _ | Clear | BulkAdd _ _ _ _ => true
  | _ => false
  end.

(** The list the [k]-th [addNFT] of a run of the effect stores and passes to
    [saveToHistory]: the items of the closure and the new tile. *)
Definition addedItems (fresh : nat -> string * (Q * Q)) (cl : CanvasState) (k : nat)
  (a : NFT) : list CanvasItem :=
  let position := findEmptyPosition cl (snd (fresh k)) in
  items cl ++ [mkItem (fst (fresh k)) a (pos_x position) (pos_y position)
                      (pos_size position)
                      (Z.of_nat (List.length (items cl)) + 1) 0 0 100 100].


(** [k] clicks on the undo button. *)
Fixpoint undoTimes (k : nat) (st : CanvasState) : option CanvasState :=
  match k with
  | O => Some st
  | S k' =>
    match dispatchOpt undo st with
    | Some st' => undoTimes k' st'
    | None => None
    end
  end.

(** ** Properties of states and items *)

(** The history index points into the history, or is -1. *)
Definition historyOK (st : CanvasState) : Prop :=
  (-1 <= historyIndex st < Z.of_nat (List.length (history st)))%Z.

(** The history [saveToHistory] leaves when it is called with [snapshot] in
    a closure over [cl]. *)
Definition historyAfterSave (cl : CanvasState) (snapshot : list CanvasItem)
  : list (list CanvasItem) :=
  (if (historyIndex cl <? Z.of_nat (List.length (history cl)) - 1)%Z
   then slice0 (historyIndex cl + 1) (history cl)
   else history cl) ++ [snapshot].

(** The current history entry is the live item list. *)
Definition historySynced (st : CanvasState) : Prop :=
  lookup (history st) (historyIndex st) = Some (items st).

Definition inBounds (item : CanvasItem) : Prop :=
  0 <= x item /\ 0 <= y item /\ x item + size item <= 100 /\ y item + size item <= 100.

(** The square of [item] and the square of the grid cell [cell] share an
    area. *)
Definition covers (cs : Q) (item : CanvasItem) (cell : Cell) : bool :=
  Qltb (inject_Z (col cell) * cs) (x item + size item)
  && Qltb (x item) ((inject_Z (col cell) + 1) * cs)
  && Qltb (inject_Z (row cell) * cs) (y item + size item)
  && Qltb (y item) ((inject_Z (row cell) + 1) * cs).

Definition gridCells (cl : CanvasState) : list Cell :=
  let gridSize := Math_floor (100 / cellSize cl) in
  flat_map (fun r => map (fun c => mkCell r c) (range gridSize)) (range gridSize).

(** The grid cells the square of [item] covers. *)
Definition footprint (cl : CanvasState) (item : CanvasItem) : list Cell :=
  filter (covers (cellSize cl) item) (gridCells cl).

Definition disjointb (l1 l2 : list Cell) : bool :=
  forallb (fun cell => negb (existsb (cell_eqb cell) l2)) l1.

Fixpoint pairwiseDisjointb (cl : CanvasState) (l : list CanvasItem) : bool :=
  match l with
  | [] => true
  | a :: rest =>
    forallb (fun b => disjointb (footprint cl a) (footprint cl b)) rest
    && pairwiseDisjointb cl rest
  end.

(** [item] was built by the bulk placement: its identifier comes from the
    generator and its NFT from the input list. *)
Definition newlyCreated (genId : nat -> string) (pool : list NFT) (item : CanvasItem)
  : Prop :=
  (exists k, id item = genId k) /\ In (nft item) pool.

(** The horizontal and the vertical edge handle a corner handle combines. *)
Definition horizontalPart (d : ResizeDirection) : ResizeDirection :=
  match d with
  | Dir.ne | Dir.se => Dir.e
  | Dir.nw | Dir.sw => Dir.w
  | other => other
  end.
Definition verticalPart (d : ResizeDirection) : ResizeDirection :=
  match d with
  | Dir.ne | Dir.nw => Dir.n
  | Dir.se | Dir.sw => Dir.s
  | other => other
  end.
Definition isCorner (d : ResizeDirection) : bool :=
  match d with Dir.ne | Dir.nw | Dir.se | Dir.sw => true | _ => false end.

(** The identity key as the specification words it: the contract and token
    id pair, else the opaque id, else the image URL.  Kept apart from
    [nftKey], which is what the effect computes. *)
Definition specIdentityKey (a : NFT) : string :=
  if truthy (contract_address a) && truthy (token_id a)
  then text (contract_address a) ++ "-" ++ text (token_id a)
  else if truthy (nft_id a) then text (nft_id a)
  else text (image_url a).

Definition countKey (key : NFT -> string) (k : string) (l : list CanvasItem) : nat :=
  List.length (filter (fun item => String.eqb (key (nft item)) k) l).

(** ** Sample data *)

Definition imageNFT (u : string) : NFT :=
  mkNFT None None None None (Some u) None None None false.

Definition tile (name : string) (px py psize : Q) : CanvasItem :=
  mkItem name (imageNFT name) px py psize 1 0 0 100 100.

Definition fiveNFTs : list NFT :=
  [imageNFT "a"; imageNFT "b"; imageNFT "c"; imageNFT "d"; imageNFT "e"].

(** A canvas after three additions, nothing selected. *)
Definition threeAdded : CanvasState :=
  let a := tile "a" 0 0 20 in
  let b := tile "b" 20 0 20 in
  let c := tile "c" 40 0 20 in
  mkState [a; b; c] 10 None true [[a]; [a; b]; [a; b; c]] 2
          false false None (0, 0) None.


(** A ten-column canvas whose tile [t] is being resized from handle [d],
    the pointer having gone down at [start]. *)
Definition resizing (t : CanvasItem) (d : ResizeDirection) (start : Q * Q)
  : CanvasState :=
  mkState [t] 10 (Some (id t)) true [[t]] 0 false true (Some d) start (Some t).

(** Two records of one asset: the same opaque id, two image URLs. *)
Definition assetFirstUrl : NFT :=
  mkNFT (Some "asset-1"%string) None None None (Some "https://img/1.png"%string) None None None false.
Definition assetSecondUrl : NFT :=
  mkNFT (Some "asset-1"%string) None None None (Some "https://img/2.png"%string) None None None false.

(** The identifiers and random pairs handed to successive [addNFT] calls. *)
Definition sampleFresh (k : nat) : string * (Q * Q) :=
  (String (Ascii.ascii_of_nat (48 + k)) EmptyString, (1 # 2, 1 # 2)).

(** The same generator in a later run of the effect, [start] identifiers
    having been handed out. *)
Definition sampleFreshFrom (start k : nat) : string * (Q * Q) := sampleFresh (start + k).

(** The canvas after a click on a first NFT of the list, after a click on a
    second one, and after an undo of the second addition. *)
Definition clickedA : CanvasState :=
  perform (Add [imageNFT "a"] sampleFresh) initialState.
Definition clickedAB : CanvasState :=
  perform (Add [imageNFT "a"; imageNFT "b"] (sampleFreshFrom 1)) clickedA.
Definition undoneB : CanvasState :=
  match dispatchOpt undo clickedAB with
  | Some st => st
  | None => clickedAB
  end.

(** A ten-column canvas holding one selected tile. *)
Definition oneTile (t : CanvasItem) : CanvasState :=
  mkState [t] 10 (Some (id t)) true [[t]] 0 false false None (0, 0) None.

(** ** Selection and pointer-down handlers *)

Definition withZIndex (it : CanvasItem) (z : Z) : CanvasItem :=
  mkItem (id it) (nft it) (x it) (y it) (size it) z
         (cropX it) (cropY it) (cropWidth it) (cropHeight it).

(** [Math.max(...newItems.map(item => item.zIndex), 0)] *)
Definition maxZIndex (l : list CanvasItem) : Z :=
  fold_right (fun item acc => Z.max (zIndex item) acc) 0%Z l.

(** [findIndex] of the first item with the id, then the replacement of that
    entry by a copy with the new [zIndex]. *)
Fixpoint promote (target : string) (maxZ : Z) (l : list CanvasItem) : list CanvasItem :=
  match l with
  | [] => []
  | item :: rest =>
      if String.eqb (id item) target
      then withZIndex item (maxZ + 1) :: rest
      else item :: promote target maxZ rest
  end.

Definition selectItem (target : string) (cl : CanvasState) : list Update :=
  [SetActiveItem (Some target);
   UpdateItems (fun prev => promote target (maxZIndex prev) prev)].

(** The two pointer-down handlers also queue [setInteractionStart]. *)
Inductive PointerUpdate :=
| Plain (u : Update)
| SetInteractionStart (v : Q * Q).

Definition applyPointerUpdate (st : CanvasState) (u : PointerUpdate) : CanvasState :=
  match u with
  | Plain u' => applyUpdate st u'
  | SetInteractionStart v =>
    match st with
    | mkState its cols act snap hist idx drag rsz dir _ init =>
      mkState its cols act snap hist idx drag rsz dir v init
    end
  end.

Definition runPointer (st : CanvasState) (us : list PointerUpdate) : CanvasState :=
  fold_left applyPointerUpdate us st.

(** [items.find(item => item.id === id)] followed by
    [setInitialItemState({ ...item })] when an item is found. *)
Definition captureInitial (target : string) (cl : CanvasState) : list PointerUpdate :=
  match find (fun item => String.eqb (id item) target) (items cl) with
  | Some item => [Plain (SetInitialItemState (Some item))]
  | None => []
  end.

(** [pointer] is the position of the event in percent of the canvas
    rectangle, [None] when [canvasRef.current] is null. *)
Definition handleMouseDown (target : string) (pointer : option (Q * Q))
  (cl : CanvasState) : list PointerUpdate :=
  map Plain (selectItem target cl)
  ++ [Plain (SetIsDragging true); Plain (SetIsResizing false)]
  ++ match pointer with
     | None => []
     | Some p => SetInteractionStart p :: captureInitial target cl
     end.

Definition handleResizeStart (target : string) (direction : ResizeDirection)
  (pointer : option (Q * Q)) (cl : CanvasState) : list PointerUpdate :=
  map Plain (selectItem target cl)
  ++ [Plain (SetIsDragging false); Plain (SetIsResizing true);
      Plain (SetResizeDirection (Some direction))]
  ++ match pointer with
     | None => []
     | Some p => SetInteractionStart p :: captureInitial target cl
     end.

(** The pointer moves of one gesture: the window listeners were registered
    by the render that followed the pointer-down, and every move runs the
    [handleMouseMove] of that render, [listener]. *)
Definition pointerMoves (listener : CanvasState) (moves : list (Q * Q))
  (st : CanvasState) : CanvasState :=
  fold_left (fun acc p => run acc (handleMouseMove p listener)) moves st.

(** A whole gesture on the item [target]: pointer down on its body
    ([direction = None]) or on a resize handle, the moves, pointer up. *)
Definition gesture (target : string) (direction : option ResizeDirection)
  (start : Q * Q) (moves : list (Q * Q)) (st : CanvasState) : CanvasState :=
  let listener :=
    match direction with
    | None => runPointer st (handleMouseDown target (Some start) st)
    | Some d => runPointer st (handleResizeStart target d (Some start) st)
    end in
  run (pointerMoves listener moves listener) (handleMouseUp listener).

(** ** The search of [findEmptyPosition], named *)

(** The [isEmpty] flag of [findEmptyPosition] for the block whose top-left
    cell is ([row0], [col0]). *)
Definition blockIsEmpty (cl : CanvasState) (row0 col0 : Z) : bool :=
  let span := Math_ceil (cellSize cl * 2 / cellSize cl) in
  forallb (fun r => forallb (fun c =>
    negb (existsb (cell_eqb (mkCell (row0 + r) (col0 + c))) (occupiedCells cl)))
    (range span)) (range span).

(** The top-left cells [findEmptyPosition] tries, in the order of its two
    loops. *)
Definition candidatePositions (cl : CanvasState) : list Cell :=
  let span := Math_ceil (cellSize cl * 2 / cellSize cl) in
  let maxRow := (Math_floor (100 / cellSize cl) - span + 1)%Z in
  let maxCol := (Math_floor (100 / cellSize cl) - span + 1)%Z in
  flat_map (fun row0 => map (fun col0 => mkCell row0 col0) (range maxCol)) (range maxRow).

(** ** Properties of a packing *)

(** The open squares of two tiles share an area. *)
Definition squaresOverlap (a b : CanvasItem) : Prop :=
  x a < x b + size b /\ x b < x a + size a
  /\ y a < y b + size b /\ y b < y a + size a.

Definition pairwiseApart (l : list CanvasItem) : Prop :=
  forall i j a b, i <> j ->
    nth_error l i = Some a -> nth_error l j = Some b -> ~ squaresOverlap a b.

(** [item] is the square of [k] by [k] cells whose top-left cell is [cell]. *)
Definition tileAt (cs : Q) (cell : Cell) (k : Z) (item : CanvasItem) : Prop :=
  x item == inject_Z (col cell) * cs
  /\ y item == inject_Z (row cell) * cs
  /\ size item == inject_Z k * cs.

(** What [addMultipleNFTs] keeps true of its two arrays: the available
    cells are distinct cells of the grid, every tile is a block of one to
    three cells a side inside the grid whose cells are no longer available,
    and no two tiles overlap. *)
Definition packingOK (cs : Q) (gridSize : Z) (p : Packing) : Prop :=
  NoDup (availableCells p)
  /\ (forall c, In c (availableCells p) ->
        (0 <= row c < gridSize)%Z /\ (0 <= col c < gridSize)%Z)
  /\ (forall item, In item (newItems p) ->
        exists cell k,
          tileAt cs cell k item
          /\ (1 <= k <= 3)%Z
          /\ (0 <= row cell)%Z /\ (0 <= col cell)%Z
          /\ (row cell + k <= gridSize)%Z /\ (col cell + k <= gridSize)%Z
          /\ forall c, In c (blockCells cell k) -> ~ In c (availableCells p))
  /\ pairwiseApart (newItems p).

(** ** Grids on which the arithmetic of the source is exact *)

(** The column counts of the selector whose cell size [100 / gridColumns] is
    a binary fraction (25, 12.5, 10 and 6.25): on these grids the products
    and sums of whole numbers of cells are computed without rounding by the
    double arithmetic of the source, as they are here. *)
Definition exactColumns : list positive := [4; 8; 10; 16]%positive.

(** [item] is a square of whole cells inside the grid. *)
Definition onGrid (cl : CanvasState) (item : CanvasItem) : Prop :=
  exists cell k,
    tileAt (cellSize cl) cell k item /\ (1 <= k)%Z
    /\ (0 <= row cell)%Z /\ (0 <= col cell)%Z
    /\ (row cell + k <= Z.pos (gridColumns cl))%Z
    /\ (col cell + k <= Z.pos (gridColumns cl))%Z.

(** ** Filling the blank tiles *)

(** The [availableCells] of [fillBlankTiles] before they are shuffled: the
    cells of the grid, row by row, that are not in [occupiedCells]. *)
Definition freeCells (cl : CanvasState) : list Cell :=
  filter (fun cell => negb (existsb (cell_eqb cell) (occupiedCells cl))) (gridCells cl).

(** The [while] loop of [fillBlankTiles]: one 1x1 tile per cell, the NFTs
    being taken in turn and from the start again after the last one. *)
Fixpoint fillLoop (cs : Q) (genId : nat -> string) (shuffled : list NFT) (dflt : NFT)
  (cells : list Cell) (placed : list CanvasItem) (nftIndex : nat) : list CanvasItem :=
  match cells with
  | [] => placed
  | cell :: rest =>
    if (nftIndex <? List.length shuffled)%nat then
      let nextIndex :=
        if (List.length shuffled <=? S nftIndex)%nat then 0%nat else S nftIndex in
      fillLoop cs genId shuffled dflt rest
        (placed ++
           [mkItem (genId (List.length placed)) (nth nftIndex shuffled dflt)
                   (inject_Z (col cell) * cs) (inject_Z (row cell) * cs) cs
                   (Z.of_nat (List.length placed) + 1) 0 0 100 100])
        nextIndex
    else placed
  end.

(** [shuffledCells] and [shuffledNFTs] are the outcomes of the two random
    sorts, of [freeCells] and of [nfts]. *)
Definition fillBlankTiles (nfts shuffledNFTs : list NFT) (shuffledCells : list Cell)
  (genId : nat -> string) (cl : CanvasState) : list Update :=
  match nfts with
  | [] => []
  | dflt :: _ =>
    let filled :=
      fillLoop (cellSize cl) genId shuffledNFTs dflt shuffledCells (items cl) 0 in
    [SetItems filled] ++ saveToHistory cl filled
  end.

(** ** The parent and the NFT list (App.tsx, NFTList.tsx) *)

(** [a === b] on two optional strings. *)
Definition sameText (a b : option string) : bool :=
  match a, b with
  | Some u, Some v => String.eqb u v
  | None, None => true
  | _, _ => false
  end.

(** [isNFTSelected] of the NFT list: whether the list shows [shown] as
    already in the grid. *)
Definition isNFTSelected (selectedNFTs : list NFT) (shown : NFT) : bool :=
  existsb (fun selectedNFT =>
    (truthy (contract_address shown) && truthy (token_id shown)
     && sameText (contract_address selectedNFT) (contract_address shown)
     && sameText (token_id selectedNFT) (token_id shown))
    || (truthy (nft_id shown) && sameText (nft_id selectedNFT) (nft_id shown))
    || (truthy (image_url shown) && sameText (image_url selectedNFT) (image_url shown)))
    selectedNFTs.

(** [NFTCollection] of hooks/useWalletCollections.ts. *)
Record NFTCollection := mkCollection {
  slug : string;
  collection_name : string;
  collection_image_url : string;
  banner_image_url : option string;
  collection_contract_address : string;
  nftCount : option Z
}.

(** The NFT-like object [handleAddCollectionImage] builds; [stamp] is the
    text of [Date.now()]. *)
Definition collectionImage (c : NFTCollection) (stamp : string) : NFT :=
  mkNFT (Some ("collection-image-" ++ slug c ++ "-" ++ stamp)%string)
        None None
        (Some (collection_name c ++ " Logo")%string)
        (Some (collection_image_url c))
        (Some (slug c))
        None None true.

Definition handleAddCollectionImage (selectedNFTs : list NFT) (c : NFTCollection)
  (stamp : string) : list NFT :=
  if negb (truthy (Some (collection_image_url c))) then selectedNFTs
  else handleSelectNFT selectedNFTs (collectionImage c stamp).

(** ** Wallets (components/WalletManager.tsx) *)

(** The chains ['ethereum' | 'abstract' | 'base']. *)
Inductive Blockchain := Ethereum | Abstract | Base.

Definition chain_eqb (a b : Blockchain) : bool :=
  match a, b with
  | Ethereum, Ethereum | Abstract, Abstract | Base, Base => true
  | _, _ => false
  end.

Record WalletEntry := mkWallet { address : string; chain : Blockchain }.

(** The character class [[a-fA-F0-9]]. *)
Definition isHexDigit (c : Ascii.ascii) : bool :=
  let code := Ascii.nat_of_ascii c in
  ((48 <=? code) && (code <=? 57) || (97 <=? code) && (code <=? 102)
   || (65 <=? code) && (code <=? 70))%nat.

Fixpoint allHex (str : string) : bool :=
  match str with
  | EmptyString => true
  | String c rest => isHexDigit c && allHex rest
  end.

(** The test of [/^0x[a-fA-F0-9]{40}$/]. *)
Definition isValidAddress (addr : string) : bool :=
  match addr with
  | String "0"%char (String "x"%char rest) =>
      (String.length rest =? 40)%nat && allHex rest
  | _ => false
  end.

(** [address.slice(0, 6)], three dots, [address.slice(-5)]; the empty text
    for an empty address. *)
Definition truncateAddress (addr : string) : string :=
  if String.eqb addr EmptyString then EmptyString
  else (substring 0 6 addr ++ "..." ++ substring (String.length addr - 5) 5 addr)%string.

(** The state hooks of [WalletManager]. *)
Record WalletForm := mkWalletForm {
  input_address : string;
  input_chain : Blockchain;
  form_error : string;
  localWallets : list WalletEntry
}.

Definition sameWallet (addr : string) (c : Blockchain) (w : WalletEntry) : bool :=
  String.eqb (address w) addr && chain_eqb (chain w) c.

Definition handleAdd (f : WalletForm) : WalletForm :=
  if negb (isValidAddress (input_address f))
  then mkWalletForm (input_address f) (input_chain f) "Invalid address" (localWallets f)
  else if existsb (sameWallet (input_address f) (input_chain f)) (localWallets f)
  then mkWalletForm (input_address f) (input_chain f) "Wallet already added"
                    (localWallets f)
  else mkWalletForm EmptyString (input_chain f) EmptyString
                    (localWallets f ++ [mkWallet (input_address f) (input_chain f)]).

(** [localWallets.filter((_, i) => i !== idx)], [i] being the index of the
    head of [l]. *)
Fixpoint removeIndex (i idx : nat) (l : list WalletEntry) : list WalletEntry :=
  match l with
  | [] => []
  | w :: rest =>
    if (i =? idx)%nat then removeIndex (S i) idx rest
    else w :: removeIndex (S i) idx rest
  end.

Definition handleRemove (idx : nat) (f : WalletForm) : WalletForm :=
  mkWalletForm (input_address f) (input_chain f) (form_error f)
               (removeIndex 0 idx (localWallets f)).

(** Every wallet of the list has a well-formed address and no wallet is
    listed twice. *)
Definition walletsOK (l : list WalletEntry) : Prop :=
  NoDup l /\ Forall (fun w => isValidAddress (address w) = true) l.

(** ** Collections and pages (useWalletCollections.ts, openseaApi.ts) *)

(** The [reduce] that keeps one collection per slug. *)
Definition uniqueCollections (allCollections : list NFTCollection) : list NFTCollection :=
  fold_left (fun acc c =>
               if existsb (fun kept => String.eqb (slug kept) (slug c)) acc
               then acc else acc ++ [c])
            allCollections [].

(** The [do ... while] of [fetchAllNFTsByAccount] once the first page is
    due: [server cursor] is the answer of the marketplace for a cursor
    ([None] on the first request), a list of NFTs and the next cursor;
    [remaining] is the number of further pages [maxPages] allows. *)
Fixpoint fetchPages {A} (server : option string -> list A * option string)
  (cursor : option string) (remaining : nat) : list A :=
  let (nfts, next) := server cursor in
  match remaining with
  | O => nfts
  | S fewer =>
    if truthy next then nfts ++ fetchPages server next fewer else nfts
  end.

Definition fetchAllNFTsByAccount {A} (server : option string -> list A * option string)
  (maxPages : Z) : list A :=
  fetchPages server None (Z.to_nat (maxPages - 1)).

(** A marketplace that answers two pages: two NFTs and a cursor, then one
    NFT and no cursor. *)
Definition twoPageServer (cursor : option string) : list nat * option string :=
  match cursor with
  | None => ([1; 2]%nat, Some "p2"%string)
  | Some _ => ([3]%nat, None)
  end.

(** ** The shuffle form (components/ShuffleForm.tsx) *)

Record ShuffleForm := mkShuffleForm {
  count : Z;
  includeCollectionImages : bool;
  useSelectedCollections : bool;
  fillEmptyTiles : bool
}.

(** [arr.slice(start)]: a negative [start] counts from the end. *)
Definition sliceFrom {A} (start : Z) (l : list A) : list A :=
  if (start <? 0)%Z
  then skipn (Z.to_nat (Z.of_nat (List.length l) + start)) l
  else skipn (Z.to_nat start) l.

(** [nft.collection && selectedCollections.includes(nft.collection)] *)
Definition inCollections (selectedCollections : list string) (a : NFT) : bool :=
  truthy (collection a)
  && existsb (String.eqb (text (collection a))) selectedCollections.

(** Whether the form restricts the draw to the selected collections. *)
Definition restricts (form : ShuffleForm) (selectedCollections : list string) : bool :=
  useSelectedCollections form && (0 <? List.length selectedCollections)%nat.

Definition availableNFTs (form : ShuffleForm) (nfts : list NFT)
  (selectedCollections : list string) : list NFT :=
  if restricts form selectedCollections
  then filter (inCollections selectedCollections) nfts
  else nfts.

(** The logos pushed by the [forEach] over the available collections;
    [stamp k] is the text of the time stamp and random suffix of the
    collection at position [k]. *)
Fixpoint logos (stamp : nat -> string) (k : nat) (cs : list NFTCollection) : list NFT :=
  match cs with
  | [] => []
  | c :: rest =>
    if truthy (Some (collection_image_url c))
    then collectionImage c (stamp k) :: logos stamp (S k) rest
    else logos stamp (S k) rest
  end.

Definition collectionNFTs (form : ShuffleForm) (collections : list NFTCollection)
  (selectedCollections : list string) (stamp : nat -> string) : list NFT :=
  logos stamp 0
    (if restricts form selectedCollections
     then filter (fun c => existsb (String.eqb (slug c)) selectedCollections) collections
     else collections).

(** What [handleShuffle] hands over: the two arguments of [onAddNFTs] and,
    when it calls [onFillBlankTiles], its argument. *)
Record ShuffleResult := mkShuffleResult {
  passedNFTs : list NFT;
  passedMinCount : Z;
  fillWith : option (list NFT)
}.

(** [shuffledNFTs] is the random sort of [availableNFTs] and
    [shuffledCollectionNFTs] the random sort of [collectionNFTs]. *)
Definition handleShuffle (form : ShuffleForm)
  (shuffledNFTs shuffledCollectionNFTs : list NFT) : ShuffleResult :=
  let nftCount := Z.min (count form) (Z.of_nat (List.length shuffledNFTs)) in
  let selectedNFTs := slice0 nftCount shuffledNFTs in
  let selectedNFTs :=
    if includeCollectionImages form then
      let collectionCount :=
        Z.min (Math_ceil (inject_Z nftCount / 2))
              (Z.of_nat (List.length shuffledCollectionNFTs)) in
      selectedNFTs ++ slice0 collectionCount shuffledCollectionNFTs
    else selectedNFTs in
  mkShuffleResult selectedNFTs (count form)
    (if fillEmptyTiles form then
       let remainingNFTs := sliceFrom nftCount shuffledNFTs in
       if (0 <? List.length remainingNFTs)%nat then Some remainingNFTs else None
     else None).

(** ** Export (GridCanvas.tsx, [exportCanvas]) *)

(** [[...items].sort((a, b) => a.zIndex - b.zIndex)]: [sort] is stable, the
    items with the same [zIndex] keep their order.  An item is inserted in
    front of the first sorted item that is not below it. *)
Fixpoint insertByZIndex (item : CanvasItem) (sorted : list CanvasItem) : list CanvasItem :=
  match sorted with
  | [] => [item]
  | b :: rest =>
      if (zIndex item <=? zIndex b)%Z then item :: b :: rest
      else b :: insertByZIndex item rest
  end.

Definition sortByZIndex (l : list CanvasItem) : list CanvasItem :=
  fold_right insertByZIndex [] l.

(** The arguments of the two [drawImage] calls made for an item: the crop
    rectangle read from the loaded image, and the square of the export
    canvas given to [ctx.drawImage(itemCanvas, x, y, size, size)].  The
    record holds the calls as the code makes them; a browser rejects the
    second one when the item canvas has no pixel (a size under one pixel),
    which the [catch] of the loop body logs as it does a failed load. *)
Record Draw := mkDraw {
  drawn : CanvasItem;
  imageWidth : Q;
  imageHeight : Q;
  srcX : Q;
  srcY : Q;
  srcWidth : Q;
  srcHeight : Q;
  destX : Q;
  destY : Q;
  destSize : Q
}.

(** The body of the loop of [exportCanvas] for one item.  [loadImage]
    answers the width and the height of the image, or [None] when the
    promise is rejected: the [catch] of the loop body logs the error and the
    loop goes on with the next item. *)
Definition drawItem (exportSize : Q) (loadImage : option string -> option (Q * Q))
  (item : CanvasItem) : list Draw :=
  let x := (x item / 100) * exportSize in
  let y := (y item / 100) * exportSize in
  let size := (size item / 100) * exportSize in
  match loadImage (image_url (nft item)) with
  | None => []
  | Some (width, height) =>
      let srcX := (cropX item / 100) * width in
      let srcY := (cropY item / 100) * height in
      let srcWidth := (cropWidth item / 100) * width in
      let srcHeight := (cropHeight item / 100) * height in
      [mkDraw item width height srcX srcY srcWidth srcHeight x y size]
  end.

(** The draws of [exportCanvas] on the export canvas, in the order they are
    made.  The guards on [canvasRef.current] and on the two 2d contexts are
    not part of the model: they fail only when the browser has no canvas to
    give. *)
Definition exportCanvas (exportSize : Q) (loadImage : option string -> option (Q * Q))
  (items : list CanvasItem) : list Draw :=
  let sortedItems := sortByZIndex items in
  flat_map (drawItem exportSize loadImage) sortedItems.

(** The items at the z-index [z]. *)
Definition atZIndex (z : Z) (item : CanvasItem) : bool := (zIndex item =? z)%Z.

(** [a] is not drawn above [b]. *)
Definition notAbove (a b : CanvasItem) : Prop := (zIndex a <= zIndex b)%Z.

(** The image of the item loads. *)
Definition loads (loadImage : option string -> option (Q * Q)) (item : CanvasItem) : bool :=
  match loadImage (image_url (nft item)) with Some _ => true | None => false end.

(** The crop rectangle of the item lies inside the image. *)
Definition cropInBounds (item : CanvasItem) : Prop :=
  0 <= cropX item /\ 0 <= cropY item
  /\ cropX item + cropWidth item <= 100 /\ cropY item + cropHeight item <= 100.

(** Every image loads as a 512 x 512 image, but the one at the URL "b". *)
Definition sampleLoadImage (url : option string) : option (Q * Q) :=
  match url with
  | Some u => if String.eqb u "b" then None else Some (512, 512)
  | None => None
  end.

(** ** Collection selection (CollectionSelector.tsx) *)

(** The click on a collection:
    [onSelect(selected.includes(c.slug) ? selected.filter(s => s !== c.slug)
                                        : [...selected, c.slug])]. *)
Definition toggleCollection (selected : list string) (c : NFTCollection) : list string :=
  if existsb (String.eqb (slug c)) selected
  then filter (fun s => negb (String.eqb s (slug c))) selected
  else selected ++ [slug c].

(** * Theorems *)

Lemma Qltb_lt (a b : Q) : Qltb a b = true <-> a < b.
Proof.
  unfold Qltb. rewrite Qlt_alt. destruct (a ?= b); split; congruence.
Qed.

(** ** Update queues *)

Lemma run_app (st : CanvasState) (us vs : list Update) :
  run st (us ++ vs) = run (run st us) vs.
Proof. unfold run. apply fold_left_app. Qed.

Lemma run_undo_updates (st : CanvasState) (snapshot : list CanvasItem) (d : Z) :
  items (run st [AddHistoryIndex d; SetItems snapshot]) = snapshot
  /\ history (run st [AddHistoryIndex d; SetItems snapshot]) = history st
  /\ historyIndex (run st [AddHistoryIndex d; SetItems snapshot]) = (historyIndex st + d)%Z.
Proof. destruct st; cbn. auto. Qed.

(** ** History *)

Lemma lookup_Some_range {A} (l : list A) (i : Z) (v : A) :
  lookup l i = Some v -> (0 <= i < Z.of_nat (List.length l))%Z.
Proof.
  unfold lookup. destruct (Z.ltb_spec i 0); [discriminate|].
  intros Hn. assert (Hlt : (Z.to_nat i < List.length l)%nat).
  { apply nth_error_Some. congruence. }
  lia.
Qed.

Lemma historyAfterSave_firstn (cl : CanvasState) (snapshot : list CanvasItem) :
  historyOK cl ->
  historyAfterSave cl snapshot
  = firstn (Z.to_nat (historyIndex cl + 1)) (history cl) ++ [snapshot].
Proof.
  unfold historyOK, historyAfterSave, slice0. intros Hok.
  destruct (Z.ltb_spec (historyIndex cl) (Z.of_nat (List.length (history cl)) - 1)).
  - destruct (Z.ltb_spec (historyIndex cl + 1) 0); [lia | reflexivity].
  - rewrite firstn_all2; [reflexivity | lia].
Qed.

Lemma historyAfterSave_length (cl : CanvasState) (snapshot : list CanvasItem) :
  historyOK cl ->
  Z.of_nat (List.length (historyAfterSave cl snapshot)) = (historyIndex cl + 2)%Z.
Proof.
  intros Hok. rewrite historyAfterSave_firstn by assumption.
  rewrite length_app, length_firstn. unfold historyOK in Hok. cbn. lia.
Qed.

Lemma historyAfterSave_last (cl : CanvasState) (snapshot : list CanvasItem) :
  historyOK cl ->
  lookup (historyAfterSave cl snapshot) (historyIndex cl + 1) = Some snapshot.
Proof.
  intros Hok. rewrite historyAfterSave_firstn by assumption.
  unfold historyOK in Hok. unfold lookup.
  destruct (Z.ltb_spec (historyIndex cl + 1) 0); [lia|].
  rewrite nth_error_app2; rewrite length_firstn.
  - replace (Z.to_nat (historyIndex cl + 1)
             - Nat.min (Z.to_nat (historyIndex cl + 1)) (List.length (history cl)))%nat
      with 0%nat by lia.
    reflexivity.
  - lia.
Qed.

Lemma historyAfterSave_before (cl : CanvasState) (snapshot : list CanvasItem) (i : Z) :
  historyOK cl -> (0 <= i <= historyIndex cl)%Z ->
  lookup (historyAfterSave cl snapshot) i = lookup (history cl) i.
Proof.
  intros Hok Hi. rewrite historyAfterSave_firstn by assumption.
  unfold historyOK in Hok. unfold lookup.
  destruct (Z.ltb_spec i 0); [lia|].
  rewrite nth_error_app1 by (rewrite length_firstn; lia).
  rewrite nth_error_firstn.
  destruct (Nat.ltb_spec (Z.to_nat i) (Z.to_nat (historyIndex cl + 1))); [reflexivity | lia].
Qed.

Lemma run_saveToHistory_frame (cl st : CanvasState) (snapshot : list CanvasItem) :
  items (run st (saveToHistory cl snapshot)) = items st
  /\ activeItem (run st (saveToHistory cl snapshot)) = activeItem st.
Proof.
  unfold saveToHistory.
  destruct (historyIndex cl <? _)%Z; destruct st; cbn; auto.
Qed.

Lemma run_saveToHistory_history (cl st : CanvasState) (snapshot : list CanvasItem) :
  history st = history cl -> historyIndex st = historyIndex cl ->
  history (run st (saveToHistory cl snapshot)) = historyAfterSave cl snapshot
  /\ historyIndex (run st (saveToHistory cl snapshot)) = (historyIndex cl + 1)%Z.
Proof.
  intros Hh Hi. unfold saveToHistory, historyAfterSave.
  destruct (historyIndex cl <? _)%Z; destruct st; cbn in *; subst; auto.
Qed.

(** ** A run of the [selectedNFTs] effect *)

Lemma processSelectedNFTs_addEach (selectedNFTs : list NFT)
  (fresh : nat -> string * (Q * Q)) (cl : CanvasState) :
  processSelectedNFTs selectedNFTs fresh cl = addEach fresh 0%nat (newNFTs cl selectedNFTs) cl.
Proof. destruct selectedNFTs; reflexivity. Qed.

Lemma addNFT_updates (fresh : nat -> string * (Q * Q)) (cl : CanvasState) (k : nat)
  (a : NFT) :
  addNFT (fst (fresh k)) (snd (fresh k)) a cl
  = [SetItems (addedItems fresh cl k a); SetActiveItem (Some (fst (fresh k)))]
    ++ saveToHistory cl (addedItems fresh cl k a).
Proof. reflexivity. Qed.



(** What a handler that saves once leaves in the history, and which list it
    snapshots. *)
Lemma perform_commits_once (m : Mutation) (st : CanvasState) :
  saves m st = 1%nat ->
  exists snapshot,
    history (perform m st) = historyAfterSave st snapshot
    /\ historyIndex (perform m st) = (historyIndex st + 1)%Z
    /\ (savesNewItems m = true -> snapshot = items (perform m st)).
Proof.
  destruct m as [selectedNFTs fresh|target| |nftsToAdd shuffledNFTs minCount genId
                 |dx dy|delta|cx cy cw ch|listenerItems].
  { cbn [saves]. intros Hone. unfold perform, dispatch.
    rewrite processSelectedNFTs_addEach.
    destruct (newNFTs st selectedNFTs) as [|a [|b more]]; try discriminate.
    cbn [addEach]. rewrite app_nil_r, addNFT_updates, run_app.
    destruct (run_saveToHistory_frame st
                (run st [SetItems (addedItems fresh st 0%nat a);
                         SetActiveItem (Some (fst (fresh 0%nat)))])
                (addedItems fresh st 0%nat a)) as [Hit _].
    destruct (run_saveToHistory_history st
                (run st [SetItems (addedItems fresh st 0%nat a);
                         SetActiveItem (Some (fst (fresh 0%nat)))])
                (addedItems fresh st 0%nat a)) as [Hh Hi];
      [destruct st; reflexivity | destruct st; reflexivity|].
    exists (addedItems fresh st 0%nat a). rewrite Hh, Hi, Hit.
    split; [reflexivity|]. split; [reflexivity|]. intros _. destruct st; reflexivity. }
  all: intros Hs;
       match type of Hs with saves ?m _ = _ =>
         assert (Hc : commits m st = true)
           by (unfold saves in Hs; destruct (commits m st); [reflexivity | discriminate])
       end;
       clear Hs;
       destruct st as [its cols act snap hist idx drag rsz dir start init];
       cbn in Hc.
  all: unfold perform, dispatch, removeItem, clearCanvas, addMultipleNFTs,
         moveActiveItem, resizeActiveItem, updateCrop, handleMouseUp,
         saveToHistory, historyAfterSave;
       cbn [items history historyIndex activeItem isDragging isResizing applyUpdate].
  all: try (destruct nftsToAdd as [|dflt others]; [discriminate|]).
  all: try rewrite Hc; cbn [negb].
  all: repeat rewrite run_app.
  all: destruct (idx <? Z.of_nat (List.length hist) - 1)%Z.
  all: try (destruct act as [a|]; [destruct (String.eqb a target)|]).
  all: cbn; eexists; repeat split; intros; try reflexivity; try discriminate.
Qed.


Lemma undo_some (st : CanvasState) :
  historyOK st ->
  exists st', dispatchOpt undo st = Some st'
              /\ history st' = history st
              /\ (historyIndex st' = historyIndex st - 1 \/ historyIndex st' = historyIndex st)%Z
              /\ historyOK st'.
Proof.
  unfold historyOK, dispatchOpt, undo. intros Hok.
  rewrite Z.gtb_ltb. destruct (Z.ltb_spec 0 (historyIndex st)).
  - destruct (lookup (history st) (historyIndex st - 1)) as [snapshot|] eqn:Hl.
    + cbn [option_map]. eexists; split; [reflexivity|].
      destruct (run_undo_updates st snapshot (-1)) as (_ & Hh & Hi).
      rewrite Hh, Hi. repeat split; auto; lia.
    + unfold lookup in Hl. destruct (Z.ltb_spec (historyIndex st - 1) 0); [lia|].
      apply nth_error_None in Hl. lia.
  - cbn. eexists; repeat split; auto; lia.
Qed.




(** C2, as amended: on a canvas whose current history entry is the live item
    list, after a mutation that commits, once, the list it stores (remove,
    clear, bulk add, and a run of the [selectedNFTs] effect that adds one
    NFT), undo brings back the item list from before the mutation and redo
    after that undo brings back the list from after it. *)
Theorem undo_redo_after_commit (st : CanvasState) (m : Mutation) :
  historySynced st ->
  saves m st = 1%nat ->
  savesNewItems m = true ->
  exists st1 st2,
    dispatchOpt undo (perform m st) = Some st1
    /\ items st1 = items st
    /\ dispatchOpt redo st1 = Some st2
    /\ items st2 = items (perform m st).
Proof.
  intros Hs Hc Hn.
  destruct (perform_commits_once m st Hc) as (snapshot & Hh & Hi & Hsnap).
  specialize (Hsnap Hn).
  pose proof (lookup_Some_range _ _ _ Hs) as Hr.
  assert (Hok : historyOK st) by (unfold historyOK; lia).
  assert (Hu : undo (perform m st) = Some [AddHistoryIndex (-1); SetItems (items st)]).
  { unfold undo. rewrite Hh, Hi, Z.gtb_ltb.
    destruct (Z.ltb_spec 0 (historyIndex st + 1)); [|lia].
    replace (historyIndex st + 1 - 1)%Z with (historyIndex st) by lia.
    rewrite historyAfterSave_before by (auto; lia).
    unfold historySynced in Hs. rewrite Hs. reflexivity. }
  destruct (run_undo_updates (perform m st) (items st) (-1)) as (Ui & Uh & Ux).
  set (st1 := run (perform m st) [AddHistoryIndex (-1); SetItems (items st)]) in *.
  assert (Hr1 : redo st1 = Some [AddHistoryIndex 1; SetItems snapshot]).
  { unfold redo. rewrite Uh, Ux, Hh, Hi.
    rewrite (historyAfterSave_length st snapshot Hok).
    destruct (Z.ltb_spec (historyIndex st + 1 + -1) (historyIndex st + 2 - 1)); [|lia].
    replace (historyIndex st + 1 + -1 + 1)%Z with (historyIndex st + 1)%Z by lia.
    rewrite historyAfterSave_last by assumption. reflexivity. }
  exists st1, (run st1 [AddHistoryIndex 1; SetItems snapshot]).
  unfold dispatchOpt. rewrite Hu, Hr1. cbn [option_map]. fold st1.
  repeat split; auto.
  destruct (run_undo_updates st1 snapshot 1) as (Ri & _ & _).
  rewrite Ri. assumption.
Qed.

Lemma undo_redo_after_commit_witness :
  exists st1 st2,
    dispatchOpt undo (perform (Add [imageNFT "a"; imageNFT "b"] (sampleFreshFrom 1))
                              clickedA) = Some st1
    /\ items st1 = items clickedA
    /\ dispatchOpt redo st1 = Some st2
    /\ items st2
       = items (perform (Add [imageNFT "a"; imageNFT "b"] (sampleFreshFrom 1)) clickedA).
Proof.
  apply (undo_redo_after_commit clickedA
           (Add [imageNFT "a"; imageNFT "b"] (sampleFreshFrom 1))); reflexivity.
Defined.

(** C2 as stated fails in four ways.  The first mutation of a session
    cannot be undone: the empty canvas was never snapshotted and undo stops
    at index 0.  After a nudge, undo followed by redo shows the list from
    before the nudge, which is what the nudge handler saved.  Once a nudge
    has left the history behind the canvas, undoing the next mutation (here
    a clear) brings back the list from before the nudge.  And when an added
    NFT was undone, the next click in the NFT list makes the effect add two
    NFTs in one run (the undone one is still selected): every [addNFT] of
    the run cuts the history again and raises the index, which ends past the
    end of the history, and undo stores the list from after the mutation. *)
Lemma undo_redo_counterexample :
  (commits (Add [imageNFT "a"] sampleFresh) initialState = true
   /\ exists st1,
        dispatchOpt undo (perform (Add [imageNFT "a"] sampleFresh) initialState)
        = Some st1
        /\ List.length (items st1) = 1%nat
        /\ items st1 <> items initialState)
  /\ (historySynced (oneTile (tile "a" 0 0 20))
      /\ commits (MoveNudge 10 0) (oneTile (tile "a" 0 0 20)) = true
      /\ exists st1 st2 moved,
           dispatchOpt undo (perform (MoveNudge 10 0) (oneTile (tile "a" 0 0 20)))
           = Some st1
           /\ dispatchOpt redo st1 = Some st2
           /\ items (perform (MoveNudge 10 0) (oneTile (tile "a" 0 0 20))) = [moved]
           /\ x moved == 10
           /\ items st2 = [tile "a" 0 0 20]
           /\ items st2
              <> items (perform (MoveNudge 10 0) (oneTile (tile "a" 0 0 20))))
  /\ (let nudged := perform (MoveNudge 10 0) (oneTile (tile "a" 0 0 20)) in
      (0 <= historyIndex nudged)%Z
      /\ commits Clear nudged = true
      /\ exists st1,
           dispatchOpt undo (perform Clear nudged) = Some st1
           /\ items st1 = [tile "a" 0 0 20]
           /\ items st1 <> items nudged)
  /\ (let third := Add [imageNFT "a"; imageNFT "b"; imageNFT "c"] (sampleFreshFrom 2) in
      dispatchOpt undo clickedAB = Some undoneB
      /\ historySynced undoneB
      /\ List.length (items undoneB) = 1%nat
      /\ commits third undoneB = true
      /\ saves third undoneB = 2%nat
      /\ List.length (history (perform third undoneB)) = 2%nat
      /\ historyIndex (perform third undoneB) = 2%Z
      /\ exists st1,
           dispatchOpt undo (perform third undoneB) = Some st1
           /\ items st1 = items (perform third undoneB)
           /\ items st1 <> items undoneB).
Proof.
  split; [|split; [|split]].
  - split; [reflexivity|]. eexists. split; [reflexivity|].
    split; [reflexivity | discriminate].
  - split; [reflexivity|]. split; [reflexivity|].
    eexists. eexists. eexists. split; [reflexivity|]. split; [reflexivity|].
    split; [reflexivity|]. split; [vm_compute; reflexivity|].
    split; [reflexivity|].
    intros Heq. apply (f_equal (map x)) in Heq. vm_compute in Heq. discriminate.
  - cbn zeta. split; [vm_compute; discriminate|]. split; [reflexivity|].
    eexists. split; [reflexivity|]. split; [reflexivity|].
    intros Heq. apply (f_equal (map x)) in Heq. vm_compute in Heq. discriminate.
  - cbn zeta. split; [reflexivity|]. split; [reflexivity|]. split; [reflexivity|].
    split; [reflexivity|]. split; [reflexivity|]. split; [reflexivity|].
    split; [reflexivity|].
    eexists. split; [reflexivity|]. split; [reflexivity|].
    intros Heq. apply (f_equal (@List.length CanvasItem)) in Heq.
    vm_compute in Heq. discriminate.
Qed.

(** ** Geometry *)

Lemma map_active_In (st : CanvasState) (f : CanvasItem -> CanvasItem)
  (l : list CanvasItem) (item : CanvasItem) :
  In item (map (fun old => if isActive st old then f old else old) l) ->
  In item l \/ exists old, In old l /\ isActive st old = true /\ item = f old.
Proof.
  rewrite in_map_iff. intros (old & Heq & Hin).
  destruct (isActive st old) eqn:Ha.
  - right. exists old. auto.
  - left. subst. assumption.
Qed.

Lemma clamp_low (hi v : Q) : 0 <= Math_max 0 (Math_min hi v).
Proof. unfold Math_max. apply Q.le_max_l. Qed.

Lemma clamp_high (hi v : Q) : 0 <= hi -> Math_max 0 (Math_min hi v) <= hi.
Proof.
  intros Hhi. unfold Math_max, Math_min. apply Q.max_lub; [assumption|].
  apply Q.le_min_l.
Qed.

(** A pointer drag keeps a tile that is no wider than the canvas inside it,
    with or without snapping. *)
Lemma dragItem_inBounds (cl : CanvasState) (init item : CanvasItem) (deltaX deltaY : Q) :
  size item <= 100 -> inBounds (dragItem cl init item deltaX deltaY).
Proof.
  intros Hsize. unfold inBounds, dragItem. cbn [x y size withPosition].
  assert (Hhi : 0 <= 100 - size item) by lra.
  repeat split; try apply clamp_low.
  - match goal with |- ?a + _ <= _ => assert (a <= 100 - size item) by
      (apply clamp_high; assumption) end. lra.
  - match goal with |- ?a + _ <= _ => assert (a <= 100 - size item) by
      (apply clamp_high; assumption) end. lra.
Qed.

(** A pointer resize leaves the four bounds satisfied, from any handle. *)
Lemma resizeItem_inBounds (cl : CanvasState) (init item : CanvasItem)
  (d : ResizeDirection) (deltaX deltaY : Q) :
  inBounds (resizeItem cl init item d deltaX deltaY).
Proof.
  unfold inBounds, resizeItem.
  destruct (if includes_e d then _ else _) as [[newX newY] newSize].
  cbn [x y size withGeometry]. unfold Math_min3, Math_max.
  set (fx := Qmax 0 _). set (fy := Qmax 0 _). set (fs := Qmax (cellSize cl) _).
  set (gs := if snapToGrid cl then _ else fs).
  assert (0 <= fx) by apply Q.le_max_l.
  assert (0 <= fy) by apply Q.le_max_l.
  assert (Qmin (Qmin (100 - fx) (100 - fy)) gs <= Qmin (100 - fx) (100 - fy))
    by apply Q.le_min_l.
  assert (Qmin (100 - fx) (100 - fy) <= 100 - fx) by apply Q.le_min_l.
  assert (Qmin (100 - fx) (100 - fy) <= 100 - fy) by apply Q.le_min_r.
  repeat split; try assumption; lra.
Qed.

(** Every pointer move of a drag or a resize gesture keeps all tiles inside
    the canvas, whatever closure the listener holds. *)
Lemma handleMouseMove_inBounds (current : Q * Q) (cl st : CanvasState) :
  Forall inBounds (items st) ->
  Forall inBounds (items (run st (handleMouseMove current cl))).
Proof.
  intros Hall. unfold handleMouseMove.
  destruct ((negb (isDragging cl) && negb (isResizing cl))
            || negb (truthy (activeItem cl))); [exact Hall|].
  destruct (initialItemState cl) as [init|]; [|exact Hall].
  destruct (isDragging cl).
  - destruct st; cbn in *. rewrite Forall_forall in *. intros item Hin.
    apply map_active_In in Hin. destruct Hin as [Hin | (old & Hin & _ & ->)]; auto.
    apply dragItem_inBounds. specialize (Hall old Hin).
    unfold inBounds in Hall. lra.
  - destruct (isResizing cl); [|exact Hall].
    destruct (resizeDirection cl) as [d|]; [|exact Hall].
    destruct st; cbn in *. rewrite Forall_forall in *. intros item Hin.
    apply map_active_In in Hin. destruct Hin as [Hin | (old & Hin & _ & ->)]; auto.
    apply resizeItem_inBounds.
Qed.

(** C1: the nudge handler clamps first and snaps afterwards.  On a
    ten-column grid a tile of size 25 that sits at x = 75, inside the canvas,
    is moved by one nudge to x = 80, so that x + size = 105. *)
Theorem moveActiveItem_snap_leaves_bounds :
  inBounds (tile "a" 75 0 25)
  /\ exists moved,
       items (dispatch (moveActiveItem 10 0) (oneTile (tile "a" 75 0 25))) = [moved]
       /\ x moved == 80
       /\ size moved == 25
       /\ ~ inBounds moved.
Proof.
  split.
  - unfold inBounds. cbn. repeat split; lra.
  - eexists. split; [reflexivity|]. split; [vm_compute; reflexivity|].
    split; [reflexivity|].
    unfold inBounds. intros (_ & _ & Hx & _). vm_compute in Hx. apply Hx. reflexivity.
Qed.

(** The size nudge has the same order of clamp and snap: the same tile grows
    to size 30 at x = 75. *)
Lemma resizeActiveItem_snap_leaves_bounds :
  exists grown,
    items (dispatch (resizeActiveItem 10) (oneTile (tile "a" 75 0 25))) = [grown]
    /\ x grown == 75
    /\ size grown == 30
    /\ ~ inBounds grown.
Proof.
  eexists. split; [reflexivity|]. split; [reflexivity|].
  split; [vm_compute; reflexivity|].
  unfold inBounds. intros (_ & _ & Hx & _). vm_compute in Hx. apply Hx. reflexivity.
Qed.

(** Without snapping the position nudge keeps the tile inside the canvas. *)
Lemma nudgeItem_inBounds_unsnapped (cl : CanvasState) (item : CanvasItem) (dx dy : Q) :
  snapToGrid cl = false -> size item <= 100 -> inBounds (nudgeItem cl item dx dy).
Proof.
  intros Hsnap Hsize. unfold inBounds, nudgeItem. rewrite Hsnap.
  cbn [x y size withPosition].
  assert (Hhi : 0 <= 100 - size item) by lra.
  repeat split; try apply clamp_low.
  - match goal with |- ?a + _ <= _ => assert (a <= 100 - size item) by
      (apply clamp_high; assumption) end. lra.
  - match goal with |- ?a + _ <= _ => assert (a <= 100 - size item) by
      (apply clamp_high; assumption) end. lra.
Qed.

(** ** Resize handles *)

(** C6, as amended: for a corner handle the effective delta is the greater
    of the two direction-adjusted axis deltas, that is of the deltas its
    horizontal and its vertical edge handle would use; it is the one of
    larger magnitude when neither of the two is negative. *)
Theorem effectiveDelta_corner (d : ResizeDirection) (deltaX deltaY : Q) :
  isCorner d = true ->
  effectiveDelta d deltaX deltaY
  = Qmax (effectiveDelta (horizontalPart d) deltaX deltaY)
         (effectiveDelta (verticalPart d) deltaX deltaY)
  /\ effectiveDelta (horizontalPart d) deltaX deltaY <= effectiveDelta d deltaX deltaY
  /\ effectiveDelta (verticalPart d) deltaX deltaY <= effectiveDelta d deltaX deltaY
  /\ (0 <= effectiveDelta (horizontalPart d) deltaX deltaY ->
      0 <= effectiveDelta (verticalPart d) deltaX deltaY ->
      Qabs (effectiveDelta d deltaX deltaY)
      == Qmax (Qabs (effectiveDelta (horizontalPart d) deltaX deltaY))
              (Qabs (effectiveDelta (verticalPart d) deltaX deltaY))).
Proof.
  intros Hc.
  assert (Heq : effectiveDelta d deltaX deltaY
                = Qmax (effectiveDelta (horizontalPart d) deltaX deltaY)
                       (effectiveDelta (verticalPart d) deltaX deltaY))
    by (destruct d; try discriminate; reflexivity).
  rewrite Heq.
  set (h := effectiveDelta (horizontalPart d) deltaX deltaY).
  set (v := effectiveDelta (verticalPart d) deltaX deltaY).
  split; [reflexivity|]. split; [apply Q.le_max_l|]. split; [apply Q.le_max_r|].
  intros Hh Hv.
  rewrite (Qabs_pos h), (Qabs_pos v) by assumption.
  apply Qabs_pos. apply Qle_trans with h; [assumption | apply Q.le_max_l].
Qed.

Lemma effectiveDelta_corner_witness :
  effectiveDelta Dir.nw (-5) 3
  = Qmax (effectiveDelta (horizontalPart Dir.nw) (-5) 3)
         (effectiveDelta (verticalPart Dir.nw) (-5) 3)
  /\ effectiveDelta (horizontalPart Dir.nw) (-5) 3 <= effectiveDelta Dir.nw (-5) 3
  /\ effectiveDelta (verticalPart Dir.nw) (-5) 3 <= effectiveDelta Dir.nw (-5) 3
  /\ (0 <= effectiveDelta (horizontalPart Dir.nw) (-5) 3 ->
      0 <= effectiveDelta (verticalPart Dir.nw) (-5) 3 ->
      Qabs (effectiveDelta Dir.nw (-5) 3)
      == Qmax (Qabs (effectiveDelta (horizontalPart Dir.nw) (-5) 3))
              (Qabs (effectiveDelta (verticalPart Dir.nw) (-5) 3))).
Proof.
  apply (effectiveDelta_corner Dir.nw (-5) 3). reflexivity.
Defined.

(** C6 as stated fails: dragging the [se] handle by (-30, -10) gives the
    effective delta -10, while the adjusted delta of larger magnitude is
    -30. *)
Lemma effectiveDelta_not_larger_magnitude :
  isCorner Dir.se = true
  /\ effectiveDelta (horizontalPart Dir.se) (-30) (-10) == -30
  /\ effectiveDelta (verticalPart Dir.se) (-30) (-10) == -10
  /\ effectiveDelta Dir.se (-30) (-10) == -10
  /\ ~ Qabs (effectiveDelta Dir.se (-30) (-10))
       == Qmax (Qabs (effectiveDelta (horizontalPart Dir.se) (-30) (-10)))
               (Qabs (effectiveDelta (verticalPart Dir.se) (-30) (-10))).
Proof.
  repeat split; try reflexivity.
  vm_compute. discriminate.
Qed.

(** C5: on a ten-column grid a tile at x = 20 of size 20 is resized from its
    [w] handle by a pointer that travels 30 to the right, past the east edge
    at 40.  The size is held at one cell, but x was computed from the
    unclamped size: the tile lands at x = 50 and its east edge at 60. *)
Theorem resize_w_below_minimum_moves_east_edge :
  let before := tile "a" 20 0 20 in
  let st := resizing before Dir.w (20, 10) in
  size before + effectiveDelta Dir.w (50 - 20) (10 - 10) <= 0
  /\ exists after,
       items (run st (handleMouseMove (50, 10) st)) = [after]
       /\ size after == cellSize st
       /\ x before + size before == 40
       /\ x after == 50
       /\ x after + size after == 60.
Proof.
  cbn zeta. split.
  - vm_compute. discriminate.
  - eexists. split; [reflexivity|].
    repeat split; vm_compute; reflexivity.
Qed.

(** The same at any scale when snapping is off: once the [w] handle asks for
    a size of zero or less, the east edge of the result lies one cell or
    more to the right of where it was. *)
Lemma resizeItem_w_east_edge (cl : CanvasState) (init item : CanvasItem) (deltaX deltaY : Q) :
  snapToGrid cl = false ->
  0 <= x init -> 0 <= y init -> 0 <= size init ->
  size init + effectiveDelta Dir.w deltaX deltaY <= 0 ->
  x init + size init - (size init + effectiveDelta Dir.w deltaX deltaY)
    <= 100 - cellSize cl ->
  y init <= 100 - cellSize cl ->
  x init + size init + cellSize cl
  <= x (resizeItem cl init item Dir.w deltaX deltaY)
     + size (resizeItem cl init item Dir.w deltaX deltaY).
Proof.
  intros Hsnap Hx Hy Hs Hraw Hroom Hyroom.
  unfold resizeItem. cbn [includes_e includes_w]. rewrite Hsnap.
  cbn [x y size withGeometry]. unfold Math_min3, Math_max.
  set (raw := size init + effectiveDelta Dir.w deltaX deltaY) in *.
  set (fx := Qmax 0 (x init + size init - raw)).
  set (fy := Qmax 0 (y init)).
  set (fs := Qmax (cellSize cl) raw).
  assert (Hfx : fx == x init + size init - raw) by (apply Q.max_r; lra).
  assert (Hfy : fy == y init) by (apply Q.max_r; lra).
  assert (Hfs : cellSize cl <= fs) by apply Q.le_max_l.
  assert (Hmin : cellSize cl <= Qmin (Qmin (100 - fx) (100 - fy)) fs).
  { apply Q.min_glb; [apply Q.min_glb|]; lra. }
  lra.
Qed.

(** ** Crop *)

Lemma cropItem_bounds (item : CanvasItem) (cx cy cw ch : Q) :
  let stored := cropItem item cx cy cw ch in
  (0 <= cropX stored <= 100)
  /\ (0 <= cropY stored <= 100)
  /\ 10 <= cropWidth stored
  /\ 10 <= cropHeight stored
  /\ (0 <= cx <= 90 -> cropX stored + cropWidth stored <= 100)
  /\ (0 <= cy <= 90 -> cropY stored + cropHeight stored <= 100).
Proof.
  cbn zeta. unfold cropItem. cbn [cropX cropY cropWidth cropHeight withCrop].
  unfold Math_max, Math_min.
  assert (Hclamp : forall v, 0 <= Qmax 0 (Qmin 100 v) <= 100).
  { intros v. split; [apply Q.le_max_l|].
    apply Q.max_lub; [lra | apply Q.le_min_l]. }
  assert (Hsum : forall c v, 0 <= c <= 90 ->
            Qmax 0 (Qmin 100 c) + Qmax 10 (Qmin (100 - c) v) <= 100).
  { intros c v Hc.
    assert (Qmax 0 (Qmin 100 c) == c).
    { rewrite Q.min_r by lra. apply Q.max_r. lra. }
    assert (Qmax 10 (Qmin (100 - c) v) <= 100 - c).
    { apply Q.max_lub; [lra | apply Q.le_min_l]. }
    lra. }
  repeat split; try apply Hclamp; try apply Q.le_max_l; auto.
Qed.

(** C4, as amended: for the active item [updateCrop] stores a crop whose x
    and y lie in [0, 100] and whose width and height are at least 10; x +
    width is at most 100 when the requested x lies in [0, 90], and y + height
    is at most 100 when the requested y lies in [0, 90]; a call with x = 90
    and width = 50 stores width 10. *)
Theorem updateCrop_bounds (cx cy cw ch : Q) (st : CanvasState) (old : CanvasItem) :
  truthy (activeItem st) = true ->
  In old (items st) ->
  isActive st old = true ->
  let stored := cropItem old cx cy cw ch in
  In stored (items (dispatch (updateCrop cx cy cw ch) st))
  /\ (0 <= cropX stored <= 100)
  /\ (0 <= cropY stored <= 100)
  /\ 10 <= cropWidth stored
  /\ 10 <= cropHeight stored
  /\ (0 <= cx <= 90 -> cropX stored + cropWidth stored <= 100)
  /\ (0 <= cy <= 90 -> cropY stored + cropHeight stored <= 100)
  /\ (cx == 90 -> cw == 50 -> cropWidth stored == 10).
Proof.
  intros Hact Hin Hold. cbn zeta.
  split.
  - unfold dispatch, updateCrop. rewrite Hact. cbn [negb]. rewrite run_app.
    assert (Hitems : forall st' snapshot,
              items (run st' (saveToHistory st snapshot)) = items st').
    { intros st' snapshot. unfold saveToHistory.
      destruct (historyIndex st <? _)%Z; destruct st'; reflexivity. }
    rewrite Hitems. destruct st; cbn in *.
    apply in_map_iff. exists old. rewrite Hold. auto.
  - pose proof (cropItem_bounds old cx cy cw ch) as Hb. cbn zeta in Hb.
    destruct Hb as (H1 & H2 & H3 & H4 & H5 & H6).
    repeat split; try tauto.
    intros Hcx Hcw. unfold cropItem. cbn [cropWidth withCrop].
    unfold Math_max, Math_min.
    rewrite Q.min_l by lra. apply Q.max_l. lra.
Qed.

Lemma updateCrop_bounds_witness :
  let stored := cropItem (tile "a" 0 0 20) 90 0 50 100 in
  In stored (items (dispatch (updateCrop 90 0 50 100) (oneTile (tile "a" 0 0 20))))
  /\ (0 <= cropX stored <= 100)
  /\ (0 <= cropY stored <= 100)
  /\ 10 <= cropWidth stored
  /\ 10 <= cropHeight stored
  /\ (0 <= 90 <= 90 -> cropX stored + cropWidth stored <= 100)
  /\ (0 <= 0 <= 90 -> cropY stored + cropHeight stored <= 100)
  /\ (90 == 90 -> 50 == 50 -> cropWidth stored == 10).
Proof.
  apply (updateCrop_bounds 90 0 50 100 (oneTile (tile "a" 0 0 20)) (tile "a" 0 0 20)).
  - reflexivity.
  - cbn. left. reflexivity.
  - reflexivity.
Defined.

(** C4 as stated fails: a call with x = 95 and width = 50 stores x = 95 and
    width = 10, so that x + width = 105. *)
Lemma updateCrop_exceeds_image :
  exists stored,
    items (dispatch (updateCrop 95 0 50 100) (oneTile (tile "a" 0 0 20))) = [stored]
    /\ cropX stored == 95
    /\ cropWidth stored == 10
    /\ ~ cropX stored + cropWidth stored <= 100.
Proof.
  eexists. split; [reflexivity|].
  split; [vm_compute; reflexivity|]. split; [vm_compute; reflexivity|].
  vm_compute. intros H. apply H. reflexivity.
Qed.

(** ** Empty-slot search *)

Lemma cellSize_pos (st : CanvasState) : 0 < cellSize st.
Proof.
  unfold cellSize. apply Qlt_shift_div_l.
  - unfold Qlt. cbn. lia.
  - lra.
Qed.

(** [Math.floor(100 / cellSize)] is the column count. *)
Lemma gridSize_columns (st : CanvasState) :
  Math_floor (100 / cellSize st) = Z.pos (gridColumns st).
Proof.
  unfold Math_floor.
  assert (Heq : 100 / cellSize st == inject_Z (Z.pos (gridColumns st))).
  { unfold cellSize. field. unfold Qeq. cbn. lia. }
  rewrite (Qfloor_comp _ _ Heq). apply Qfloor_Z.
Qed.

(** [Math.ceil(defaultSize / cellSize)] is 2. *)
Lemma defaultSpan (st : CanvasState) :
  Math_ceil (cellSize st * 2 / cellSize st) = 2%Z.
Proof.
  unfold Math_ceil.
  assert (Heq : cellSize st * 2 / cellSize st == inject_Z 2).
  { pose proof (cellSize_pos st). field. lra. }
  rewrite (Qceiling_comp _ _ Heq). apply Qceiling_Z.
Qed.

Lemma range_first (k : Z) : (1 <= k)%Z -> exists rest, range k = 0%Z :: rest.
Proof.
  intros Hk. unfold range. destruct (Z.to_nat k) as [|k'] eqn:Hn; [lia|].
  cbn. eexists. reflexivity.
Qed.

Lemma findEmptyPosition_empty_canvas (st : CanvasState) (rnd : Q * Q) :
  (2 <= gridColumns st)%positive ->
  items st = [] ->
  pos_x (findEmptyPosition st rnd) == 0
  /\ pos_y (findEmptyPosition st rnd) == 0
  /\ pos_size (findEmptyPosition st rnd) == 2 * cellSize st.
Proof.
  intros Hcols Hempty. unfold findEmptyPosition, occupiedCells.
  rewrite Hempty, gridSize_columns, defaultSpan. cbn [flat_map].
  destruct (range_first (Z.pos (gridColumns st) - 2 + 1)) as (rest & Hrange); [lia|].
  rewrite Hrange. cbn [flat_map map app find row col].
  replace (forallb _ (range 2)) with true.
  - cbn [pos_x pos_y pos_size]. repeat split; ring.
  - vm_compute. reflexivity.
Qed.

(** C8: for every column count the grid selector offers, [findEmptyPosition]
    on an empty item list returns x = 0, y = 0 and size = 2 * cellSize, with
    cellSize = 100 / columns. *)
Theorem findEmptyPosition_empty (st : CanvasState) (rnd : Q * Q) :
  In (gridColumns st) gridColumnOptions ->
  items st = [] ->
  pos_x (findEmptyPosition st rnd) == 0
  /\ pos_y (findEmptyPosition st rnd) == 0
  /\ pos_size (findEmptyPosition st rnd) == 2 * cellSize st
  /\ cellSize st == 100 / inject_Z (Z.pos (gridColumns st)).
Proof.
  intros Hopt Hempty.
  assert (Hcols : (2 <= gridColumns st)%positive).
  { unfold gridColumnOptions in Hopt. cbn in Hopt.
    repeat (destruct Hopt as [<- | Hopt]; [lia|]). contradiction. }
  destruct (findEmptyPosition_empty_canvas st rnd Hcols Hempty) as (Hx & Hy & Hs).
  split; [exact Hx|]. split; [exact Hy|]. split; [exact Hs|]. reflexivity.
Qed.

Lemma findEmptyPosition_empty_witness :
  pos_x (findEmptyPosition initialState (1 # 3, 2 # 3)) == 0
  /\ pos_y (findEmptyPosition initialState (1 # 3, 2 # 3)) == 0
  /\ pos_size (findEmptyPosition initialState (1 # 3, 2 # 3)) == 2 * cellSize initialState
  /\ cellSize initialState == 100 / inject_Z (Z.pos (gridColumns initialState)).
Proof.
  apply (findEmptyPosition_empty initialState (1 # 3, 2 # 3)).
  - cbn. tauto.
  - reflexivity.
Defined.

(** ** Bulk placement *)

Lemma cell_eqb_eq (a b : Cell) : cell_eqb a b = true <-> a = b.
Proof.
  unfold cell_eqb. rewrite andb_true_iff, !Z.eqb_eq.
  destruct a, b; cbn. split.
  - intros [-> ->]. reflexivity.
  - intros Heq. inversion Heq. auto.
Qed.

Lemma disjointb_sound (l1 l2 : list Cell) (cell : Cell) :
  disjointb l1 l2 = true -> In cell l1 -> ~ In cell l2.
Proof.
  unfold disjointb. rewrite forallb_forall. intros Hd Hin1 Hin2.
  specialize (Hd cell Hin1). apply negb_true_iff in Hd.
  assert (Hex : existsb (cell_eqb cell) l2 = true).
  { apply existsb_exists. exists cell. split; [assumption|].
    apply cell_eqb_eq. reflexivity. }
  congruence.
Qed.

Lemma pairwiseDisjointb_sound (cl : CanvasState) (l : list CanvasItem) :
  pairwiseDisjointb cl l = true ->
  forall i j a b, i <> j ->
    nth_error l i = Some a -> nth_error l j = Some b ->
    forall cell, In cell (footprint cl a) -> ~ In cell (footprint cl b).
Proof.
  induction l as [|hd rest IH]; intros Hp i j a b Hij Ha Hb cell.
  - destruct i; discriminate.
  - cbn in Hp. apply andb_true_iff in Hp. destruct Hp as [Hhd Hrest].
    rewrite forallb_forall in Hhd.
    destruct i as [|i], j as [|j]; cbn in Ha, Hb.
    + congruence.
    + injection Ha as <-. apply nth_error_In in Hb.
      apply disjointb_sound. auto.
    + injection Hb as <-. apply nth_error_In in Ha.
      intros Hina Hinb. apply (disjointb_sound _ _ cell (Hhd a Ha)); assumption.
    + apply (IH Hrest i j); auto.
Qed.

Lemma placeEach_cons (cs : Q) (gridSize : Z) (genId : nat -> string)
  (tile : NFT) (rest : list NFT) (idx : Z) (p : Packing) :
  placeEach cs gridSize genId (tile :: rest) idx p
  = placeEach cs gridSize genId rest (idx + 1)
              (fst (tryPlaceNFT cs gridSize genId tile idx 3 p)).
Proof. cbn [placeEach]. destruct (is_collection_image tile); reflexivity. Qed.

Lemma tryPlaceNFT_created (genId : nat -> string) (pool : list NFT)
  (cs : Q) (gridSize : Z) (tile : NFT) (idx : Z) (k : nat) (p : Packing) :
  In tile pool ->
  Forall (newlyCreated genId pool) (newItems p) ->
  Forall (newlyCreated genId pool)
         (newItems (fst (tryPlaceNFT cs gridSize genId tile idx k p))).
Proof.
  intros Htile Hp. induction k as [|k IH]; [exact Hp|].
  cbn [tryPlaceNFT].
  destruct (find _ (availableCells p)) as [cell|]; [|exact IH].
  cbn [fst newItems]. apply Forall_app. split; [exact Hp|].
  constructor; [|constructor]. split; cbn [id nft]; eauto.
Qed.

Lemma placeEach_created (genId : nat -> string) (pool : list NFT)
  (cs : Q) (gridSize : Z) (tiles : list NFT) :
  (forall t, In t tiles -> In t pool) ->
  forall idx p,
    Forall (newlyCreated genId pool) (newItems p) ->
    Forall (newlyCreated genId pool)
           (newItems (placeEach cs gridSize genId tiles idx p)).
Proof.
  induction tiles as [|tile rest IH]; intros Hsub idx p Hp; [exact Hp|].
  rewrite placeEach_cons. apply IH.
  - intros t Ht. apply Hsub. right. exact Ht.
  - apply tryPlaceNFT_created; [|exact Hp]. apply Hsub. left. reflexivity.
Qed.

Lemma fillMinimum_created (genId : nat -> string) (pool : list NFT)
  (cs : Q) (shuffled : list NFT) (dflt : NFT) (minCount : Z) (cells : list Cell) :
  In dflt pool ->
  (forall t, In t shuffled -> In t pool) ->
  forall placed fillerIndex,
    Forall (newlyCreated genId pool) placed ->
    Forall (newlyCreated genId pool)
           (fillMinimum cs genId shuffled dflt minCount cells placed fillerIndex).
Proof.
  intros Hd Hsub. induction cells as [|cell rest IH]; intros placed fi Hp; [exact Hp|].
  cbn [fillMinimum]. destruct (_ <? minCount)%Z; [|exact Hp].
  apply IH. apply Forall_app. split; [exact Hp|].
  constructor; [|constructor]. split; cbn [id nft]; [eauto|].
  destruct (nth_in_or_default (fi mod List.length shuffled) shuffled dflt) as [Hin | ->];
    auto.
Qed.

Lemma addMultipleNFTs_result (dflt : NFT) (others shuffledNFTs : list NFT)
  (minCount : Z) (genId : nat -> string) (st : CanvasState) :
  items (dispatch (addMultipleNFTs (dflt :: others) shuffledNFTs minCount genId) st)
  = bulkPlacements st shuffledNFTs dflt minCount genId
  /\ activeItem (dispatch (addMultipleNFTs (dflt :: others) shuffledNFTs minCount genId) st)
     = None.
Proof.
  unfold dispatch, addMultipleNFTs. rewrite run_app.
  match goal with |- context [run (run st ?us) (saveToHistory st ?snapshot)] =>
    destruct (run_saveToHistory_frame st (run st us) snapshot) as [-> ->]
  end.
  destruct st; cbn. auto.
Qed.

Lemma bulkPlacements_columns (st st' : CanvasState) (shuffledNFTs : list NFT)
  (dflt : NFT) (minCount : Z) (genId : nat -> string) :
  gridColumns st = gridColumns st' ->
  bulkPlacements st shuffledNFTs dflt minCount genId
  = bulkPlacements st' shuffledNFTs dflt minCount genId.
Proof. intros Hcols. unfold bulkPlacements, cellSize. rewrite Hcols. reflexivity. Qed.

(** C10: with a non-empty input, [addMultipleNFTs] clears the selection and
    stores a list that does not depend on the items or the selection the
    canvas held before, made only of tiles it has just created from the
    input: nothing of the previous arrangement is kept. *)
Theorem addMultipleNFTs_replaces_canvas
  (nftsToAdd shuffledNFTs : list NFT) (minCount : Z) (genId : nat -> string)
  (st : CanvasState) :
  nftsToAdd <> [] ->
  Permutation nftsToAdd shuffledNFTs ->
  let st' := dispatch (addMultipleNFTs nftsToAdd shuffledNFTs minCount genId) st in
  activeItem st' = None
  /\ (forall prior active,
        items (dispatch (addMultipleNFTs nftsToAdd shuffledNFTs minCount genId)
                        (run st [SetItems prior; SetActiveItem active]))
        = items st')
  /\ (forall item, In item (items st') -> newlyCreated genId nftsToAdd item).
Proof.
  intros Hne Hperm st'. subst st'.
  destruct nftsToAdd as [|dflt others]; [congruence|].
  destruct (addMultipleNFTs_result dflt others shuffledNFTs minCount genId st)
    as [Hitems Hactive].
  split; [exact Hactive|]. split.
  - intros prior active.
    destruct (addMultipleNFTs_result dflt others shuffledNFTs minCount genId
                (run st [SetItems prior; SetActiveItem active])) as [-> _].
    rewrite Hitems. apply bulkPlacements_columns. destruct st; reflexivity.
  - rewrite Hitems. apply Forall_forall.
    assert (Hsub : forall t, In t shuffledNFTs -> In t (dflt :: others)).
    { intros t Ht. apply (Permutation_in t (Permutation_sym Hperm) Ht). }
    unfold bulkPlacements.
    match goal with |- context [placeEach ?cs ?g genId shuffledNFTs 0 ?p0] =>
      pose proof (placeEach_created genId (dflt :: others) cs g shuffledNFTs Hsub 0 p0
                    (Forall_nil _)) as Hplaced
    end.
    destruct (_ <? minCount)%Z; [|exact Hplaced].
    apply fillMinimum_created; auto. left. reflexivity.
Qed.

Lemma addMultipleNFTs_replaces_canvas_witness :
  let st' := dispatch (addMultipleNFTs fiveNFTs fiveNFTs 8 (fun _ => "nft-0"%string))
                      threeAdded in
  activeItem st' = None
  /\ (forall prior active,
        items (dispatch (addMultipleNFTs fiveNFTs fiveNFTs 8 (fun _ => "nft-0"%string))
                        (run threeAdded [SetItems prior; SetActiveItem active]))
        = items st')
  /\ (forall item, In item (items st') ->
        newlyCreated (fun _ => "nft-0"%string) fiveNFTs item).
Proof.
  apply (addMultipleNFTs_replaces_canvas fiveNFTs fiveNFTs 8 (fun _ => "nft-0"%string)
           threeAdded).
  - discriminate.
  - apply Permutation_refl.
Defined.

(** ** Reconciliation *)

Lemma addNFT_items (uniqueId : string) (rnd : Q * Q) (a : NFT) (cl st : CanvasState) :
  exists item,
    items (run st (addNFT uniqueId rnd a cl)) = items cl ++ [item] /\ nft item = a.
Proof.
  unfold addNFT. rewrite run_app.
  match goal with |- context [run (run st ?us) (saveToHistory cl ?snapshot)] =>
    destruct (run_saveToHistory_frame cl (run st us) snapshot) as [Hi _]
  end.
  eexists. rewrite Hi. split; [destruct st; reflexivity | reflexivity].
Qed.

(** However many NFTs one run of the effect adds, every [addNFT] starts from
    the items of the same render: the result is those items followed by
    tiles of new NFTs. *)
Lemma addEach_items (fresh : nat -> string * (Q * Q)) (cl : CanvasState) (pool : list NFT) :
  forall l k st,
    (forall a, In a l -> In a pool) ->
    (exists added, items st = items cl ++ added
                   /\ Forall (fun item => In (nft item) pool) added) ->
    exists added, items (run st (addEach fresh k l cl)) = items cl ++ added
                  /\ Forall (fun item => In (nft item) pool) added.
Proof.
  induction l as [|a rest IH]; intros k st Hsub Hst; [exact Hst|].
  cbn [addEach]. rewrite run_app. apply IH.
  - intros b Hb. apply Hsub. right. exact Hb.
  - destruct (addNFT_items (fst (fresh k)) (snd (fresh k)) a cl st) as (item & Hi & Hn).
    exists [item]. split; [exact Hi|].
    constructor; [|constructor]. rewrite Hn. apply Hsub. left. reflexivity.
Qed.

Lemma countKey_app (key : NFT -> string) (k : string) (l1 l2 : list CanvasItem) :
  countKey key k (l1 ++ l2) = (countKey key k l1 + countKey key k l2)%nat.
Proof. unfold countKey. rewrite filter_app, length_app. reflexivity. Qed.

Lemma countKey_none (key : NFT -> string) (k : string) (l : list CanvasItem) :
  Forall (fun item => key (nft item) <> k) l -> countKey key k l = 0%nat.
Proof.
  unfold countKey. induction 1 as [|item rest Hne _ IH]; [reflexivity|].
  cbn [filter]. destruct (String.eqb_spec (key (nft item)) k); [contradiction | exact IH].
Qed.

Lemma newNFTs_not_existing (cl : CanvasState) (selectedNFTs : list NFT) (a : NFT) :
  In a (newNFTs cl selectedNFTs) -> ~ In (nftKey a) (existingNFTs cl).
Proof.
  unfold newNFTs. rewrite filter_In. intros [_ Hnew] Hin.
  apply negb_true_iff in Hnew.
  assert (Hex : existsb (String.eqb (nftKey a)) (existingNFTs cl) = true).
  { apply existsb_exists. exists (nftKey a). split; [exact Hin | apply String.eqb_refl]. }
  congruence.
Qed.

(** C9, as amended: the key is the one the effect computes ([nftKey]: the
    contract and identifier pair, else the contract_address and token_id
    pair, else the image URL, else "unknown").  When a selection event
    carries an asset whose key already belongs to an item of the canvas, the
    event adds no item with that key, so the number of canvas items with
    that key stays what it was: one stays one. *)
Theorem processSelectedNFTs_adds_no_duplicate
  (st : CanvasState) (selectedNFTs : list NFT) (fresh : nat -> string * (Q * Q))
  (a : NFT) :
  In a selectedNFTs ->
  In (nftKey a) (existingNFTs st) ->
  let st' := dispatch (processSelectedNFTs selectedNFTs fresh) st in
  (exists added,
     items st' = items st ++ added
     /\ Forall (fun item => nftKey (nft item) <> nftKey a) added)
  /\ countKey nftKey (nftKey a) (items st') = countKey nftKey (nftKey a) (items st).
Proof.
  intros Hsel Hkey st'. subst st'.
  assert (Hadded : exists added,
            items (dispatch (processSelectedNFTs selectedNFTs fresh) st)
            = items st ++ added
            /\ Forall (fun item => In (nft item) (newNFTs st selectedNFTs)) added).
  { unfold dispatch, processSelectedNFTs.
    destruct selectedNFTs as [|b others]; [contradiction|].
    apply addEach_items; [auto|].
    exists []. rewrite app_nil_r. split; [reflexivity | constructor]. }
  destruct Hadded as (added & Hitems & Hnew).
  assert (Hother : Forall (fun item => nftKey (nft item) <> nftKey a) added).
  { rewrite Forall_forall in *. intros item Hin Heq.
    apply (newNFTs_not_existing st selectedNFTs (nft item) (Hnew item Hin)).
    rewrite Heq. exact Hkey. }
  split.
  - exists added. auto.
  - rewrite Hitems, countKey_app, (countKey_none nftKey _ added Hother). lia.
Qed.

(** The two events of the property: the first selection pushes an asset onto
    the empty canvas, the second pushes it again next to another one. *)
Lemma processSelectedNFTs_adds_no_duplicate_witness :
  let st1 := dispatch (processSelectedNFTs [imageNFT "a"] sampleFresh) initialState in
  let st2 := dispatch (processSelectedNFTs [imageNFT "a"; imageNFT "b"] sampleFresh) st1 in
  countKey nftKey (nftKey (imageNFT "a")) (items st1) = 1%nat
  /\ (exists added,
        items st2 = items st1 ++ added
        /\ Forall (fun item => nftKey (nft item) <> nftKey (imageNFT "a")) added)
  /\ countKey nftKey (nftKey (imageNFT "a")) (items st2)
     = countKey nftKey (nftKey (imageNFT "a")) (items st1).
Proof.
  split; [reflexivity|].
  apply (processSelectedNFTs_adds_no_duplicate
           (dispatch (processSelectedNFTs [imageNFT "a"] sampleFresh) initialState)
           [imageNFT "a"; imageNFT "b"] sampleFresh (imageNFT "a")).
  - left. reflexivity.
  - left. reflexivity.
Defined.

(** C9 as stated fails: with the key worded by the specification, two
    records that share an opaque id and differ in their image URL are one
    identity.  Pushed in two successive selection events, the second finds
    its key on the canvas and the effect still adds a tile for it: two items
    then carry that key. *)
Lemma processSelectedNFTs_duplicates_opaque_id :
  let st1 := dispatch (processSelectedNFTs [assetFirstUrl] sampleFresh) initialState in
  let st2 := dispatch (processSelectedNFTs [assetFirstUrl; assetSecondUrl] sampleFresh)
                      st1 in
  specIdentityKey assetSecondUrl = specIdentityKey assetFirstUrl
  /\ map (fun item => nft item) (items st1) = [assetFirstUrl]
  /\ countKey specIdentityKey (specIdentityKey assetSecondUrl) (items st1) = 1%nat
  /\ map (fun item => nft item) (items st2) = [assetFirstUrl; assetSecondUrl]
  /\ countKey specIdentityKey (specIdentityKey assetSecondUrl) (items st2) = 2%nat.
Proof. cbn zeta. repeat split. Qed.

(** The comparison by opaque id exists in the parent only: [handleSelectNFT]
    would not append the second record while the first is selected, whereas
    the effect gives the two records different keys. *)
Lemma handleSelectNFT_compares_ids :
  handleSelectNFT [assetFirstUrl] assetSecondUrl = [assetFirstUrl]
  /\ nftKey assetFirstUrl <> nftKey assetSecondUrl.
Proof. split; [reflexivity | discriminate]. Qed.

(** * Further properties of the canvas *)

(** ** History index *)

Lemma perform_skips (m : Mutation) (st : CanvasState) :
  commits m st = false ->
  history (perform m st) = history st
  /\ historyIndex (perform m st) = historyIndex st
  /\ items (perform m st) = items st.
Proof.
  destruct m as [selectedNFTs fresh| | | | | | |].
  { cbn [commits]. intros Hc. unfold perform, dispatch.
    rewrite processSelectedNFTs_addEach.
    destruct (newNFTs st selectedNFTs); [cbn; auto | discriminate]. }
  all: destruct st as [its cols act snap hist idx drag rsz dir start init].
  all: intros Hc; cbn in Hc; try discriminate.
  all: unfold perform, dispatch, addMultipleNFTs, moveActiveItem, resizeActiveItem,
         updateCrop, handleMouseUp;
       cbn [items history historyIndex activeItem isDragging isResizing applyUpdate].
  all: try (destruct nftsToAdd; [|discriminate]).
  all: try rewrite Hc; cbn; auto.
Qed.



(** In the witness the run adds "b" and "c" after the undo of "b": the
    history holds two entries and the index is 2. *)
Example perform_leaves_history :
  let after := perform (Add [imageNFT "a"; imageNFT "b"; imageNFT "c"] (sampleFreshFrom 2))
                       undoneB in
  historyIndex undoneB = 0%Z /\ List.length (history undoneB) = 2%nat
  /\ map id (items after) = ["0"; "3"]%string
  /\ historyIndex after = 2%Z /\ List.length (history after) = 2%nat
  /\ ~ historyOK after.
Proof.
  cbn zeta. split; [reflexivity|]. split; [reflexivity|]. split; [reflexivity|].
  split; [reflexivity|]. split; [reflexivity|].
  unfold historyOK. vm_compute. intros [_ Hlt]. discriminate.
Qed.

(** With three new NFTs in the run (two additions undone, then a click on a
    fourth NFT) the index ends two past the last entry, and the next undo
    reads an entry the history does not have. *)
Example perform_then_undo_reads_undefined :
  let a := imageNFT "a" in
  let b := imageNFT "b" in
  let c := imageNFT "c" in
  let d := imageNFT "d" in
  let clickedABC := perform (Add [a; b; c] (sampleFreshFrom 2)) clickedAB in
  exists undone,
    undoTimes 2 clickedABC = Some undone
    /\ historySynced undone
    /\ saves (Add [a; b; c; d] (sampleFreshFrom 3)) undone = 3%nat
    /\ dispatchOpt undo (perform (Add [a; b; c; d] (sampleFreshFrom 3)) undone) = None.
Proof.
  cbn zeta. eexists. split; [reflexivity|]. split; [reflexivity|].
  split; reflexivity.
Qed.

Lemma redo_some (st : CanvasState) :
  historyOK st ->
  exists st', dispatchOpt redo st = Some st'
              /\ history st' = history st
              /\ activeItem st' = activeItem st
              /\ (historyIndex st' = historyIndex st + 1 \/ historyIndex st' = historyIndex st)%Z
              /\ historyOK st'.
Proof.
  unfold historyOK, dispatchOpt, redo. intros Hok.
  destruct (Z.ltb_spec (historyIndex st) (Z.of_nat (List.length (history st)) - 1)).
  - destruct (lookup (history st) (historyIndex st + 1)) as [snapshot|] eqn:Hl.
    + cbn [option_map]. eexists; split; [reflexivity|].
      destruct (run_undo_updates st snapshot 1) as (_ & Hh & Hi).
      rewrite Hh, Hi. repeat split; auto; try lia. destruct st; reflexivity.
    + unfold lookup in Hl. destruct (Z.ltb_spec (historyIndex st + 1) 0); [lia|].
      apply nth_error_None in Hl. lia.
  - cbn. eexists; repeat split; auto; lia.
Qed.

(** X2: on a state whose history index is in range, undo and redo never
    read an undefined history entry; they leave the history list and the
    selection as they are and keep the index in range. *)
Theorem undo_redo_total (st : CanvasState) :
  historyOK st ->
  exists st1 st2,
    dispatchOpt undo st = Some st1
    /\ dispatchOpt redo st = Some st2
    /\ history st1 = history st /\ history st2 = history st
    /\ activeItem st1 = activeItem st /\ activeItem st2 = activeItem st
    /\ historyOK st1 /\ historyOK st2.
Proof.
  intros Hok.
  destruct (undo_some st Hok) as (st1 & Hu & Hh1 & _ & Hok1).
  destruct (redo_some st Hok) as (st2 & Hr & Hh2 & Ha2 & _ & Hok2).
  assert (Ha1 : activeItem st1 = activeItem st).
  { unfold dispatchOpt, undo in Hu.
    destruct (historyIndex st >? 0)%Z.
    - destruct (lookup (history st) (historyIndex st - 1)); [|discriminate].
      injection Hu as <-. destruct st; reflexivity.
    - injection Hu as <-. reflexivity. }
  exists st1, st2. tauto.
Qed.

Lemma undo_redo_total_witness :
  exists st1 st2,
    dispatchOpt undo threeAdded = Some st1
    /\ dispatchOpt redo threeAdded = Some st2
    /\ history st1 = history threeAdded /\ history st2 = history threeAdded
    /\ activeItem st1 = activeItem threeAdded /\ activeItem st2 = activeItem threeAdded
    /\ historyOK st1 /\ historyOK st2.
Proof.
  apply (undo_redo_total threeAdded). unfold historyOK. cbn. lia.
Defined.

(** X3: when the current history entry is the live item list and there is
    an earlier entry, undo followed by redo gives back the same item list,
    the same index and the same history. *)
Theorem undo_then_redo (st : CanvasState) :
  historySynced st ->
  (0 < historyIndex st)%Z ->
  exists st1 st2,
    dispatchOpt undo st = Some st1
    /\ lookup (history st) (historyIndex st - 1) = Some (items st1)
    /\ dispatchOpt redo st1 = Some st2
    /\ items st2 = items st
    /\ historyIndex st2 = historyIndex st
    /\ history st2 = history st.
Proof.
  intros Hs Hpos. pose proof (lookup_Some_range _ _ _ Hs) as Hr.
  destruct (lookup (history st) (historyIndex st - 1)) as [previous|] eqn:Hl.
  - assert (Hu : undo st = Some [AddHistoryIndex (-1); SetItems previous]).
    { unfold undo. rewrite Z.gtb_ltb.
      destruct (Z.ltb_spec 0 (historyIndex st)); [|lia]. rewrite Hl. reflexivity. }
    destruct (run_undo_updates st previous (-1)) as (Ui & Uh & Ux).
    set (st1 := run st [AddHistoryIndex (-1); SetItems previous]) in *.
    assert (Hr1 : redo st1 = Some [AddHistoryIndex 1; SetItems (items st)]).
    { unfold redo. rewrite Uh, Ux.
      destruct (Z.ltb_spec (historyIndex st + -1) (Z.of_nat (List.length (history st)) - 1));
        [|lia].
      replace (historyIndex st + -1 + 1)%Z with (historyIndex st) by lia.
      unfold historySynced in Hs. rewrite Hs. reflexivity. }
    destruct (run_undo_updates st1 (items st) 1) as (Ri & Rh & Rx).
    exists st1, (run st1 [AddHistoryIndex 1; SetItems (items st)]).
    unfold dispatchOpt. rewrite Hu, Hr1. cbn [option_map]. fold st1.
    rewrite Ri, Rh, Rx, Uh, Ux, Ui. repeat split; auto. lia.
  - unfold lookup in Hl. destruct (Z.ltb_spec (historyIndex st - 1) 0); [lia|].
    apply nth_error_None in Hl. lia.
Qed.

Lemma undo_then_redo_witness :
  exists st1 st2,
    dispatchOpt undo threeAdded = Some st1
    /\ lookup (history threeAdded) (historyIndex threeAdded - 1) = Some (items st1)
    /\ dispatchOpt redo st1 = Some st2
    /\ items st2 = items threeAdded
    /\ historyIndex st2 = historyIndex threeAdded
    /\ history st2 = history threeAdded.
Proof.
  apply (undo_then_redo threeAdded).
  - reflexivity.
  - cbn. lia.
Defined.

(** ** Selection *)

Lemma maxZIndex_bound (l : list CanvasItem) :
  (0 <= maxZIndex l)%Z /\ forall item, In item l -> (zIndex item <= maxZIndex l)%Z.
Proof.
  induction l as [|hd rest [IH0 IH]]; cbn [maxZIndex fold_right].
  - split; [lia | intros item []].
  - fold (maxZIndex rest). split; [lia|].
    intros item [<- | Hin]; [lia|]. specialize (IH item Hin). lia.
Qed.

Lemma promote_found (target : string) (maxZ : Z) (l : list CanvasItem) (old : CanvasItem) :
  find (fun item => String.eqb (id item) target) l = Some old ->
  exists before after,
    l = before ++ old :: after
    /\ promote target maxZ l = before ++ withZIndex old (maxZ + 1) :: after.
Proof.
  induction l as [|hd rest IH]; cbn [find promote]; [discriminate|].
  destruct (String.eqb (id hd) target).
  - intros [= ->]. exists [], rest. auto.
  - intros Hf. destruct (IH Hf) as (before & after & -> & ->).
    exists (hd :: before), after. auto.
Qed.

Lemma promote_absent (target : string) (maxZ : Z) (l : list CanvasItem) :
  find (fun item => String.eqb (id item) target) l = None ->
  promote target maxZ l = l.
Proof.
  induction l as [|hd rest IH]; cbn [find promote]; [reflexivity|].
  destruct (String.eqb (id hd) target); [discriminate|].
  intros Hf. rewrite (IH Hf). reflexivity.
Qed.

(** X4: [selectItem] makes the id the active one and, when an item carries
    it, replaces the first such item by a copy whose zIndex is above the
    zIndex of every item of the canvas, all other items staying in place;
    when no item carries the id the items are untouched, the id is the
    active one all the same.  The history is not touched. *)
Theorem selectItem_brings_to_front (target : string) (st : CanvasState) :
  let st' := dispatch (selectItem target) st in
  activeItem st' = Some target
  /\ history st' = history st
  /\ historyIndex st' = historyIndex st
  /\ (forall old,
        find (fun item => String.eqb (id item) target) (items st) = Some old ->
        exists before after,
          items st = before ++ old :: after
          /\ items st' = before ++ withZIndex old (maxZIndex (items st) + 1) :: after
          /\ forall other, In other (items st) ->
               (zIndex other < maxZIndex (items st) + 1)%Z)
  /\ (find (fun item => String.eqb (id item) target) (items st) = None ->
      items st' = items st).
Proof.
  destruct st as [its cols act snap hist idx drag rsz dir start init].
  unfold dispatch, selectItem, run.
  cbn [fold_left applyUpdate items activeItem history historyIndex].
  split; [reflexivity|]. split; [reflexivity|]. split; [reflexivity|]. split.
  - intros old Hf.
    destruct (promote_found target (maxZIndex its) its old Hf) as (before & after & H1 & H2).
    exists before, after. split; [exact H1|]. split; [exact H2|].
    intros other Hin. destruct (maxZIndex_bound its) as [_ Hle].
    specialize (Hle other Hin). lia.
  - apply promote_absent.
Qed.

(** ** What the editing handlers leave alone *)

Lemma map_active_frame (st : CanvasState) (f : CanvasItem -> CanvasItem)
  (l : list CanvasItem) :
  (forall item, id (f item) = id item /\ nft (f item) = nft item) ->
  let l' := map (fun item => if isActive st item then f item else item) l in
  map id l' = map id l
  /\ map nft l' = map nft l
  /\ forall i item, nth_error l i = Some item -> isActive st item = false ->
       nth_error l' i = Some item.
Proof.
  intros Hf. cbn zeta. split; [|split].
  - rewrite map_map. apply map_ext. intros item.
    destruct (isActive st item); [apply Hf | reflexivity].
  - rewrite map_map. apply map_ext. intros item.
    destruct (isActive st item); [apply Hf | reflexivity].
  - intros i item Hn Ha. rewrite nth_error_map, Hn. cbn. rewrite Ha. reflexivity.
Qed.

(** X5: the nudge, crop and pointer-up handlers keep the number and order
    of the items, their ids and their NFTs, and leave every item that is not
    the active one exactly as it was. *)
Theorem edits_touch_only_active (m : Mutation) (st : CanvasState) :
  savesNewItems m = false ->
  map id (items (perform m st)) = map id (items st)
  /\ map nft (items (perform m st)) = map nft (items st)
  /\ forall i item, nth_error (items st) i = Some item -> isActive st item = false ->
       nth_error (items (perform m st)) i = Some item.
Proof.
  intros Hm. destruct (commits m st) eqn:Hc.
  - destruct m; try discriminate; cbn in Hc.
    1-3: unfold perform, dispatch, moveActiveItem, resizeActiveItem, updateCrop;
         rewrite Hc; cbn [negb]; rewrite run_app;
         match goal with |- context [run (run ?s ?us) (saveToHistory ?s ?snapshot)] =>
           destruct (run_saveToHistory_frame s (run s us) snapshot) as [-> _]
         end;
         match goal with |- context [run ?s [UpdateItems (map ?g)]] =>
           replace (items (run s [UpdateItems (map g)])) with (map g (items s))
             by (destruct s; reflexivity)
         end;
         apply map_active_frame; intros item; split; reflexivity.
    unfold perform, handleMouseUp.
    cbn [isDragging isResizing applyUpdate]. 
    replace (isDragging (applyUpdate st (SetItems listenerItems))
             || isResizing (applyUpdate st (SetItems listenerItems)))
      with true by (destruct st; cbn in *; congruence).
    rewrite run_app.
    match goal with |- context [run (run st ?us) ?vs] =>
      replace (items (run (run st us) vs)) with (items (run st us))
        by (destruct (run st us); reflexivity)
    end.
    match goal with |- context [run st (saveToHistory ?cl ?snapshot)] =>
      destruct (run_saveToHistory_frame cl st snapshot) as [-> _]
    end.
    auto.
  - destruct (perform_skips m st Hc) as (_ & _ & ->). auto.
Qed.

Lemma edits_touch_only_active_witness :
  map id (items (perform (ResizeNudge 10) (oneTile (tile "a" 0 0 20))))
  = map id (items (oneTile (tile "a" 0 0 20)))
  /\ map nft (items (perform (ResizeNudge 10) (oneTile (tile "a" 0 0 20))))
     = map nft (items (oneTile (tile "a" 0 0 20)))
  /\ forall i item,
       nth_error (items (oneTile (tile "a" 0 0 20))) i = Some item ->
       isActive (oneTile (tile "a" 0 0 20)) item = false ->
       nth_error (items (perform (ResizeNudge 10) (oneTile (tile "a" 0 0 20)))) i
       = Some item.
Proof.
  apply (edits_touch_only_active (ResizeNudge 10) (oneTile (tile "a" 0 0 20))).
  reflexivity.
Defined.

(** ** Pointer gestures *)

Lemma promote_frame (target : string) (maxZ : Z) (l : list CanvasItem) :
  map id (promote target maxZ l) = map id l
  /\ (Forall inBounds l -> Forall inBounds (promote target maxZ l)).
Proof.
  induction l as [|hd rest [IHid IHb]]; cbn [promote]; [auto|].
  destruct (String.eqb (id hd) target); cbn [map].
  - split; [reflexivity|]. intros Hall. inversion Hall; subst.
    constructor; assumption.
  - rewrite IHid. split; [reflexivity|]. intros Hall. inversion Hall; subst.
    constructor; auto.
Qed.

Lemma listener_fields (target : string) (direction : option ResizeDirection)
  (start : Q * Q) (st : CanvasState) :
  let listener :=
    match direction with
    | None => runPointer st (handleMouseDown target (Some start) st)
    | Some d => runPointer st (handleResizeStart target d (Some start) st)
    end in
  history listener = history st
  /\ historyIndex listener = historyIndex st
  /\ activeItem listener = Some target
  /\ items listener = promote target (maxZIndex (items st)) (items st)
  /\ isDragging listener || isResizing listener = true.
Proof.
  destruct st as [its cols act snap hist idx drag rsz dir start0 init].
  destruct direction as [d|]; cbn zeta;
    unfold handleMouseDown, handleResizeStart, captureInitial, selectItem, runPointer;
    cbn [items]; destruct (find _ its); cbn; auto.
Qed.

Lemma handleMouseMove_shape (p : Q * Q) (listener : CanvasState) :
  handleMouseMove p listener = []
  \/ exists f,
       handleMouseMove p listener
       = [UpdateItems (map (fun item => if isActive listener item then f item else item))]
       /\ forall item, id (f item) = id item /\ nft (f item) = nft item.
Proof.
  unfold handleMouseMove.
  destruct ((negb (isDragging listener) && negb (isResizing listener))
            || negb (truthy (activeItem listener))); [auto|].
  destruct (initialItemState listener) as [init|]; [|auto].
  destruct (isDragging listener).
  - right. eexists. split; [reflexivity|]. intros item. split; reflexivity.
  - destruct (isResizing listener); [|auto].
    destruct (resizeDirection listener) as [d|]; [|auto].
    right. eexists. split; [reflexivity|]. intros item.
    unfold resizeItem. destruct (if includes_e d then _ else _) as [[nx ny] ns].
    split; reflexivity.
Qed.

Lemma pointerMoves_frame (listener : CanvasState) (moves : list (Q * Q)) :
  forall st,
    history (pointerMoves listener moves st) = history st
    /\ historyIndex (pointerMoves listener moves st) = historyIndex st
    /\ activeItem (pointerMoves listener moves st) = activeItem st
    /\ map id (items (pointerMoves listener moves st)) = map id (items st)
    /\ (Forall inBounds (items st) ->
        Forall inBounds (items (pointerMoves listener moves st))).
Proof.
  unfold pointerMoves. induction moves as [|p rest IH]; intros st; [cbn; auto|].
  cbn [fold_left].
  destruct (IH (run st (handleMouseMove p listener))) as (Hh & Hi & Ha & Hid & Hb).
  rewrite Hh, Hi, Ha, Hid.
  pose proof (handleMouseMove_inBounds p listener st) as Hstep.
  destruct (handleMouseMove_shape p listener) as [Hnone | (f & Hmap & Hf)];
    [rewrite Hnone in * | rewrite Hmap in *].
  - change (run st []) with st in *.
    split; [reflexivity|]. split; [reflexivity|]. split; [reflexivity|].
    split; [reflexivity | exact Hb].
  - destruct (map_active_frame listener f (items st) Hf) as (Hmid & _ & _).
    set (g := fun item => if isActive listener item then f item else item) in *.
    assert (Hrun : items (run st [UpdateItems (map g)]) = map g (items st)
                   /\ history (run st [UpdateItems (map g)]) = history st
                   /\ historyIndex (run st [UpdateItems (map g)]) = historyIndex st
                   /\ activeItem (run st [UpdateItems (map g)]) = activeItem st)
      by (destruct st; cbn; auto).
    destruct Hrun as (R1 & R2 & R3 & R4). rewrite R1, R2, R3, R4.
    split; [reflexivity|]. split; [reflexivity|]. split; [reflexivity|].
    split; [exact Hmid|]. intros Hall. apply Hb, Hstep, Hall.
Qed.

Lemma promote_sizes (target : string) (maxZ : Z) (l : list CanvasItem) :
  map size (promote target maxZ l) = map size l.
Proof.
  induction l as [|hd rest IH]; cbn [promote]; [reflexivity|].
  destruct (String.eqb (id hd) target); cbn [map]; [reflexivity|].
  rewrite IH. reflexivity.
Qed.

(** While a tile is dragged the moves change positions only. *)
Lemma pointerMoves_sizes (listener : CanvasState) (moves : list (Q * Q)) :
  isDragging listener = true ->
  forall st, map size (items (pointerMoves listener moves st)) = map size (items st).
Proof.
  intros Hdrag. unfold pointerMoves.
  induction moves as [|p rest IH]; intros st; [reflexivity|].
  cbn [fold_left]. rewrite IH. unfold handleMouseMove. rewrite Hdrag.
  destruct ((negb true && negb (isResizing listener))
            || negb (truthy (activeItem listener))); [reflexivity|].
  destruct (initialItemState listener) as [init|]; [|reflexivity].
  match goal with |- context [run st [UpdateItems (map ?g)]] =>
    replace (items (run st [UpdateItems (map g)])) with (map g (items st))
      by (destruct st; reflexivity)
  end.
  rewrite map_map. apply map_ext. intros item.
  destruct (isActive listener item); reflexivity.
Qed.

Lemma gesture_drag_sizes (target : string) (start : Q * Q) (moves : list (Q * Q))
  (st : CanvasState) :
  map size (items (gesture target None start moves st)) = map size (items st).
Proof.
  unfold gesture.
  set (listener := runPointer st (handleMouseDown target (Some start) st)).
  assert (Hdrag : isDragging listener = true
                  /\ items listener = promote target (maxZIndex (items st)) (items st)).
  { subst listener. destruct st as [its cols act snap hist idx drag rsz dir start0 init].
    unfold handleMouseDown, captureInitial, selectItem, runPointer.
    cbn [items]. destruct (find _ its); cbn; auto. }
  destruct Hdrag as [Hdrag Hitems].
  unfold handleMouseUp. rewrite run_app.
  match goal with |- context [run (run ?s ?us) ?vs] =>
    replace (items (run (run s us) vs)) with (items (run s us))
      by (destruct (run s us); reflexivity)
  end.
  destruct (isDragging listener || isResizing listener).
  - match goal with |- context [run ?s (saveToHistory ?cl ?snapshot)] =>
      destruct (run_saveToHistory_frame cl s snapshot) as [-> _]
    end.
    rewrite (pointerMoves_sizes listener moves Hdrag), Hitems. apply promote_sizes.
  - change (run (pointerMoves listener moves listener) [])
      with (pointerMoves listener moves listener).
    rewrite (pointerMoves_sizes listener moves Hdrag), Hitems. apply promote_sizes.
Qed.

Lemma gesture_state (target : string) (direction : option ResizeDirection)
  (start : Q * Q) (moves : list (Q * Q)) (st : CanvasState) :
  Forall inBounds (items st) ->
  let st' := gesture target direction start moves st in
  isDragging st' = false /\ isResizing st' = false
  /\ resizeDirection st' = None /\ initialItemState st' = None
  /\ activeItem st' = Some target
  /\ history st'
     = historyAfterSave st (promote target (maxZIndex (items st)) (items st))
  /\ historyIndex st' = (historyIndex st + 1)%Z
  /\ map id (items st') = map id (items st)
  /\ Forall inBounds (items st').
Proof.
  intros Hall. unfold gesture.
  pose proof (listener_fields target direction start st) as HL. cbn zeta in HL.
  set (listener := match direction with None => _ | Some d => _ end) in *.
  destruct HL as (Lh & Li & La & Lit & Lflag).
  destruct (pointerMoves_frame listener moves listener) as (Mh & Mi & Ma & Mid & Mb).
  set (moved := pointerMoves listener moves listener) in *.
  cbn zeta. unfold handleMouseUp. rewrite Lflag, run_app.
  destruct (run_saveToHistory_history listener moved (items listener) Mh Mi) as (Sh & Si).
  destruct (run_saveToHistory_frame listener moved (items listener)) as (Sit & Sa).
  set (saved := run moved (saveToHistory listener (items listener))) in *.
  assert (Hsame : historyAfterSave listener (items listener)
                  = historyAfterSave st (promote target (maxZIndex (items st)) (items st))).
  { unfold historyAfterSave. rewrite Lh, Li, Lit. reflexivity. }
  destruct (promote_frame target (maxZIndex (items st)) (items st)) as (Pid & Pb).
  assert (Hfinal : forall s : CanvasState,
    let s' := run s [SetIsDragging false; SetIsResizing false;
                     SetResizeDirection None; SetInitialItemState None] in
    isDragging s' = false /\ isResizing s' = false /\ resizeDirection s' = None
    /\ initialItemState s' = None /\ activeItem s' = activeItem s
    /\ history s' = history s /\ historyIndex s' = historyIndex s
    /\ items s' = items s).
  { intros s. destruct s; cbn. repeat split. }
  destruct (Hfinal saved) as (F1 & F2 & F3 & F4 & F5 & F6 & F7 & F8).
  rewrite F1, F2, F3, F4, F5, F6, F7, F8, Sh, Si, Hsame, Sit, Sa, Ma, La, Mid, Li.
  split; [reflexivity|]. split; [reflexivity|]. split; [reflexivity|].
  split; [reflexivity|]. split; [reflexivity|]. split; [reflexivity|].
  split; [reflexivity|]. split.
  - rewrite Lit. exact Pid.
  - apply Mb. rewrite Lit. apply Pb. exact Hall.
Qed.

(** X6: a whole pointer gesture (down on a tile or on one of its handles,
    any number of moves, up) leaves the canvas idle, with the tile selected
    and the same items by id; if every tile had the four bounds 0 <= x,
    0 <= y, x + size <= 100 and y + size <= 100 before, every tile has them
    afterwards.  A drag leaves every size as it was; the four bounds do not
    bound the size from below, and a resize can leave it negative.  The
    gesture appends one history entry, which holds the item list as it was
    at pointer-down, once the tile was brought to the front. *)
Theorem gesture_ends_idle (target : string) (direction : option ResizeDirection)
  (start : Q * Q) (moves : list (Q * Q)) (st : CanvasState) :
  Forall inBounds (items st) ->
  let st' := gesture target direction start moves st in
  isDragging st' = false /\ isResizing st' = false
  /\ resizeDirection st' = None /\ initialItemState st' = None
  /\ activeItem st' = Some target
  /\ history st'
     = historyAfterSave st (promote target (maxZIndex (items st)) (items st))
  /\ historyIndex st' = (historyIndex st + 1)%Z
  /\ map id (items st') = map id (items st)
  /\ Forall inBounds (items st')
  /\ (direction = None -> map size (items st') = map size (items st)).
Proof.
  intros Hall st'.
  destruct (gesture_state target direction start moves st Hall)
    as (H1 & H2 & H3 & H4 & H5 & H6 & H7 & H8 & H9).
  fold st' in H1, H2, H3, H4, H5, H6, H7, H8, H9.
  split; [exact H1|]. split; [exact H2|]. split; [exact H3|]. split; [exact H4|].
  split; [exact H5|]. split; [exact H6|]. split; [exact H7|]. split; [exact H8|].
  split; [exact H9|].
  intros Hd. subst st' direction. apply gesture_drag_sizes.
Qed.

Lemma gesture_ends_idle_witness :
  let st' := gesture "b" None (25, 10) [(45, 30); (70, 35)] threeAdded in
  isDragging st' = false /\ isResizing st' = false
  /\ resizeDirection st' = None /\ initialItemState st' = None
  /\ activeItem st' = Some "b"%string
  /\ history st'
     = historyAfterSave threeAdded
         (promote "b" (maxZIndex (items threeAdded)) (items threeAdded))
  /\ historyIndex st' = (historyIndex threeAdded + 1)%Z
  /\ map id (items st') = map id (items threeAdded)
  /\ Forall inBounds (items st')
  /\ (@None ResizeDirection = None -> map size (items st') = map size (items threeAdded)).
Proof.
  apply (gesture_ends_idle "b" None (25, 10) [(45, 30); (70, 35)] threeAdded).
  repeat constructor; cbn; lra.
Defined.

(** The drag of the witness moves the tile by the path of the pointer,
    snapped to the grid. *)
Example gesture_drags :
  map (fun item => (id item, Qred (x item), Qred (y item), Qred (size item)))
      (items (gesture "b" None (25, 10) [(45, 30); (70, 35)] threeAdded))
  = [("a"%string, 0, 0, 20); ("b"%string, 70, 30, 20); ("c"%string, 40, 0, 20)].
Proof. vm_compute. reflexivity. Qed.

(** A resize from the se handle: the tile grows from 20 to 50. *)
Example gesture_resizes :
  map (fun item => (id item, Qred (x item), Qred (y item), Qred (size item)))
      (items (gesture "b" (Some Dir.se) (40, 20) [(45, 30); (70, 35)] threeAdded))
  = [("a"%string, 0, 0, 20); ("b"%string, 20, 0, 50); ("c"%string, 40, 0, 20)].
Proof. vm_compute. reflexivity. Qed.

(** A tile at x = 80 of size 20 whose w handle is dragged to 110, past the
    right edge of the canvas (the listeners are on the window): the tile
    ends at x = 110 with size -10, which has the four bounds and lies
    outside the canvas. *)
Example gesture_resize_past_edge :
  map (fun item => (Qred (x item), Qred (y item), Qred (size item)))
      (items (gesture "a" (Some Dir.w) (80, 10) [(110, 10)] (oneTile (tile "a" 80 0 20))))
  = [(110, 0, -10)]
  /\ Forall inBounds
       (items (gesture "a" (Some Dir.w) (80, 10) [(110, 10)] (oneTile (tile "a" 80 0 20)))).
Proof. split; [vm_compute; reflexivity | repeat constructor; vm_compute; discriminate]. Qed.

(** ** Nudges on the grid *)

Lemma Math_round_range (q : Q) (k : Z) :
  0 <= q <= inject_Z k -> (0 <= Math_round q <= k)%Z.
Proof.
  intros [Hlo Hhi]. unfold Math_round. split.
  - change 0%Z with (Qfloor 0). apply Qfloor_resp_le. lra.
  - pose proof (Qfloor_le (q + (1 # 2))) as Hf.
    assert (Hlt : inject_Z (Qfloor (q + (1 # 2))) < inject_Z (k + 1)).
    { rewrite inject_Z_plus. change (inject_Z 1) with 1. lra. }
    rewrite <- Zlt_Qlt in Hlt. lia.
Qed.

Lemma hundred_cells (st : CanvasState) :
  inject_Z (Z.pos (gridColumns st)) * cellSize st == 100.
Proof. unfold cellSize. field. unfold Qeq. cbn. lia. Qed.

(** The snapped position nudge of a tile whose size is a whole number of
    cells. *)
Lemma nudgeItem_inBounds_aligned (cl : CanvasState) (item : CanvasItem)
  (dx dy : Q) (k : Z) :
  size item == inject_Z k * cellSize cl ->
  size item <= 100 ->
  inBounds (nudgeItem cl item dx dy).
Proof.
  intros Hk Hsize. destruct (snapToGrid cl) eqn:Hsnap;
    [|apply nudgeItem_inBounds_unsnapped; assumption].
  pose proof (cellSize_pos cl) as Hcs. pose proof (hundred_cells cl) as Hcols.
  set (cols := Z.pos (gridColumns cl)) in *.
  assert (Hsnapped : forall v,
            0 <= snapToGridValue cl (Math_max 0 (Math_min (100 - size item) v))
            /\ snapToGridValue cl (Math_max 0 (Math_min (100 - size item) v))
               + size item <= 100).
  { intros v. set (c := Math_max 0 (Math_min (100 - size item) v)).
    assert (Hc : 0 <= c <= 100 - size item).
    { split; [apply clamp_low | apply clamp_high; lra]. }
    unfold snapToGridValue. rewrite Hsnap. cbn [negb].
    assert (Hq : 0 <= c / cellSize cl <= inject_Z (cols - k)).
    { split.
      - apply Qle_shift_div_l; [assumption | lra].
      - apply Qle_shift_div_r; [assumption|].
        unfold Zminus. rewrite inject_Z_plus, inject_Z_opp. lra. }
    apply Math_round_range in Hq.
    set (r := Math_round (c / cellSize cl)) in *.
    assert (Hr0 : 0 <= inject_Z r)
      by (change 0 with (inject_Z 0); rewrite <- Zle_Qle; lia).
    assert (Hr1 : inject_Z r <= inject_Z (cols - k)) by (rewrite <- Zle_Qle; lia).
    unfold Zminus in Hr1. rewrite inject_Z_plus, inject_Z_opp in Hr1.
    split; [apply Qmult_le_0_compat; lra|].
    assert (Hmul : inject_Z r * cellSize cl
                   <= (inject_Z cols + - inject_Z k) * cellSize cl)
      by (apply Qmult_le_compat_r; lra).
    lra. }
  unfold inBounds, nudgeItem. rewrite Hsnap. cbn [x y size withPosition].
  destruct (Hsnapped (x item + dx)) as [Hx0 Hx1].
  destruct (Hsnapped (y item + dy)) as [Hy0 Hy1].
  auto.
Qed.

(** X7: the position nudge keeps the four bounds 0 <= x, 0 <= y,
    x + size <= 100 and y + size <= 100 of every tile when snapping is off;
    when it is on, it keeps them on the grids of 4, 8, 10 and 16 columns
    (where the cell size is a binary fraction) provided the size of the
    active tile is a whole number of cells. *)
Theorem moveActiveItem_inBounds (dx dy : Q) (st : CanvasState) :
  Forall inBounds (items st) ->
  (snapToGrid st = false
   \/ (In (gridColumns st) exactColumns
       /\ forall item, In item (items st) -> isActive st item = true ->
            exists k, size item == inject_Z k * cellSize st)) ->
  Forall inBounds (items (dispatch (moveActiveItem dx dy) st)).
Proof.
  intros Hall Hgrid. unfold dispatch, moveActiveItem.
  destruct (truthy (activeItem st)); cbn [negb]; [|exact Hall].
  rewrite run_app.
  match goal with |- context [run (run ?s ?us) (saveToHistory ?s ?snapshot)] =>
    destruct (run_saveToHistory_frame s (run s us) snapshot) as [-> _]
  end.
  match goal with |- context [run ?s [UpdateItems (map ?g)]] =>
    replace (items (run s [UpdateItems (map g)])) with (map g (items s))
      by (destruct s; reflexivity)
  end.
  rewrite Forall_forall in *. intros item Hin.
  apply in_map_iff in Hin. destruct Hin as (old & <- & Hold).
  destruct (isActive st old) eqn:Hact; [|auto].
  assert (Hsize : size old <= 100).
  { specialize (Hall old Hold). unfold inBounds in Hall. lra. }
  destruct Hgrid as [Hoff | [_ Hk]].
  - apply nudgeItem_inBounds_unsnapped; assumption.
  - destruct (Hk old Hold Hact) as (k & Hsz).
    apply (nudgeItem_inBounds_aligned st old dx dy k); assumption.
Qed.

Lemma moveActiveItem_inBounds_witness :
  Forall inBounds (items (dispatch (moveActiveItem 10 0) (oneTile (tile "a" 70 0 30)))).
Proof.
  apply (moveActiveItem_inBounds 10 0 (oneTile (tile "a" 70 0 30))).
  - repeat constructor; cbn; lra.
  - right. split; [cbn; tauto|].
    intros item [<- | []] _. exists 3%Z. vm_compute. reflexivity.
Defined.

(** ** Empty-slot search on any canvas *)

Lemma findEmptyPosition_unfold (st : CanvasState) (rnd : Q * Q) :
  findEmptyPosition st rnd
  = match find (fun cell => blockIsEmpty st (row cell) (col cell)) (candidatePositions st) with
    | Some cell =>
        mkPosition (inject_Z (col cell) * cellSize st) (inject_Z (row cell) * cellSize st)
                   (cellSize st * 2)
    | None =>
        mkPosition (fst rnd * (100 - cellSize st * 2)) (snd rnd * (100 - cellSize st * 2))
                   (cellSize st * 2)
    end.
Proof. reflexivity. Qed.

Lemma In_range (k i : Z) : In i (range k) <-> (0 <= i < k)%Z.
Proof.
  unfold range. rewrite in_map_iff. split.
  - intros (j & <- & Hj). apply in_seq in Hj. lia.
  - intros Hi. exists (Z.to_nat i). split; [lia|]. apply in_seq. lia.
Qed.

Lemma In_candidatePositions (st : CanvasState) (cell : Cell) :
  In cell (candidatePositions st)
  <-> (0 <= row cell < Z.pos (gridColumns st) - 1)%Z
      /\ (0 <= col cell < Z.pos (gridColumns st) - 1)%Z.
Proof.
  unfold candidatePositions. rewrite gridSize_columns, defaultSpan.
  rewrite in_flat_map. split.
  - intros (r & Hr & Hc). apply in_map_iff in Hc. destruct Hc as (c & <- & Hc).
    apply In_range in Hr, Hc. cbn [row col]. lia.
  - intros [Hr Hc]. exists (row cell). split; [apply In_range; lia|].
    apply in_map_iff. exists (col cell). split; [destruct cell; reflexivity|].
    apply In_range. lia.
Qed.

Lemma blockIsEmpty_cells (st : CanvasState) (row0 col0 : Z) :
  blockIsEmpty st row0 col0 = true ->
  forall r c, (0 <= r < 2)%Z -> (0 <= c < 2)%Z ->
    ~ In (mkCell (row0 + r) (col0 + c)) (occupiedCells st).
Proof.
  unfold blockIsEmpty. rewrite defaultSpan. intros Hb r c Hr Hc Hin.
  rewrite forallb_forall in Hb. specialize (Hb r (proj2 (In_range 2 r) Hr)).
  rewrite forallb_forall in Hb. specialize (Hb c (proj2 (In_range 2 c) Hc)).
  apply negb_true_iff in Hb.
  assert (Hex : existsb (cell_eqb (mkCell (row0 + r) (col0 + c))) (occupiedCells st) = true).
  { apply existsb_exists. eexists. split; [exact Hin|]. apply cell_eqb_eq. reflexivity. }
  congruence.
Qed.

Lemma find_first {A} (f : A -> bool) (l : list A) (a : A) :
  find f l = Some a ->
  exists before after,
    l = before ++ a :: after /\ f a = true /\ forall b, In b before -> f b = false.
Proof.
  induction l as [|hd rest IH]; cbn [find]; [discriminate|].
  destruct (f hd) eqn:Hhd.
  - intros [= ->]. exists [], rest. repeat split; auto. intros b [].
  - intros Hf. destruct (IH Hf) as (before & after & -> & Ha & Hb).
    exists (hd :: before), after. repeat split; auto.
    intros b [<- | Hin]; auto.
Qed.

Lemma candidate_inBounds (st : CanvasState) (cell : Cell) :
  In cell (candidatePositions st) ->
  0 <= inject_Z (col cell) * cellSize st
  /\ 0 <= inject_Z (row cell) * cellSize st
  /\ inject_Z (col cell) * cellSize st + cellSize st * 2 <= 100
  /\ inject_Z (row cell) * cellSize st + cellSize st * 2 <= 100.
Proof.
  intros Hin. apply In_candidatePositions in Hin. destruct Hin as [Hr Hc].
  pose proof (cellSize_pos st) as Hcs. pose proof (hundred_cells st) as Hcols.
  set (cols := Z.pos (gridColumns st)) in *.
  assert (Hbound : forall i, (0 <= i < cols - 1)%Z ->
            0 <= inject_Z i * cellSize st
            /\ inject_Z i * cellSize st + cellSize st * 2 <= 100).
  { intros i Hi.
    assert (H0 : 0 <= inject_Z i)
      by (change 0 with (inject_Z 0); rewrite <- Zle_Qle; lia).
    assert (H1 : inject_Z (i + 2) <= inject_Z cols) by (rewrite <- Zle_Qle; lia).
    rewrite inject_Z_plus in H1. change (inject_Z 2) with 2 in H1.
    split; [apply Qmult_le_0_compat; lra|].
    assert (Hmul : (inject_Z i + 2) * cellSize st <= inject_Z cols * cellSize st)
      by (apply Qmult_le_compat_r; lra).
    lra. }
  destruct (Hbound _ Hr). destruct (Hbound _ Hc). auto.
Qed.

Lemma In_rangeIncl (a b i : Z) : In i (rangeIncl a b) <-> (a <= i <= b)%Z.
Proof.
  unfold rangeIncl. rewrite in_map_iff. split.
  - intros (j & <- & Hj). apply In_range in Hj. lia.
  - intros Hi. exists (i - a)%Z. split; [lia | apply In_range; lia].
Qed.

Lemma floor_whole_cells (cs v : Q) (c : Z) :
  0 < cs -> v == inject_Z c * cs -> Math_floor (v / cs) = c.
Proof.
  intros Hcs Hv. unfold Math_floor.
  assert (Heq : v / cs == inject_Z c) by (rewrite Hv; field; lra).
  rewrite (Qfloor_comp _ _ Heq). apply Qfloor_Z.
Qed.

(** The cells a tile of whole cells occupies for [findEmptyPosition] and
    [fillBlankTiles]: the end column and the end row are computed from the
    far edge and are included, so that the tile occupies its own cells and
    the next column and row. *)
Lemma tileAt_occupies (st : CanvasState) (item : CanvasItem) (cell : Cell) (k : Z)
  (c : Cell) :
  tileAt (cellSize st) cell k item ->
  (In c (flat_map (fun r => map (fun c0 => mkCell r c0)
                    (rangeIncl (Math_floor (x item / cellSize st))
                               (Math_floor ((x item + size item) / cellSize st))))
          (rangeIncl (Math_floor (y item / cellSize st))
                     (Math_floor ((y item + size item) / cellSize st))))
   <-> (row cell <= row c <= row cell + k)%Z /\ (col cell <= col c <= col cell + k)%Z).
Proof.
  intros (Hx & Hy & Hs). pose proof (cellSize_pos st) as Hcs.
  assert (Hfar : forall v (i : Z), v == inject_Z i * cellSize st ->
            v + size item == inject_Z (i + k) * cellSize st).
  { intros v i Hv. rewrite inject_Z_plus, Hv, Hs. ring. }
  rewrite (floor_whole_cells _ _ _ Hcs Hx), (floor_whole_cells _ _ _ Hcs Hy).
  rewrite (floor_whole_cells _ _ _ Hcs (Hfar _ _ Hx)).
  rewrite (floor_whole_cells _ _ _ Hcs (Hfar _ _ Hy)).
  rewrite in_flat_map. split.
  - intros (r & Hr & Hc). apply in_map_iff in Hc. destruct Hc as (c0 & <- & Hc).
    apply In_rangeIncl in Hr, Hc. cbn [row col]. lia.
  - intros [Hr Hc]. exists (row c). split; [apply In_rangeIncl; lia|].
    apply in_map_iff. exists (col c). split; [destruct c; reflexivity|].
    apply In_rangeIncl. lia.
Qed.

Lemma occupiedCells_onGrid (st : CanvasState) (c : Cell) :
  Forall (onGrid st) (items st) ->
  (In c (occupiedCells st)
   <-> exists item cell k,
         In item (items st) /\ tileAt (cellSize st) cell k item
         /\ (row cell <= row c <= row cell + k)%Z
         /\ (col cell <= col c <= col cell + k)%Z).
Proof.
  intros Hgrid. unfold occupiedCells. rewrite in_flat_map. split.
  - intros (item & Hin & Hc).
    rewrite Forall_forall in Hgrid.
    destruct (Hgrid item Hin) as (cell & k & Ht & _).
    exists item, cell, k. split; [exact Hin|]. split; [exact Ht|].
    apply (tileAt_occupies st item cell k c Ht). exact Hc.
  - intros (item & cell & k & Hin & Ht & Hr & Hc).
    exists item. split; [exact Hin|].
    apply (tileAt_occupies st item cell k c Ht). auto.
Qed.

Lemma threeAdded_onGrid : Forall (onGrid threeAdded) (items threeAdded).
Proof.
  repeat constructor.
  - exists (mkCell 0 0), 2%Z. unfold tileAt. cbn [row col].
    split; [split; [|split]; vm_compute; reflexivity | cbn; lia].
  - exists (mkCell 0 2), 2%Z. unfold tileAt. cbn [row col].
    split; [split; [|split]; vm_compute; reflexivity | cbn; lia].
  - exists (mkCell 0 4), 2%Z. unfold tileAt. cbn [row col].
    split; [split; [|split]; vm_compute; reflexivity | cbn; lia].
Qed.

(** X8: on a grid of 4, 8, 10 or 16 columns whose tiles are squares of whole
    cells, the cells [findEmptyPosition] takes as occupied are, for every
    tile, its own cells and the next column and row.  When some 2 by 2
    block of cells is free of them, [findEmptyPosition] returns the top-left
    corner of the first free block in row-major order: none of its four
    cells is occupied, the blocks tried before it were not free, and the
    square lies inside the canvas. *)
Theorem findEmptyPosition_first_free (st : CanvasState) (rnd : Q * Q) (free : Cell) :
  In (gridColumns st) exactColumns ->
  Forall (onGrid st) (items st) ->
  In free (candidatePositions st) ->
  blockIsEmpty st (row free) (col free) = true ->
  (forall c, In c (occupiedCells st)
     <-> exists item cell k,
           In item (items st) /\ tileAt (cellSize st) cell k item
           /\ (row cell <= row c <= row cell + k)%Z
           /\ (col cell <= col c <= col cell + k)%Z)
  /\ exists before cell after,
    candidatePositions st = before ++ cell :: after
    /\ (forall b, In b before -> blockIsEmpty st (row b) (col b) = false)
    /\ pos_x (findEmptyPosition st rnd) = inject_Z (col cell) * cellSize st
    /\ pos_y (findEmptyPosition st rnd) = inject_Z (row cell) * cellSize st
    /\ (forall r c, (0 <= r < 2)%Z -> (0 <= c < 2)%Z ->
          ~ In (mkCell (row cell + r) (col cell + c)) (occupiedCells st))
    /\ 0 <= pos_x (findEmptyPosition st rnd)
    /\ 0 <= pos_y (findEmptyPosition st rnd)
    /\ pos_x (findEmptyPosition st rnd) + pos_size (findEmptyPosition st rnd) <= 100
    /\ pos_y (findEmptyPosition st rnd) + pos_size (findEmptyPosition st rnd) <= 100.
Proof.
  intros _ Hgrid Hin Hfree.
  split; [intros c; apply occupiedCells_onGrid; exact Hgrid|].
  rewrite findEmptyPosition_unfold.
  destruct (find (fun cell => blockIsEmpty st (row cell) (col cell)) (candidatePositions st))
    as [cell|] eqn:Hfind.
  - destruct (find_first _ _ _ Hfind) as (before & after & Hsplit & Hcell & Hbefore).
    exists before, cell, after. cbn [pos_x pos_y pos_size].
    assert (Hrange : In cell (candidatePositions st)).
    { rewrite Hsplit. apply in_or_app. right. left. reflexivity. }
    destruct (candidate_inBounds st cell Hrange) as (Hx0 & Hy0 & Hx1 & Hy1).
    split; [exact Hsplit|]. split; [exact Hbefore|].
    split; [reflexivity|]. split; [reflexivity|].
    split; [apply blockIsEmpty_cells; exact Hcell|]. auto.
  - exfalso. apply (find_none _ _ Hfind) in Hin. cbn in Hin. congruence.
Qed.

Lemma findEmptyPosition_first_free_witness :
  (forall c, In c (occupiedCells threeAdded)
     <-> exists item cell k,
           In item (items threeAdded) /\ tileAt (cellSize threeAdded) cell k item
           /\ (row cell <= row c <= row cell + k)%Z
           /\ (col cell <= col c <= col cell + k)%Z)
  /\ exists before cell after,
    candidatePositions threeAdded = before ++ cell :: after
    /\ (forall b, In b before -> blockIsEmpty threeAdded (row b) (col b) = false)
    /\ pos_x (findEmptyPosition threeAdded (0, 0)) = inject_Z (col cell) * cellSize threeAdded
    /\ pos_y (findEmptyPosition threeAdded (0, 0)) = inject_Z (row cell) * cellSize threeAdded
    /\ (forall r c, (0 <= r < 2)%Z -> (0 <= c < 2)%Z ->
          ~ In (mkCell (row cell + r) (col cell + c)) (occupiedCells threeAdded))
    /\ 0 <= pos_x (findEmptyPosition threeAdded (0, 0))
    /\ 0 <= pos_y (findEmptyPosition threeAdded (0, 0))
    /\ pos_x (findEmptyPosition threeAdded (0, 0))
       + pos_size (findEmptyPosition threeAdded (0, 0)) <= 100
    /\ pos_y (findEmptyPosition threeAdded (0, 0))
       + pos_size (findEmptyPosition threeAdded (0, 0)) <= 100.
Proof.
  apply (findEmptyPosition_first_free threeAdded (0, 0) (mkCell 3 0)).
  - cbn. tauto.
  - exact threeAdded_onGrid.
  - apply In_candidatePositions. cbn. lia.
  - vm_compute. reflexivity.
Defined.

(** In the witness the three tiles occupy columns 0 to 6 of rows 0 to 2
    and the first free block starts at column 7 of row 0. *)
Example findEmptyPosition_threeAdded :
  Qred (pos_x (findEmptyPosition threeAdded (0, 0))) = 70
  /\ Qred (pos_y (findEmptyPosition threeAdded (0, 0))) = 0.
Proof. vm_compute. split; reflexivity. Qed.

Lemma findEmptyPosition_inBounds (st : CanvasState) (rnd : Q * Q) :
  (2 <= gridColumns st)%positive ->
  0 <= fst rnd <= 1 -> 0 <= snd rnd <= 1 ->
  0 <= pos_x (findEmptyPosition st rnd)
  /\ 0 <= pos_y (findEmptyPosition st rnd)
  /\ pos_x (findEmptyPosition st rnd) + pos_size (findEmptyPosition st rnd) <= 100
  /\ pos_y (findEmptyPosition st rnd) + pos_size (findEmptyPosition st rnd) <= 100
  /\ pos_size (findEmptyPosition st rnd) = cellSize st * 2.
Proof.
  intros Hcols Hr1 Hr2.
  destruct (find (fun cell => blockIsEmpty st (row cell) (col cell)) (candidatePositions st))
    as [cell|] eqn:Hfind.
  - destruct (find_some _ _ Hfind) as [Hin _].
    rewrite findEmptyPosition_unfold, Hfind. cbn [pos_x pos_y pos_size].
    destruct (candidate_inBounds st cell Hin) as (H1 & H2 & H3 & H4). auto.
  - rewrite findEmptyPosition_unfold, Hfind. cbn [pos_x pos_y pos_size].
    pose proof (cellSize_pos st) as Hcs. pose proof (hundred_cells st) as H100.
    assert (Hroom : 0 <= 100 - cellSize st * 2).
    { assert (H2 : inject_Z 2 <= inject_Z (Z.pos (gridColumns st)))
        by (rewrite <- Zle_Qle; lia).
      change (inject_Z 2) with 2 in H2.
      assert (Hmul : 2 * cellSize st <= inject_Z (Z.pos (gridColumns st)) * cellSize st)
        by (apply Qmult_le_compat_r; lra).
      lra. }
    assert (Hscale : forall u, 0 <= u <= 1 ->
              0 <= u * (100 - cellSize st * 2)
              /\ u * (100 - cellSize st * 2) + cellSize st * 2 <= 100).
    { intros u [Hu0 Hu1]. split; [apply Qmult_le_0_compat; lra|].
      assert (Hmul : u * (100 - cellSize st * 2) <= 1 * (100 - cellSize st * 2))
        by (apply Qmult_le_compat_r; lra).
      lra. }
    destruct (Hscale _ Hr1). destruct (Hscale _ Hr2). auto.
Qed.

(** One [addNFT] called from the live render. *)
Lemma addNFT_appends (uniqueId : string) (rnd : Q * Q) (a : NFT)
  (st : CanvasState) :
  In (gridColumns st) exactColumns ->
  Forall (onGrid st) (items st) ->
  0 <= fst rnd <= 1 -> 0 <= snd rnd <= 1 ->
  let st' := dispatch (addNFT uniqueId rnd a) st in
  exists item,
    items st' = items st ++ [item]
    /\ id item = uniqueId /\ nft item = a
    /\ inBounds item
    /\ size item = cellSize st * 2
    /\ (cropX item, cropY item, cropWidth item, cropHeight item) = (0, 0, 100, 100)
    /\ zIndex item = (Z.of_nat (List.length (items st)) + 1)%Z
    /\ activeItem st' = Some uniqueId
    /\ history st' = historyAfterSave st (items st')
    /\ (forall free, In free (candidatePositions st) ->
          blockIsEmpty st (row free) (col free) = true -> Forall (onGrid st) (items st')).
Proof.
  intros Hexact Hgrid Hr1 Hr2 st'. subst st'. unfold dispatch, addNFT.
  assert (Hcols : (2 <= gridColumns st)%positive).
  { cbn in Hexact. destruct Hexact as [<- | [<- | [<- | [<- | []]]]]; lia. }
  set (position := findEmptyPosition st rnd).
  set (item := mkItem uniqueId a (pos_x position) (pos_y position) (pos_size position)
                      (Z.of_nat (List.length (items st)) + 1) 0 0 100 100).
  rewrite run_app.
  destruct (run_saveToHistory_frame st
              (run st [SetItems (items st ++ [item]); SetActiveItem (Some uniqueId)])
              (items st ++ [item])) as [Hi Ha].
  destruct (run_saveToHistory_history st
              (run st [SetItems (items st ++ [item]); SetActiveItem (Some uniqueId)])
              (items st ++ [item])) as [Hh _];
    [destruct st; reflexivity | destruct st; reflexivity|].
  rewrite Hi, Ha, Hh.
  destruct (findEmptyPosition_inBounds st rnd Hcols Hr1 Hr2) as (H1 & H2 & H3 & H4 & H5).
  assert (Hitems : items (run st [SetItems (items st ++ [item]);
                                  SetActiveItem (Some uniqueId)])
                   = items st ++ [item]) by (destruct st; reflexivity).
  exists item. split; [exact Hitems|].
  split; [reflexivity|]. split; [reflexivity|].
  split; [unfold inBounds; cbn [x y size item]; auto|].
  split; [exact H5|]. split; [reflexivity|]. split; [reflexivity|].
  split; [destruct st; reflexivity|]. split; [destruct st; reflexivity|].
  intros free Hin Hfree. rewrite Hitems. apply Forall_app. split; [exact Hgrid|].
  constructor; [|constructor].
  destruct (find (fun cell => blockIsEmpty st (row cell) (col cell)) (candidatePositions st))
    as [cell|] eqn:Hfind.
  - destruct (find_some _ _ Hfind) as [Hcell _].
    apply In_candidatePositions in Hcell. destruct Hcell as [Hrow Hcol].
    exists cell, 2%Z. unfold tileAt, item, position.
    rewrite findEmptyPosition_unfold, Hfind. cbn [x y size pos_x pos_y pos_size].
    split; [split; [reflexivity | split; [reflexivity|]]|lia].
    change (inject_Z 2) with 2. ring.
  - exfalso. apply (find_none _ _ Hfind) in Hin. cbn in Hin. congruence.
Qed.

(** X9: on a grid of 4, 8, 10 or 16 columns whose tiles are squares of
    whole cells, a run of the [selectedNFTs] effect that finds one new NFT,
    with random values in [0, 1], appends exactly one tile for it, two cells
    wide, inside the canvas, with the full image as its crop; the tile
    becomes the active item and the list stored is the one committed to the
    history.  When a 2 by 2 block of cells is free the new tile is a square
    of whole cells too. *)
Theorem addNFT_appends_inBounds (selectedNFTs : list NFT)
  (fresh : nat -> string * (Q * Q)) (a : NFT) (st : CanvasState) :
  In (gridColumns st) exactColumns ->
  Forall (onGrid st) (items st) ->
  newNFTs st selectedNFTs = [a] ->
  0 <= fst (snd (fresh 0%nat)) <= 1 -> 0 <= snd (snd (fresh 0%nat)) <= 1 ->
  let st' := perform (Add selectedNFTs fresh) st in
  exists item,
    items st' = items st ++ [item]
    /\ id item = fst (fresh 0%nat) /\ nft item = a
    /\ inBounds item
    /\ size item = cellSize st * 2
    /\ (cropX item, cropY item, cropWidth item, cropHeight item) = (0, 0, 100, 100)
    /\ zIndex item = (Z.of_nat (List.length (items st)) + 1)%Z
    /\ activeItem st' = Some (fst (fresh 0%nat))
    /\ history st' = historyAfterSave st (items st')
    /\ (forall free, In free (candidatePositions st) ->
          blockIsEmpty st (row free) (col free) = true -> Forall (onGrid st) (items st')).
Proof.
  intros Hexact Hgrid Hnew Hr1 Hr2. unfold perform.
  assert (Hrun : dispatch (processSelectedNFTs selectedNFTs fresh) st
                 = dispatch (addNFT (fst (fresh 0%nat)) (snd (fresh 0%nat)) a) st).
  { unfold dispatch. rewrite processSelectedNFTs_addEach, Hnew. cbn [addEach].
    rewrite app_nil_r. reflexivity. }
  rewrite Hrun.
  exact (addNFT_appends (fst (fresh 0%nat)) (snd (fresh 0%nat)) a st Hexact Hgrid Hr1 Hr2).
Qed.

Lemma addNFT_appends_inBounds_witness :
  let selectedNFTs := [imageNFT "a"; imageNFT "b"; imageNFT "c"; imageNFT "d"] in
  let st' := perform (Add selectedNFTs (sampleFreshFrom 3)) threeAdded in
  exists item,
    items st' = items threeAdded ++ [item]
    /\ id item = fst (sampleFreshFrom 3 0%nat) /\ nft item = imageNFT "d"
    /\ inBounds item
    /\ size item = cellSize threeAdded * 2
    /\ (cropX item, cropY item, cropWidth item, cropHeight item) = (0, 0, 100, 100)
    /\ zIndex item = (Z.of_nat (List.length (items threeAdded)) + 1)%Z
    /\ activeItem st' = Some (fst (sampleFreshFrom 3 0%nat))
    /\ history st' = historyAfterSave threeAdded (items st')
    /\ (forall free, In free (candidatePositions threeAdded) ->
          blockIsEmpty threeAdded (row free) (col free) = true ->
          Forall (onGrid threeAdded) (items st')).
Proof.
  apply (addNFT_appends_inBounds
           [imageNFT "a"; imageNFT "b"; imageNFT "c"; imageNFT "d"]
           (sampleFreshFrom 3) (imageNFT "d") threeAdded).
  - cbn. tauto.
  - exact threeAdded_onGrid.
  - reflexivity.
  - cbn. lra.
  - cbn. lra.
Defined.

(** ** Bulk placement on any grid *)

Lemma In_blockCells (cell c : Cell) (k : Z) :
  In c (blockCells cell k)
  <-> (row cell <= row c < row cell + k)%Z /\ (col cell <= col c < col cell + k)%Z.
Proof.
  unfold blockCells. rewrite in_flat_map. split.
  - intros (r & Hr & Hc). apply in_map_iff in Hc. destruct Hc as (c' & <- & Hc).
    apply In_range in Hr, Hc. cbn [row col]. lia.
  - intros [Hr Hc]. exists (row c - row cell)%Z. split; [apply In_range; lia|].
    apply in_map_iff. exists (col c - col cell)%Z. split; [|apply In_range; lia].
    destruct c as [r0 c0]. cbn [row col]. f_equal; lia.
Qed.

Lemma In_removeCell (t c : Cell) (l : list Cell) :
  NoDup l -> (In c (removeCell t l) <-> In c l /\ c <> t).
Proof.
  induction 1 as [|hd rest Hnotin Hnd IH]; cbn [removeCell]; [tauto|].
  destruct (cell_eqb hd t) eqn:Heq.
  - apply cell_eqb_eq in Heq. subst hd. cbn [In]. split.
    + intros Hin. split; [auto|]. intros ->. contradiction.
    + intros [[<- | Hin] Hne]; [congruence | exact Hin].
  - assert (Hne : hd <> t) by (intros ->; rewrite (proj2 (cell_eqb_eq t t) eq_refl) in Heq;
                                discriminate).
    cbn [In]. rewrite IH. split.
    + intros [<- | [Hin Hc]]; auto.
    + intros [[<- | Hin] Hc]; auto.
Qed.

Lemma NoDup_removeCell (t : Cell) (l : list Cell) : NoDup l -> NoDup (removeCell t l).
Proof.
  induction 1 as [|hd rest Hnotin Hnd IH]; cbn [removeCell]; [constructor|].
  destruct (cell_eqb hd t); [exact Hnd|].
  constructor; [|exact IH]. intros Hin. apply Hnotin.
  apply (In_removeCell t hd rest Hnd) in Hin. tauto.
Qed.

Lemma removeCells_spec (ts : list Cell) : forall l,
  NoDup l ->
  NoDup (fold_left (fun acc t => removeCell t acc) ts l)
  /\ forall c, In c (fold_left (fun acc t => removeCell t acc) ts l)
               <-> In c l /\ ~ In c ts.
Proof.
  induction ts as [|t rest IH]; intros l Hnd; cbn [fold_left].
  - split; [exact Hnd|]. intros c. cbn. tauto.
  - destruct (IH (removeCell t l) (NoDup_removeCell t l Hnd)) as [Hnd' Hin'].
    split; [exact Hnd'|]. intros c. rewrite Hin', (In_removeCell t c l Hnd).
    cbn [In]. split.
    + intros [[Hin Hne] Hrest]. split; [exact Hin|]. intros [-> | Hc]; auto.
    + intros [Hin Hnot]. split; [split; [exact Hin|] | tauto].
      intros ->. apply Hnot. left. reflexivity.
Qed.

Lemma canFit_cells (gridSize : Z) (avail : list Cell) (cell : Cell) (k : Z) :
  canFit gridSize avail cell k = true ->
  forall c, In c (blockCells cell k) ->
    (row c < gridSize)%Z /\ (col c < gridSize)%Z /\ In c avail.
Proof.
  unfold canFit. rewrite forallb_forall. intros Hfit c Hc.
  specialize (Hfit c Hc). apply andb_true_iff in Hfit. destruct Hfit as [Hin Hex].
  apply negb_true_iff, orb_false_iff in Hin. destruct Hin as [Hr Hcl].
  rewrite Z.geb_leb in Hr, Hcl. apply Z.leb_gt in Hr. apply Z.leb_gt in Hcl.
  apply existsb_exists in Hex. destruct Hex as (c' & Hin' & Heq).
  apply cell_eqb_eq in Heq. subst c'. auto.
Qed.

(** Two overlapping grid-aligned squares have a cell in common. *)
Lemma squaresOverlap_common_cell (cs : Q) (a b : CanvasItem)
  (ca cb : Cell) (ka kb : Z) :
  0 < cs -> (1 <= ka)%Z -> (1 <= kb)%Z ->
  tileAt cs ca ka a -> tileAt cs cb kb b ->
  squaresOverlap a b ->
  exists c, In c (blockCells ca ka) /\ In c (blockCells cb kb).
Proof.
  intros Hcs Hka Hkb (Hxa & Hya & Hsa) (Hxb & Hyb & Hsb) (H1 & H2 & H3 & H4).
  assert (Hscale : forall u v w : Z,
            inject_Z u * cs < inject_Z v * cs + inject_Z w * cs -> (u < v + w)%Z).
  { intros u v w Hlt. rewrite Zlt_Qlt, inject_Z_plus.
    apply (Qmult_lt_r _ _ cs Hcs). lra. }
  assert (Hc1 : (col ca < col cb + kb)%Z) by (apply Hscale; lra).
  assert (Hc2 : (col cb < col ca + ka)%Z) by (apply Hscale; lra).
  assert (Hr1 : (row ca < row cb + kb)%Z) by (apply Hscale; lra).
  assert (Hr2 : (row cb < row ca + ka)%Z) by (apply Hscale; lra).
  exists (mkCell (Z.max (row ca) (row cb)) (Z.max (col ca) (col cb))).
  rewrite !In_blockCells. cbn [row col]. lia.
Qed.

Lemma pairwiseApart_snoc (l : list CanvasItem) (item : CanvasItem) :
  pairwiseApart l ->
  (forall a, In a l -> ~ squaresOverlap a item) ->
  pairwiseApart (l ++ [item]).
Proof.
  intros Hl Hnew i j a b Hij Ha Hb Hov.
  assert (Hsym : forall u v, squaresOverlap u v -> squaresOverlap v u)
    by (unfold squaresOverlap; tauto).
  destruct (Nat.lt_ge_cases i (List.length l)) as [Hi | Hi];
    destruct (Nat.lt_ge_cases j (List.length l)) as [Hj | Hj].
  - rewrite nth_error_app1 in Ha, Hb by assumption. exact (Hl i j a b Hij Ha Hb Hov).
  - rewrite nth_error_app1 in Ha by assumption.
    rewrite nth_error_app2 in Hb by assumption.
    destruct (j - List.length l)%nat as [|j']; cbn in Hb; [|destruct j'; discriminate].
    injection Hb as <-. apply (Hnew a); [eapply nth_error_In; eassumption | exact Hov].
  - rewrite nth_error_app2 in Ha by assumption.
    rewrite nth_error_app1 in Hb by assumption.
    destruct (i - List.length l)%nat as [|i']; cbn in Ha; [|destruct i'; discriminate].
    injection Ha as <-. apply (Hnew b); [eapply nth_error_In; eassumption | auto].
  - rewrite nth_error_app2 in Ha, Hb by assumption.
    destruct (i - List.length l)%nat as [|i'] eqn:Ei; cbn in Ha;
      [|destruct i'; discriminate].
    destruct (j - List.length l)%nat as [|j'] eqn:Ej; cbn in Hb;
      [|destruct j'; discriminate].
    lia.
Qed.

(** Reserving a free block and pushing its tile keeps the packing sound. *)
Lemma packingOK_place (cs : Q) (gridSize : Z) (p : Packing)
  (cell : Cell) (k : Z) (item : CanvasItem) (avail' : list Cell) :
  0 < cs -> (1 <= k <= 3)%Z ->
  packingOK cs gridSize p ->
  In cell (availableCells p) ->
  (forall c, In c (blockCells cell k) ->
     (row c < gridSize)%Z /\ (col c < gridSize)%Z /\ In c (availableCells p)) ->
  tileAt cs cell k item ->
  NoDup avail' ->
  (forall c, In c avail' -> In c (availableCells p)) ->
  (forall c, In c (blockCells cell k) -> ~ In c avail') ->
  packingOK cs gridSize (mkPacking avail' (newItems p ++ [item])).
Proof.
  intros Hcs Hk (Hnd & Hgrid & Htiles & Hapart) Hcell Hblock Htile Hnd' Hsub Hgone.
  unfold packingOK. cbn [availableCells newItems].
  split; [exact Hnd'|]. split; [intros c Hc; apply Hgrid, Hsub, Hc|]. split.
  - intros it Hit. apply in_app_or in Hit. destruct Hit as [Hit | [<- | []]].
    + destruct (Htiles it Hit) as (c0 & k0 & Ht & Hk0 & Hr0 & Hc0 & Hr1 & Hc1 & Hfree).
      exists c0, k0. split; [exact Ht|]. split; [lia|]. split; [lia|]. split; [lia|].
      split; [lia|]. split; [lia|].
      intros c Hc Hin. apply (Hfree c Hc). apply Hsub, Hin.
    + destruct (Hgrid cell Hcell) as [Hr Hc].
      assert (Hlast : In (mkCell (row cell + (k - 1)) (col cell + (k - 1)))
                         (blockCells cell k))
        by (apply In_blockCells; cbn [row col]; lia).
      destruct (Hblock _ Hlast) as (Hlr & Hlc & _). cbn [row col] in Hlr, Hlc.
      exists cell, k. split; [exact Htile|]. split; [lia|]. split; [lia|]. split; [lia|].
      split; [lia|]. split; [lia|]. exact Hgone.
  - apply pairwiseApart_snoc; [exact Hapart|].
    intros a Ha Hov.
    destruct (Htiles a Ha) as (c0 & k0 & Ht & Hk0 & _ & _ & _ & _ & Hfree).
    destruct (squaresOverlap_common_cell cs a item c0 cell k0 k Hcs
                ltac:(lia) ltac:(lia) Ht Htile Hov) as (c & Hc0 & Hc1).
    apply (Hfree c Hc0). apply (Hblock c Hc1).
Qed.

Lemma tryPlaceNFT_packingOK (cs : Q) (gridSize : Z) (genId : nat -> string)
  (a : NFT) (idx : Z) (sizeMultiplier : nat) (p : Packing) :
  0 < cs -> (sizeMultiplier <= 3)%nat ->
  packingOK cs gridSize p ->
  packingOK cs gridSize (fst (tryPlaceNFT cs gridSize genId a idx sizeMultiplier p)).
Proof.
  intros Hcs. induction sizeMultiplier as [|smaller IH]; intros Hle Hok; [exact Hok|].
  cbn [tryPlaceNFT].
  destruct (find _ (availableCells p)) as [cell|] eqn:Hfind; [|apply IH; [lia | exact Hok]].
  cbn [fst]. destruct (find_some _ _ Hfind) as [Hcell Hfit].
  pose proof (canFit_cells _ _ _ _ Hfit) as Hblock.
  destruct Hok as (Hnd & Hrest).
  destruct (removeCells_spec (blockCells cell (Z.of_nat (S smaller))) (availableCells p) Hnd)
    as [Hnd' Hin'].
  apply (packingOK_place cs gridSize p cell (Z.of_nat (S smaller))); auto.
  - lia.
  - split; assumption.
  - unfold tileAt. cbn [x y size]. split; [reflexivity|]. split; [reflexivity | ring].
  - intros c Hc. apply Hin' in Hc. tauto.
  - intros c Hc Hin. apply Hin' in Hin. tauto.
Qed.

Lemma placeEach_packingOK (cs : Q) (gridSize : Z) (genId : nat -> string)
  (tiles : list NFT) : forall idx p,
  0 < cs -> packingOK cs gridSize p ->
  packingOK cs gridSize (placeEach cs gridSize genId tiles idx p).
Proof.
  induction tiles as [|a rest IH]; intros idx p Hcs Hok; [exact Hok|].
  rewrite placeEach_cons. apply IH; [exact Hcs|].
  apply tryPlaceNFT_packingOK; auto.
Qed.

Lemma fillMinimum_packingOK (cs : Q) (gridSize : Z) (genId : nat -> string)
  (shuffled : list NFT) (dflt : NFT) (minCount : Z) :
  0 < cs ->
  forall cells placed fillerIndex,
    packingOK cs gridSize (mkPacking cells placed) ->
    exists rest,
      packingOK cs gridSize
        (mkPacking rest
           (fillMinimum cs genId shuffled dflt minCount cells placed fillerIndex)).
Proof.
  intros Hcs. induction cells as [|cell rest IH]; intros placed fi Hok.
  - exists []. exact Hok.
  - cbn [fillMinimum]. destruct (_ <? minCount)%Z; [|eexists; exact Hok].
    apply IH.
    pose proof Hok as (Hnd & Hgrid & _). cbn [availableCells] in Hnd, Hgrid.
    inversion Hnd as [|? ? Hnotin Hnd']; subst.
    apply (packingOK_place cs gridSize (mkPacking (cell :: rest) placed) cell 1); auto.
    + lia.
    + left. reflexivity.
    + intros c Hc. apply In_blockCells in Hc.
      assert (c = cell) by (destruct c, cell; cbn [row col] in *; f_equal; lia).
      subst c. destruct (Hgrid cell (or_introl eq_refl)). repeat split; try lia.
      left. reflexivity.
    + unfold tileAt. cbn [x y size]. split; [reflexivity|]. split; [reflexivity | ring].
    + intros c Hc. right. exact Hc.
    + intros c Hc Hin. apply In_blockCells in Hc.
      assert (c = cell) by (destruct c, cell; cbn [row col] in *; f_equal; lia).
      subst c. contradiction.
Qed.

Lemma NoDup_range (k : Z) : NoDup (range k).
Proof.
  unfold range. apply NoDup_map_NoDup_ForallPairs; [|apply seq_NoDup].
  intros i j _ _ Heq. lia.
Qed.

Lemma NoDup_grid (rows cols : list Z) :
  NoDup rows -> NoDup cols ->
  NoDup (flat_map (fun r => map (fun c => mkCell r c) cols) rows).
Proof.
  intros Hrows Hcols. induction Hrows as [|r rest Hnotin _ IH]; cbn [flat_map];
    [constructor|].
  apply NoDup_app; [|exact IH|].
  - apply NoDup_map_NoDup_ForallPairs; [|exact Hcols].
    intros c1 c2 _ _ Heq. congruence.
  - intros cell Hin Hin'. apply in_map_iff in Hin. destruct Hin as (c & <- & _).
    apply in_flat_map in Hin'. destruct Hin' as (r' & Hr' & Hc').
    apply in_map_iff in Hc'. destruct Hc' as (c' & Heq & _).
    injection Heq as -> _. contradiction.
Qed.

Lemma gridCells_packingOK (st : CanvasState) :
  packingOK (cellSize st) (Z.pos (gridColumns st)) (mkPacking (gridCells st) []).
Proof.
  unfold packingOK, gridCells. rewrite gridSize_columns. cbn [availableCells newItems].
  split; [apply NoDup_grid; apply NoDup_range|]. split; [|split].
  - intros c Hc. apply in_flat_map in Hc. destruct Hc as (r & Hr & Hc).
    apply in_map_iff in Hc. destruct Hc as (c' & <- & Hc).
    apply In_range in Hr, Hc. cbn [row col]. lia.
  - intros item [].
  - intros i j a b _ Ha. destruct i; discriminate.
Qed.

Lemma bulkPlacements_packingOK (st : CanvasState) (shuffledNFTs : list NFT)
  (dflt : NFT) (minCount : Z) (genId : nat -> string) :
  exists rest,
    packingOK (cellSize st) (Z.pos (gridColumns st))
      (mkPacking rest (bulkPlacements st shuffledNFTs dflt minCount genId)).
Proof.
  unfold bulkPlacements. rewrite gridSize_columns.
  pose proof (gridCells_packingOK st) as H0. unfold gridCells in H0.
  rewrite gridSize_columns in H0.
  pose proof (placeEach_packingOK (cellSize st) (Z.pos (gridColumns st)) genId
                shuffledNFTs 0 _ (cellSize_pos st) H0) as H1.
  set (p := placeEach _ _ _ _ _ _) in *.
  destruct (_ <? minCount)%Z.
  - apply fillMinimum_packingOK; [apply cellSize_pos|]. destruct p; exact H1.
  - exists (availableCells p). destruct p; exact H1.
Qed.

Lemma run_gridColumns (us : list Update) : forall st,
  gridColumns (run st us) = gridColumns st.
Proof.
  unfold run. induction us as [|u rest IH]; intros st; [reflexivity|].
  cbn [fold_left]. rewrite IH. destruct st, u; reflexivity.
Qed.

Lemma In_gridCells (st : CanvasState) (cell : Cell) :
  In cell (gridCells st)
  <-> (0 <= row cell < Z.pos (gridColumns st))%Z
      /\ (0 <= col cell < Z.pos (gridColumns st))%Z.
Proof.
  unfold gridCells. rewrite gridSize_columns, in_flat_map. split.
  - intros (r & Hr & Hc). apply in_map_iff in Hc. destruct Hc as (c & <- & Hc).
    apply In_range in Hr, Hc. cbn [row col]. lia.
  - intros [Hr Hc]. exists (row cell). split; [apply In_range; lia|].
    apply in_map_iff. exists (col cell). split; [destruct cell; reflexivity|].
    apply In_range. lia.
Qed.

(** A square of whole cells covers the cell of its top-left corner. *)
Lemma tileAt_footprint (st : CanvasState) (cell : Cell) (k : Z) (item : CanvasItem) :
  tileAt (cellSize st) cell k item -> (1 <= k)%Z ->
  (0 <= row cell < Z.pos (gridColumns st))%Z ->
  (0 <= col cell < Z.pos (gridColumns st))%Z ->
  In cell (footprint st item).
Proof.
  intros (Hx & Hy & Hs) Hk Hr Hc. unfold footprint. apply filter_In.
  split; [apply In_gridCells; auto|].
  pose proof (cellSize_pos st) as Hcs.
  assert (Hside : cellSize st <= inject_Z k * cellSize st).
  { assert (H1 : 1 <= inject_Z k)
      by (change 1 with (inject_Z 1); rewrite <- Zle_Qle; lia).
    pose proof (Qmult_le_compat_r _ _ (cellSize st) H1 (Qlt_le_weak _ _ Hcs)) as Hm.
    lra. }
  unfold covers. rewrite !andb_true_iff, !Qltb_lt. repeat split; lra.
Qed.

(** C3: on an empty twelve-column canvas, [addMultipleNFTs] with five assets
    and minCount = 8 leaves exactly eight items, whatever order the shuffle
    produced and whatever identifiers were generated, and no grid cell is
    covered by the squares of two of them.  Every one of the eight is a
    square of one, two or three cells a side whose corner is a cell of the
    grid and which does not leave the grid, and it covers at least the cell
    of its corner. *)
Theorem addMultipleNFTs_five_of_eight
  (nftsToAdd shuffledNFTs : list NFT) (genId : nat -> string) (st : CanvasState) :
  List.length nftsToAdd = 5%nat ->
  Permutation nftsToAdd shuffledNFTs ->
  gridColumns st = 12%positive ->
  items st = [] ->
  let st' := dispatch (addMultipleNFTs nftsToAdd shuffledNFTs 8 genId) st in
  List.length (items st') = 8%nat
  /\ (forall i j a b, i <> j ->
        nth_error (items st') i = Some a -> nth_error (items st') j = Some b ->
        forall cell, In cell (footprint st' a) -> ~ In cell (footprint st' b))
  /\ (forall item, In item (items st') ->
        footprint st' item <> []
        /\ exists cell k,
             tileAt (cellSize st') cell k item /\ (1 <= k <= 3)%Z
             /\ (0 <= row cell)%Z /\ (0 <= col cell)%Z
             /\ (row cell + k <= 12)%Z /\ (col cell + k <= 12)%Z
             /\ In cell (footprint st' item)).
Proof.
  intros Hlen Hperm Hcols Hempty st'.
  assert (Hshape : forall item, In item (items st') ->
            footprint st' item <> []
            /\ exists cell k,
                 tileAt (cellSize st') cell k item /\ (1 <= k <= 3)%Z
                 /\ (0 <= row cell)%Z /\ (0 <= col cell)%Z
                 /\ (row cell + k <= 12)%Z /\ (col cell + k <= 12)%Z
                 /\ In cell (footprint st' item)).
  { assert (Hcols' : gridColumns st' = gridColumns st) by apply run_gridColumns.
    assert (Hcs : cellSize st' = cellSize st) by (unfold cellSize; rewrite Hcols'; reflexivity).
    destruct nftsToAdd as [|dflt others]; [discriminate|].
    destruct (addMultipleNFTs_result dflt others shuffledNFTs 8 genId st) as [Hres _].
    fold st' in Hres. rewrite Hres.
    destruct (bulkPlacements_packingOK st shuffledNFTs dflt 8 genId)
      as (rest & _ & _ & Htiles & _).
    cbn [newItems availableCells] in Htiles.
    intros item Hin.
    destruct (Htiles item Hin) as (cell & k & Ht & Hk & Hr0 & Hc0 & Hr1 & Hc1 & _).
    rewrite Hcols in Hr1, Hc1.
    assert (Hcell : In cell (footprint st' item)).
    { apply (tileAt_footprint st' cell k item); rewrite ?Hcs, ?Hcols', ?Hcols;
        [exact Ht | lia | lia | lia]. }
    split; [intros Hnil; rewrite Hnil in Hcell; destruct Hcell|].
    exists cell, k. rewrite Hcs.
    split; [exact Ht|]. split; [lia|]. split; [lia|]. split; [lia|].
    split; [lia|]. split; [lia | exact Hcell]. }
  pose proof (Permutation_length Hperm) as Hlen'. rewrite Hlen in Hlen'.
  destruct nftsToAdd as [|n1 [|n2 [|n3 [|n4 [|n5 [|n6 more]]]]]]; try discriminate.
  destruct shuffledNFTs as [|s1 [|s2 [|s3 [|s4 [|s5 [|s6 more]]]]]]; try discriminate.
  destruct st as [its cols act snap hist idx drag rsz dir start init].
  cbn in Hcols, Hempty. subst cols its.
  assert (Hcheck : List.length (items st') = 8%nat
                   /\ pairwiseDisjointb st' (items st') = true).
  { subst st'. unfold dispatch, addMultipleNFTs, bulkPlacements, saveToHistory.
    rewrite !placeEach_cons. cbn [historyIndex history].
    destruct (idx <? Z.of_nat (List.length hist) - 1)%Z; split; vm_compute; reflexivity. }
  destruct Hcheck as [Hcount Hdisjoint]. split; [exact Hcount|].
  split; [|exact Hshape].
  apply pairwiseDisjointb_sound. exact Hdisjoint.
Qed.

Lemma addMultipleNFTs_five_of_eight_witness :
  let st' := dispatch (addMultipleNFTs fiveNFTs fiveNFTs 8 (fun _ => "nft-0"%string))
                      initialState in
  List.length (items st') = 8%nat
  /\ (forall i j a b, i <> j ->
        nth_error (items st') i = Some a -> nth_error (items st') j = Some b ->
        forall cell, In cell (footprint st' a) -> ~ In cell (footprint st' b))
  /\ (forall item, In item (items st') ->
        footprint st' item <> []
        /\ exists cell k,
             tileAt (cellSize st') cell k item /\ (1 <= k <= 3)%Z
             /\ (0 <= row cell)%Z /\ (0 <= col cell)%Z
             /\ (row cell + k <= 12)%Z /\ (col cell + k <= 12)%Z
             /\ In cell (footprint st' item)).
Proof.
  apply (addMultipleNFTs_five_of_eight fiveNFTs fiveNFTs (fun _ => "nft-0"%string)
           initialState).
  - reflexivity.
  - apply Permutation_refl.
  - reflexivity.
  - reflexivity.
Defined.

(** On this input the eight tiles cover 5 * 9 + 3 cells of the grid. *)
Example addMultipleNFTs_five_of_eight_cells :
  let st' := dispatch (addMultipleNFTs fiveNFTs fiveNFTs 8 (fun _ => "nft-0"%string))
                      initialState in
  map (fun item => List.length (footprint st' item)) (items st')
  = [9; 9; 9; 9; 9; 1; 1; 1]%nat.
Proof. vm_compute. reflexivity. Qed.

(** Two grid-aligned squares with a cell in common overlap. *)
Lemma common_cell_squaresOverlap (cs : Q) (a b : CanvasItem)
  (ca cb : Cell) (ka kb : Z) (c : Cell) :
  0 < cs ->
  tileAt cs ca ka a -> tileAt cs cb kb b ->
  In c (blockCells ca ka) -> In c (blockCells cb kb) ->
  squaresOverlap a b.
Proof.
  intros Hcs (Hxa & Hya & Hsa) (Hxb & Hyb & Hsb) Hina Hinb.
  apply In_blockCells in Hina, Hinb.
  assert (Hscale : forall u v w : Z,
            (u < v + w)%Z -> inject_Z u * cs < inject_Z v * cs + inject_Z w * cs).
  { intros u v w Hlt. rewrite Zlt_Qlt, inject_Z_plus in Hlt.
    apply (Qmult_lt_r _ _ cs Hcs) in Hlt. lra. }
  assert (H1 := Hscale (col ca) (col cb) kb ltac:(lia)).
  assert (H2 := Hscale (col cb) (col ca) ka ltac:(lia)).
  assert (H3 := Hscale (row ca) (row cb) kb ltac:(lia)).
  assert (H4 := Hscale (row cb) (row ca) ka ltac:(lia)).
  unfold squaresOverlap. repeat split; lra.
Qed.

(** X10: whatever the grid, the input, its order and the requested minimum,
    every tile [addMultipleNFTs] stores is a square of one, two or three
    cells a side whose corner is a cell of the grid and which does not
    leave the grid, and the blocks of cells of two tiles have no cell in
    common.  On the grids of 4, 8, 10 and 16 columns, where the cell size
    is a binary fraction, every tile lies inside the canvas and no two of
    them overlap. *)
Theorem addMultipleNFTs_tiles_apart
  (nftsToAdd shuffledNFTs : list NFT) (minCount : Z) (genId : nat -> string)
  (st : CanvasState) :
  nftsToAdd <> [] ->
  let placed := items (dispatch (addMultipleNFTs nftsToAdd shuffledNFTs minCount genId) st) in
  (forall item, In item placed ->
     exists cell k,
       tileAt (cellSize st) cell k item /\ (1 <= k <= 3)%Z
       /\ (0 <= row cell)%Z /\ (0 <= col cell)%Z
       /\ (row cell + k <= Z.pos (gridColumns st))%Z
       /\ (col cell + k <= Z.pos (gridColumns st))%Z)
  /\ (forall i j a b ca cb ka kb, i <> j ->
        nth_error placed i = Some a -> nth_error placed j = Some b ->
        tileAt (cellSize st) ca ka a -> tileAt (cellSize st) cb kb b ->
        forall c, In c (blockCells ca ka) -> ~ In c (blockCells cb kb))
  /\ (In (gridColumns st) exactColumns ->
      Forall inBounds placed /\ pairwiseApart placed).
Proof.
  intros Hne. destruct nftsToAdd as [|dflt others]; [congruence|].
  cbn zeta.
  destruct (addMultipleNFTs_result dflt others shuffledNFTs minCount genId st) as [-> _].
  destruct (bulkPlacements_packingOK st shuffledNFTs dflt minCount genId)
    as (rest & _ & _ & Htiles & Hapart).
  cbn [newItems availableCells] in Htiles, Hapart.
  pose proof (cellSize_pos st) as Hcs.
  assert (Hshape : forall item,
            In item (bulkPlacements st shuffledNFTs dflt minCount genId) ->
            exists cell k,
              tileAt (cellSize st) cell k item /\ (1 <= k <= 3)%Z
              /\ (0 <= row cell)%Z /\ (0 <= col cell)%Z
              /\ (row cell + k <= Z.pos (gridColumns st))%Z
              /\ (col cell + k <= Z.pos (gridColumns st))%Z).
  { intros item Hin.
    destruct (Htiles item Hin) as (cell & k & Ht & Hk & Hr0 & Hc0 & Hr1 & Hc1 & _).
    exists cell, k. tauto. }
  split; [exact Hshape|]. split.
  - intros i j a b ca cb ka kb Hij Ha Hb Hta Htb c Hca Hcb.
    apply (Hapart i j a b Hij Ha Hb).
    apply (common_cell_squaresOverlap (cellSize st) a b ca cb ka kb c); assumption.
  - intros _. split; [|exact Hapart].
    apply Forall_forall. intros item Hin.
    destruct (Hshape item Hin) as (cell & k & (Hx & Hy & Hs) & Hk & Hr0 & Hc0 & Hr1 & Hc1).
    pose proof (hundred_cells st) as H100.
    set (cols := Z.pos (gridColumns st)) in *.
    assert (Hbound : forall i, (0 <= i)%Z -> (i + k <= cols)%Z ->
              0 <= inject_Z i * cellSize st
              /\ inject_Z i * cellSize st + inject_Z k * cellSize st <= 100).
    { intros i Hi0 Hi1.
      assert (H0 : 0 <= inject_Z i)
        by (change 0 with (inject_Z 0); rewrite <- Zle_Qle; lia).
      assert (H1 : inject_Z (i + k) <= inject_Z cols) by (rewrite <- Zle_Qle; lia).
      rewrite inject_Z_plus in H1.
      split; [apply Qmult_le_0_compat; lra|].
      assert (Hmul : (inject_Z i + inject_Z k) * cellSize st <= inject_Z cols * cellSize st)
        by (apply Qmult_le_compat_r; lra).
      lra. }
    destruct (Hbound _ Hr0 Hr1). destruct (Hbound _ Hc0 Hc1).
    unfold inBounds. repeat split; lra.
Qed.

Lemma addMultipleNFTs_tiles_apart_witness :
  let placed :=
    items (dispatch (addMultipleNFTs fiveNFTs fiveNFTs 40 (fun _ => "nft-0"%string))
                    threeAdded) in
  (forall item, In item placed ->
     exists cell k,
       tileAt (cellSize threeAdded) cell k item /\ (1 <= k <= 3)%Z
       /\ (0 <= row cell)%Z /\ (0 <= col cell)%Z
       /\ (row cell + k <= Z.pos (gridColumns threeAdded))%Z
       /\ (col cell + k <= Z.pos (gridColumns threeAdded))%Z)
  /\ (forall i j a b ca cb ka kb, i <> j ->
        nth_error placed i = Some a -> nth_error placed j = Some b ->
        tileAt (cellSize threeAdded) ca ka a -> tileAt (cellSize threeAdded) cb kb b ->
        forall c, In c (blockCells ca ka) -> ~ In c (blockCells cb kb))
  /\ (In (gridColumns threeAdded) exactColumns ->
      Forall inBounds placed /\ pairwiseApart placed).
Proof.
  apply (addMultipleNFTs_tiles_apart fiveNFTs fiveNFTs 40 (fun _ => "nft-0"%string)
           threeAdded).
  discriminate.
Defined.

(** ** How many tiles the bulk placement stores *)

Lemma length_removeCell (t : Cell) (l : list Cell) :
  (List.length (removeCell t l) <= List.length l
   /\ List.length l <= S (List.length (removeCell t l)))%nat.
Proof.
  induction l as [|hd rest [IH1 IH2]]; cbn [removeCell]; [cbn; lia|].
  destruct (cell_eqb hd t); cbn [List.length]; lia.
Qed.

Lemma length_removeCells (ts : list Cell) : forall l,
  (List.length l
   <= List.length (fold_left (fun acc t => removeCell t acc) ts l) + List.length ts)%nat.
Proof.
  induction ts as [|t rest IH]; intros l; cbn [fold_left List.length]; [lia|].
  specialize (IH (removeCell t l)). pose proof (length_removeCell t l). lia.
Qed.

Lemma length_rows_cols {A} (g : Z -> Z -> A) (rows cols : list Z) :
  List.length (flat_map (fun r => map (g r) cols) rows)
  = (List.length rows * List.length cols)%nat.
Proof.
  induction rows as [|r rest IH]; cbn [flat_map List.length]; [reflexivity|].
  rewrite length_app, length_map, IH. lia.
Qed.

Lemma length_range (k : Z) : List.length (range k) = Z.to_nat k.
Proof. unfold range. rewrite length_map, length_seq. reflexivity. Qed.

Lemma length_blockCells (cell : Cell) (k : Z) :
  List.length (blockCells cell k) = (Z.to_nat k * Z.to_nat k)%nat.
Proof.
  unfold blockCells.
  rewrite (length_rows_cols (fun r c => mkCell (row cell + r) (col cell + c))).
  rewrite length_range. reflexivity.
Qed.

Lemma canFit_single (gridSize : Z) (avail : list Cell) (cell : Cell) :
  In cell avail -> (row cell < gridSize)%Z -> (col cell < gridSize)%Z ->
  canFit gridSize avail cell 1 = true.
Proof.
  intros Hin Hr Hc. unfold canFit. apply forallb_forall. intros c Hblock.
  apply In_blockCells in Hblock.
  assert (c = cell) by (destruct c, cell; cbn [row col] in *; f_equal; lia).
  subst c. apply andb_true_iff. split.
  - apply negb_true_iff, orb_false_iff. rewrite !Z.geb_leb. split; apply Z.leb_gt; lia.
  - apply existsb_exists. exists cell. split; [exact Hin | apply cell_eqb_eq; reflexivity].
Qed.

(** One call of [tryPlaceNFT]: nothing changes, or one tile is pushed and
    between one and nine cells are reserved; a tile is pushed whenever a cell
    is available. *)
Lemma tryPlaceNFT_step (cs : Q) (gridSize : Z) (genId : nat -> string)
  (a : NFT) (idx : Z) (p : Packing) :
  packingOK cs gridSize p ->
  forall sizeMultiplier, (sizeMultiplier <= 3)%nat ->
  let p' := fst (tryPlaceNFT cs gridSize genId a idx sizeMultiplier p) in
  ((List.length (newItems p') = List.length (newItems p)
    /\ List.length (availableCells p') = List.length (availableCells p))
   \/ (List.length (newItems p') = S (List.length (newItems p))
       /\ List.length (availableCells p') < List.length (availableCells p)
       /\ List.length (availableCells p) <= List.length (availableCells p') + 9))%nat
  /\ ((1 <= sizeMultiplier)%nat -> availableCells p <> [] ->
      List.length (newItems p') = S (List.length (newItems p))).
Proof.
  intros Hok. induction sizeMultiplier as [|smaller IH]; intros Hle; cbn zeta.
  - cbn [tryPlaceNFT fst]. split; [auto | lia].
  - cbn [tryPlaceNFT].
    destruct (find _ (availableCells p)) as [cell|] eqn:Hfind.
    + cbn [fst newItems availableCells].
      destruct (find_some _ _ Hfind) as [Hcell Hfit].
      destruct Hok as (Hnd & _).
      set (block := blockCells cell (Z.of_nat (S smaller))) in *.
      destruct (removeCells_spec block (availableCells p) Hnd) as [Hnd' Hin'].
      pose proof (length_removeCells block (availableCells p)) as Hlen.
      set (avail' := fold_left (fun acc t => removeCell t acc) block (availableCells p)) in *.
      assert (Hblock : (List.length block <= 9)%nat).
      { unfold block. rewrite length_blockCells. rewrite Nat2Z.id. nia. }
      assert (Hself : In cell block).
      { unfold block. apply In_blockCells. lia. }
      assert (Hstrict : (S (List.length avail') <= List.length (availableCells p))%nat).
      { apply (NoDup_incl_length (l := cell :: avail')).
        - constructor; [|exact Hnd']. intros Hin. apply Hin' in Hin. tauto.
        - intros c [<- | Hc]; [exact Hcell|]. apply Hin' in Hc. tauto. }
      rewrite length_app. cbn [List.length]. split; [right; lia | lia].
    + destruct (IH ltac:(lia)) as [Hcase Hsucc]. cbn zeta in Hcase, Hsucc.
      split; [exact Hcase|]. intros _ Hne.
      destruct smaller as [|smaller'].
      * exfalso. destruct (availableCells p) as [|cell rest] eqn:Havail; [congruence|].
        destruct Hok as (_ & Hgrid & _). rewrite Havail in Hgrid.
        destruct (Hgrid cell (or_introl eq_refl)) as [Hr Hc].
        pose proof (find_none _ _ Hfind cell (or_introl eq_refl)) as Hnone.
        cbn beta in Hnone. change (Z.of_nat 1) with 1%Z in Hnone.
        rewrite canFit_single in Hnone; [discriminate | left; reflexivity | lia | lia].
      * apply Hsucc; [lia | exact Hne].
Qed.

Lemma placeEach_lengths (cs : Q) (gridSize : Z) (genId : nat -> string)
  (tiles : list NFT) : forall idx p,
  0 < cs -> packingOK cs gridSize p ->
  let p' := placeEach cs gridSize genId tiles idx p in
  (List.length (newItems p') <= List.length (newItems p) + List.length tiles
   /\ List.length (newItems p') + List.length (availableCells p')
      <= List.length (newItems p) + List.length (availableCells p)
   /\ (9 * List.length tiles <= List.length (availableCells p) + 8 ->
       List.length (newItems p') = List.length (newItems p) + List.length tiles
       /\ List.length (availableCells p)
          <= List.length (availableCells p') + 9 * List.length tiles))%nat.
Proof.
  induction tiles as [|a rest IH]; intros idx p Hcs Hok; cbn zeta.
  - cbn [placeEach List.length]. lia.
  - rewrite placeEach_cons.
    pose proof (tryPlaceNFT_packingOK cs gridSize genId a idx 3 p Hcs (le_n 3) Hok) as Hok1.
    destruct (tryPlaceNFT_step cs gridSize genId a idx p Hok 3%nat (le_n 3))
      as [Hcase Hsucc]. cbn zeta in Hcase, Hsucc.
    set (p1 := fst (tryPlaceNFT cs gridSize genId a idx 3 p)) in *.
    destruct (IH (idx + 1)%Z p1 Hcs Hok1) as (H1 & H2 & H3). cbn zeta in H1, H2, H3.
    cbn [List.length].
    split; [lia|]. split; [lia|]. intros Hroom.
    assert (Hne : availableCells p <> []).
    { intros Hnil. rewrite Hnil in Hroom. cbn [List.length] in Hroom. lia. }
    specialize (Hsucc ltac:(lia) Hne).
    assert (Hroom1 : (9 * List.length rest <= List.length (availableCells p1) + 8)%nat) by lia.
    destruct (H3 Hroom1). lia.
Qed.

Lemma fillMinimum_length (cs : Q) (genId : nat -> string) (shuffled : list NFT)
  (dflt : NFT) (minCount : Z) (cells : list Cell) :
  forall placed fillerIndex,
    Z.of_nat (List.length (fillMinimum cs genId shuffled dflt minCount cells placed fillerIndex))
    = Z.max (Z.of_nat (List.length placed))
            (Z.min minCount (Z.of_nat (List.length placed + List.length cells))).
Proof.
  induction cells as [|cell rest IH]; intros placed fi; cbn [fillMinimum List.length].
  - lia.
  - destruct (Z.ltb_spec (Z.of_nat (List.length placed)) minCount).
    + rewrite IH, length_app. cbn [List.length]. lia.
    + lia.
Qed.

(** The number of stored tiles, from the number placed in step 1 and the
    number of cells still available after it. *)
Lemma bulkPlacements_length (st : CanvasState) (shuffledNFTs : list NFT)
  (dflt : NFT) (minCount : Z) (genId : nat -> string) :
  exists placed1 avail1 : nat,
    Z.of_nat (List.length (bulkPlacements st shuffledNFTs dflt minCount genId))
    = Z.max (Z.of_nat placed1) (Z.min minCount (Z.of_nat (placed1 + avail1)))
    /\ (placed1 <= List.length shuffledNFTs)%nat
    /\ (Z.of_nat (placed1 + avail1) <= Z.pos (gridColumns st) * Z.pos (gridColumns st))%Z
    /\ ((9 * Z.of_nat (List.length shuffledNFTs)
         <= Z.pos (gridColumns st) * Z.pos (gridColumns st) + 8)%Z ->
        placed1 = List.length shuffledNFTs
        /\ (Z.pos (gridColumns st) * Z.pos (gridColumns st)
            <= Z.of_nat avail1 + 9 * Z.of_nat (List.length shuffledNFTs))%Z).
Proof.
  unfold bulkPlacements. rewrite gridSize_columns.
  pose proof (gridCells_packingOK st) as H0. unfold gridCells in H0.
  rewrite gridSize_columns in H0.
  set (allCells := flat_map _ (range (Z.pos (gridColumns st)))) in *.
  assert (Hall : Z.of_nat (List.length allCells)
                 = (Z.pos (gridColumns st) * Z.pos (gridColumns st))%Z).
  { unfold allCells. rewrite (length_rows_cols (fun r c => mkCell r c)), length_range. lia. }
  destruct (placeEach_lengths (cellSize st) (Z.pos (gridColumns st)) genId shuffledNFTs
              0 (mkPacking allCells []) (cellSize_pos st) H0) as (H1 & H2 & H3).
  cbn zeta in H1, H2, H3. cbn [newItems availableCells List.length] in H1, H2, H3.
  set (p := placeEach _ _ _ _ _ _) in *.
  exists (List.length (newItems p)), (List.length (availableCells p)).
  split; [|split; [lia | split; [lia|]]].
  - destruct (Z.ltb_spec (Z.of_nat (List.length (newItems p))) minCount).
    + apply fillMinimum_length.
    + lia.
  - intros Hroom. destruct H3 as [H3a H3b]; [lia|]. split; lia.
Qed.

(** X11: [addMultipleNFTs] never stores more tiles than the larger of the
    number of input NFTs and the requested minimum, nor more tiles than the
    grid has cells. *)
Theorem addMultipleNFTs_count_bounds
  (nftsToAdd shuffledNFTs : list NFT) (minCount : Z) (genId : nat -> string)
  (st : CanvasState) :
  nftsToAdd <> [] ->
  Permutation nftsToAdd shuffledNFTs ->
  let count :=
    Z.of_nat (List.length
      (items (dispatch (addMultipleNFTs nftsToAdd shuffledNFTs minCount genId) st))) in
  (count <= Z.max (Z.of_nat (List.length nftsToAdd)) minCount)%Z
  /\ (count <= Z.pos (gridColumns st) * Z.pos (gridColumns st))%Z.
Proof.
  intros Hne Hperm. destruct nftsToAdd as [|dflt others]; [congruence|].
  cbn zeta.
  destruct (addMultipleNFTs_result dflt others shuffledNFTs minCount genId st) as [-> _].
  destruct (bulkPlacements_length st shuffledNFTs dflt minCount genId)
    as (placed1 & avail1 & -> & Hle & Hcells & _).
  rewrite (Permutation_length Hperm). lia.
Qed.

Lemma addMultipleNFTs_count_bounds_witness :
  let count :=
    Z.of_nat (List.length
      (items (dispatch (addMultipleNFTs fiveNFTs fiveNFTs 200 (fun _ => "nft-0"%string))
                       threeAdded))) in
  (count <= Z.max (Z.of_nat (List.length fiveNFTs)) 200)%Z
  /\ (count <= Z.pos (gridColumns threeAdded) * Z.pos (gridColumns threeAdded))%Z.
Proof.
  apply (addMultipleNFTs_count_bounds fiveNFTs fiveNFTs 200 (fun _ => "nft-0"%string)
           threeAdded).
  - discriminate.
  - apply Permutation_refl.
Defined.

(** X12: when the grid has nine cells for every input NFT and, besides
    eight cells per NFT, as many cells as the requested minimum,
    [addMultipleNFTs] places every NFT and stores exactly the larger of the
    number of NFTs and the requested minimum. *)
Theorem addMultipleNFTs_count_with_room
  (nftsToAdd shuffledNFTs : list NFT) (minCount : Z) (genId : nat -> string)
  (st : CanvasState) :
  nftsToAdd <> [] ->
  Permutation nftsToAdd shuffledNFTs ->
  (9 * Z.of_nat (List.length nftsToAdd)
   <= Z.pos (gridColumns st) * Z.pos (gridColumns st))%Z ->
  (minCount + 8 * Z.of_nat (List.length nftsToAdd)
   <= Z.pos (gridColumns st) * Z.pos (gridColumns st))%Z ->
  Z.of_nat (List.length
    (items (dispatch (addMultipleNFTs nftsToAdd shuffledNFTs minCount genId) st)))
  = Z.max (Z.of_nat (List.length nftsToAdd)) minCount.
Proof.
  intros Hne Hperm Hroom Hmin. destruct nftsToAdd as [|dflt others]; [congruence|].
  destruct (addMultipleNFTs_result dflt others shuffledNFTs minCount genId st) as [-> _].
  destruct (bulkPlacements_length st shuffledNFTs dflt minCount genId)
    as (placed1 & avail1 & -> & Hle & Hcells & Hall).
  rewrite <- (Permutation_length Hperm) in Hall.
  destruct Hall as [-> Havail]; lia.
Qed.

Lemma addMultipleNFTs_count_with_room_witness :
  Z.of_nat (List.length
    (items (dispatch (addMultipleNFTs fiveNFTs fiveNFTs 8 (fun _ => "nft-0"%string))
                     initialState)))
  = Z.max (Z.of_nat (List.length fiveNFTs)) 8.
Proof.
  apply (addMultipleNFTs_count_with_room fiveNFTs fiveNFTs 8 (fun _ => "nft-0"%string)
           initialState).
  - discriminate.
  - apply Permutation_refl.
  - cbn. lia.
  - cbn. lia.
Defined.

(** ** Filling the blank tiles *)

Lemma fillLoop_spec (cs : Q) (genId : nat -> string) (shuffled : list NFT) (dflt : NFT)
  (cells : list Cell) :
  forall placed nftIndex,
    (nftIndex < List.length shuffled)%nat ->
    exists added,
      fillLoop cs genId shuffled dflt cells placed nftIndex = placed ++ added
      /\ Forall2 (fun cell item =>
                    tileAt cs cell 1 item /\ In (nft item) shuffled
                    /\ (cropX item, cropY item, cropWidth item, cropHeight item)
                       = (0, 0, 100, 100))
                 cells added.
Proof.
  induction cells as [|cell rest IH]; intros placed nftIndex Hidx; cbn [fillLoop].
  - exists []. rewrite app_nil_r. split; [reflexivity | constructor].
  - destruct (Nat.ltb_spec nftIndex (List.length shuffled)); [|lia].
    set (nextIndex := if (List.length shuffled <=? S nftIndex)%nat then 0%nat
                      else S nftIndex).
    assert (Hnext : (nextIndex < List.length shuffled)%nat).
    { unfold nextIndex. destruct (Nat.leb_spec (List.length shuffled) (S nftIndex)); lia. }
    set (item := mkItem _ _ _ _ _ _ _ _ _ _).
    destruct (IH (placed ++ [item]) nextIndex Hnext) as (added & -> & Hall).
    exists (item :: added). rewrite <- app_assoc. split; [reflexivity|].
    constructor; [|exact Hall].
    split; [|split; [apply nth_In; assumption | reflexivity]].
    unfold tileAt. cbn [x y size item]. split; [reflexivity|].
    split; [reflexivity | ring].
Qed.

(** A cell whose square shares an area with the square of an item of the
    canvas is one of the occupied cells. *)
Lemma overlapped_cell_occupied (st : CanvasState) (old item : CanvasItem) (cell : Cell) :
  In old (items st) ->
  tileAt (cellSize st) cell 1 item ->
  squaresOverlap old item ->
  In cell (occupiedCells st).
Proof.
  intros Hold (Hx & Hy & Hs) (H1 & H2 & H3 & H4).
  pose proof (cellSize_pos st) as Hcs. change (inject_Z 1) with 1 in Hs.
  unfold occupiedCells. apply in_flat_map. exists old. split; [exact Hold|].
  apply in_flat_map. exists (row cell). split.
  - apply In_rangeIncl. unfold Math_floor. split.
    + assert (Hlt : y old / cellSize st < inject_Z (row cell + 1)).
      { apply Qlt_shift_div_r; [exact Hcs|]. rewrite inject_Z_plus.
        change (inject_Z 1) with 1. lra. }
      pose proof (Qfloor_le (y old / cellSize st)) as Hf.
      assert (Hz : inject_Z (Qfloor (y old / cellSize st)) < inject_Z (row cell + 1))
        by lra.
      rewrite <- Zlt_Qlt in Hz. lia.
    + assert (Hle : inject_Z (row cell) <= (y old + size old) / cellSize st).
      { apply Qle_shift_div_l; [exact Hcs | lra]. }
      apply Qfloor_resp_le in Hle. rewrite Qfloor_Z in Hle. exact Hle.
  - apply in_map_iff. exists (col cell). split; [destruct cell; reflexivity|].
    apply In_rangeIncl. unfold Math_floor. split.
    + assert (Hlt : x old / cellSize st < inject_Z (col cell + 1)).
      { apply Qlt_shift_div_r; [exact Hcs|]. rewrite inject_Z_plus.
        change (inject_Z 1) with 1. lra. }
      pose proof (Qfloor_le (x old / cellSize st)) as Hf.
      assert (Hz : inject_Z (Qfloor (x old / cellSize st)) < inject_Z (col cell + 1))
        by lra.
      rewrite <- Zlt_Qlt in Hz. lia.
    + assert (Hle : inject_Z (col cell) <= (x old + size old) / cellSize st).
      { apply Qle_shift_div_l; [exact Hcs | lra]. }
      apply Qfloor_resp_le in Hle. rewrite Qfloor_Z in Hle. exact Hle.
Qed.

Lemma In_freeCells (st : CanvasState) (cell : Cell) :
  In cell (freeCells st)
  <-> ((0 <= row cell < Z.pos (gridColumns st))%Z
       /\ (0 <= col cell < Z.pos (gridColumns st))%Z)
      /\ ~ In cell (occupiedCells st).
Proof.
  unfold freeCells, gridCells. rewrite filter_In, gridSize_columns, in_flat_map.
  rewrite negb_true_iff. split.
  - intros [(r & Hr & Hc) Hfree]. apply in_map_iff in Hc. destruct Hc as (c & <- & Hc).
    apply In_range in Hr, Hc. cbn [row col]. split; [lia|].
    intros Hin. assert (Hex : existsb (cell_eqb (mkCell r c)) (occupiedCells st) = true).
    { apply existsb_exists. eexists. split; [exact Hin | apply cell_eqb_eq; reflexivity]. }
    congruence.
  - intros [[Hr Hc] Hfree]. split.
    + exists (row cell). split; [apply In_range; lia|].
      apply in_map_iff. exists (col cell). split; [destruct cell; reflexivity|].
      apply In_range. lia.
    + destruct (existsb (cell_eqb cell) (occupiedCells st)) eqn:Hex; [|reflexivity].
      apply existsb_exists in Hex. destruct Hex as (c & Hin & Heq).
      apply cell_eqb_eq in Heq. subst c. contradiction.
Qed.

(** X13: on a grid of 4, 8, 10 or 16 columns whose tiles are squares of
    whole cells, the free cells of [fillBlankTiles] are the cells of the
    grid outside the cells of every tile and the column and the row next to
    it.  With a non-empty pool, [fillBlankTiles] keeps the items of the
    canvas as they are and appends one tile of one cell for every free cell,
    in the order of the shuffled cells and with NFTs of the pool; each new
    tile lies inside the canvas and overlaps no item that was on the
    canvas. *)
Theorem fillBlankTiles_fills_free_cells
  (nfts shuffledNFTs : list NFT) (shuffledCells : list Cell) (genId : nat -> string)
  (st : CanvasState) :
  In (gridColumns st) exactColumns ->
  Forall (onGrid st) (items st) ->
  nfts <> [] ->
  Permutation nfts shuffledNFTs ->
  Permutation (freeCells st) shuffledCells ->
  (forall c, In c (freeCells st)
     <-> ((0 <= row c < Z.pos (gridColumns st))%Z
          /\ (0 <= col c < Z.pos (gridColumns st))%Z)
         /\ ~ exists item cell k,
               In item (items st) /\ tileAt (cellSize st) cell k item
               /\ (row cell <= row c <= row cell + k)%Z
               /\ (col cell <= col c <= col cell + k)%Z)
  /\ exists added,
    items (dispatch (fillBlankTiles nfts shuffledNFTs shuffledCells genId) st)
    = items st ++ added
    /\ Forall2 (fun cell item => tileAt (cellSize st) cell 1 item /\ In (nft item) nfts)
               shuffledCells added
    /\ List.length added = List.length (freeCells st)
    /\ Forall inBounds added
    /\ forall old item, In old (items st) -> In item added -> ~ squaresOverlap old item.
Proof.
  intros _ Hgrid Hne Hperm Hcells.
  split.
  { intros c. rewrite In_freeCells, (occupiedCells_onGrid st c Hgrid). reflexivity. }
  destruct nfts as [|dflt others]; [congruence|].
  assert (Hlen : (0 < List.length shuffledNFTs)%nat).
  { rewrite <- (Permutation_length Hperm). cbn. lia. }
  destruct (fillLoop_spec (cellSize st) genId shuffledNFTs dflt shuffledCells
              (items st) 0 Hlen) as (added & Hfill & Hall).
  exists added.
  assert (Hitems : items (dispatch (fillBlankTiles (dflt :: others) shuffledNFTs
                                      shuffledCells genId) st)
                   = items st ++ added).
  { unfold dispatch, fillBlankTiles. rewrite run_app.
    match goal with |- context [run (run ?s ?us) (saveToHistory ?s ?snapshot)] =>
      destruct (run_saveToHistory_frame s (run s us) snapshot) as [-> _]
    end.
    rewrite Hfill. destruct st; reflexivity. }
  assert (Hcellfacts : forall item, In item added ->
            exists cell, In cell (freeCells st) /\ tileAt (cellSize st) cell 1 item).
  { assert (Hgen : forall cells its,
              Forall2 (fun cell item =>
                         tileAt (cellSize st) cell 1 item /\ In (nft item) shuffledNFTs
                         /\ (cropX item, cropY item, cropWidth item, cropHeight item)
                            = (0, 0, 100, 100)) cells its ->
              forall item, In item its ->
              exists cell, In cell cells /\ tileAt (cellSize st) cell 1 item).
    { induction 1 as [|c0 i0 cs0 is0 (Ht0 & _) _ IH0]; intros item Hin; [destruct Hin|].
      destruct Hin as [<- | Hin].
      - exists c0. split; [left; reflexivity | exact Ht0].
      - destruct (IH0 item Hin) as (c & Hc & Htc). exists c. split; [right|]; assumption. }
    intros item Hin. destruct (Hgen _ _ Hall item Hin) as (cell & Hc & Ht).
    exists cell. split; [|exact Ht].
    apply (Permutation_in cell (Permutation_sym Hcells) Hc). }
  split; [exact Hitems|]. split; [|split; [|split]].
  - clear Hfill Hitems Hcellfacts Hcells.
    induction Hall as [|cell it cells its (Ht & Hn & _) _ IH]; constructor;
      [|exact IH].
    split; [exact Ht|]. apply (Permutation_in _ (Permutation_sym Hperm) Hn).
  - rewrite <- (Forall2_length Hall). symmetry. apply Permutation_length. exact Hcells.
  - apply Forall_forall. intros item Hin.
    destruct (Hcellfacts item Hin) as (cell & Hfree & (Hx & Hy & Hs)).
    apply In_freeCells in Hfree. destruct Hfree as [[Hr Hc] _].
    pose proof (cellSize_pos st) as Hcs. pose proof (hundred_cells st) as H100.
    set (cols := Z.pos (gridColumns st)) in *.
    assert (Hbound : forall i, (0 <= i < cols)%Z ->
              0 <= inject_Z i * cellSize st
              /\ inject_Z i * cellSize st + inject_Z 1 * cellSize st <= 100).
    { intros i Hi.
      assert (H0 : 0 <= inject_Z i)
        by (change 0 with (inject_Z 0); rewrite <- Zle_Qle; lia).
      assert (H1 : inject_Z (i + 1) <= inject_Z cols) by (rewrite <- Zle_Qle; lia).
      rewrite inject_Z_plus in H1.
      split; [apply Qmult_le_0_compat; lra|].
      assert (Hmul : (inject_Z i + inject_Z 1) * cellSize st <= inject_Z cols * cellSize st)
        by (apply Qmult_le_compat_r; lra).
      lra. }
    destruct (Hbound _ Hr). destruct (Hbound _ Hc).
    unfold inBounds. repeat split; lra.
  - intros old item Hold Hin Hov.
    destruct (Hcellfacts item Hin) as (cell & Hfree & Ht).
    apply In_freeCells in Hfree. destruct Hfree as [_ Hfree].
    apply Hfree. apply (overlapped_cell_occupied st old item cell Hold Ht Hov).
Qed.

Lemma fillBlankTiles_fills_free_cells_witness :
  (forall c, In c (freeCells threeAdded)
     <-> ((0 <= row c < Z.pos (gridColumns threeAdded))%Z
          /\ (0 <= col c < Z.pos (gridColumns threeAdded))%Z)
         /\ ~ exists item cell k,
               In item (items threeAdded) /\ tileAt (cellSize threeAdded) cell k item
               /\ (row cell <= row c <= row cell + k)%Z
               /\ (col cell <= col c <= col cell + k)%Z)
  /\ exists added,
    items (dispatch (fillBlankTiles fiveNFTs fiveNFTs (freeCells threeAdded)
                       (fun _ => "nft-0"%string)) threeAdded)
    = items threeAdded ++ added
    /\ Forall2 (fun cell item => tileAt (cellSize threeAdded) cell 1 item
                                 /\ In (nft item) fiveNFTs)
               (freeCells threeAdded) added
    /\ List.length added = List.length (freeCells threeAdded)
    /\ Forall inBounds added
    /\ forall old item, In old (items threeAdded) -> In item added ->
         ~ squaresOverlap old item.
Proof.
  apply (fillBlankTiles_fills_free_cells fiveNFTs fiveNFTs (freeCells threeAdded)
           (fun _ => "nft-0"%string) threeAdded).
  - cbn. tauto.
  - exact threeAdded_onGrid.
  - discriminate.
  - apply Permutation_refl.
  - apply Permutation_refl.
Defined.

(** On the canvas of the witness 79 of the 100 cells are free. *)
Example freeCells_threeAdded : List.length (freeCells threeAdded) = 79%nat.
Proof. vm_compute. reflexivity. Qed.

(** ** One run of the reconciliation effect *)

Lemma addEach_app (fresh : nat -> string * (Q * Q)) (cl : CanvasState) (l1 l2 : list NFT) :
  forall k,
    addEach fresh k (l1 ++ l2) cl
    = addEach fresh k l1 cl ++ addEach fresh (k + List.length l1) l2 cl.
Proof.
  induction l1 as [|a rest IH]; intros k; cbn [addEach app List.length].
  - rewrite Nat.add_0_r. reflexivity.
  - rewrite IH, <- app_assoc. replace (S k + List.length rest)%nat
      with (k + S (List.length rest))%nat by lia. reflexivity.
Qed.

(** X14: a run of the [selectedNFTs] effect leaves the whole state as it is
    when no selected NFT is new.  When one or more are new, every [addNFT] of
    the run starts from the items of the same render, so that the canvas
    gains exactly one tile, for the last of the new NFTs, which becomes the
    active item. *)
Theorem processSelectedNFTs_adds_last_only
  (selectedNFTs : list NFT) (fresh : nat -> string * (Q * Q)) (st : CanvasState) :
  let st' := dispatch (processSelectedNFTs selectedNFTs fresh) st in
  (newNFTs st selectedNFTs = [] -> st' = st)
  /\ (forall earlier lastNew,
        newNFTs st selectedNFTs = earlier ++ [lastNew] ->
        exists item,
          items st' = items st ++ [item]
          /\ nft item = lastNew
          /\ id item = fst (fresh (List.length earlier))
          /\ activeItem st' = Some (id item)).
Proof.
  cbn zeta. unfold dispatch, processSelectedNFTs. split.
  - intros Hnone. destruct selectedNFTs; [reflexivity|]. rewrite Hnone. reflexivity.
  - intros earlier lastNew Hnew.
    destruct selectedNFTs as [|b others];
      [destruct earlier; discriminate|].
    rewrite Hnew, addEach_app, run_app. cbn [addEach]. rewrite app_nil_r.
    set (before := run st (addEach fresh 0 earlier st)).
    cbn [Nat.add]. unfold addNFT. rewrite run_app.
    match goal with |- context [run (run ?s ?us) (saveToHistory ?c ?snapshot)] =>
      destruct (run_saveToHistory_frame c (run s us) snapshot) as [-> ->]
    end.
    eexists. split; [destruct before; reflexivity|].
    split; [reflexivity|]. split; [reflexivity|]. destruct before; reflexivity.
Qed.

(** Two new NFTs pushed at once: only the tile of the second one lands. *)
Example processSelectedNFTs_two_new :
  map (fun item => nft item)
      (items (dispatch (processSelectedNFTs [imageNFT "a"; imageNFT "b"] sampleFresh)
                       initialState))
  = [imageNFT "b"].
Proof. reflexivity. Qed.

(** ** Selecting NFTs in the parent *)

Lemma sameSelection_refl (a : NFT) : sameSelection a a = true.
Proof.
  unfold sameSelection.
  destruct (truthy (contract_address a) && truthy (contract_address a)
            && truthy (token_id a) && truthy (token_id a)).
  - rewrite !String.eqb_refl. reflexivity.
  - destruct (truthy (nft_id a) && truthy (nft_id a)); [apply String.eqb_refl|].
    destruct (image_url a); [apply String.eqb_refl | reflexivity].
Qed.

Lemma handleSelectNFT_shape (selectedNFTs : list NFT) (clicked : NFT) :
  (existsb (fun selectedNFT => sameSelection selectedNFT clicked) selectedNFTs = true
   /\ handleSelectNFT selectedNFTs clicked = selectedNFTs)
  \/ (existsb (fun selectedNFT => sameSelection selectedNFT clicked) selectedNFTs = false
      /\ handleSelectNFT selectedNFTs clicked = selectedNFTs ++ [clicked]).
Proof.
  unfold handleSelectNFT.
  destruct (existsb (fun selectedNFT => sameSelection selectedNFT clicked) selectedNFTs);
    auto.
Qed.

(** X15: [handleSelectNFT] keeps the NFTs already selected, in order, and
    appends at most the clicked one; afterwards some selected NFT matches the
    clicked one, so that clicking it again changes nothing. *)
Theorem handleSelectNFT_idempotent (selectedNFTs : list NFT) (clicked : NFT) :
  let after := handleSelectNFT selectedNFTs clicked in
  (after = selectedNFTs \/ after = selectedNFTs ++ [clicked])
  /\ existsb (fun selectedNFT => sameSelection selectedNFT clicked) after = true
  /\ handleSelectNFT after clicked = after.
Proof.
  cbn zeta. unfold handleSelectNFT.
  destruct (existsb (fun selectedNFT => sameSelection selectedNFT clicked) selectedNFTs)
    eqn:Hex.
  - rewrite Hex. auto.
  - assert (Hafter : existsb (fun selectedNFT => sameSelection selectedNFT clicked)
                             (selectedNFTs ++ [clicked]) = true).
    { rewrite existsb_app. cbn [existsb]. rewrite sameSelection_refl.
      rewrite orb_true_r. reflexivity. }
    rewrite Hafter. auto.
Qed.

Lemma truthy_Some (v : option string) :
  truthy v = true -> exists str, v = Some str.
Proof. destruct v as [str|]; [eauto | discriminate]. Qed.

Lemma sameText_eqb (a b : option string) :
  truthy a = true -> truthy b = true ->
  String.eqb (text a) (text b) = sameText a b.
Proof.
  intros Ha Hb. destruct (truthy_Some a Ha) as (u & ->).
  destruct (truthy_Some b Hb) as (v & ->). reflexivity.
Qed.

(** X16: once [handleSelectNFT] has handled a click on an NFT that has an
    image URL, the NFT list shows that NFT as selected. *)
Theorem handleSelectNFT_shown_selected (selectedNFTs : list NFT) (clicked : NFT) :
  truthy (image_url clicked) = true ->
  isNFTSelected (handleSelectNFT selectedNFTs clicked) clicked = true.
Proof.
  intros Hurl.
  assert (Hmatch : forall selectedNFT,
            sameSelection selectedNFT clicked = true ->
            (truthy (contract_address clicked) && truthy (token_id clicked)
             && sameText (contract_address selectedNFT) (contract_address clicked)
             && sameText (token_id selectedNFT) (token_id clicked))
            || (truthy (nft_id clicked) && sameText (nft_id selectedNFT) (nft_id clicked))
            || (truthy (image_url clicked)
                && sameText (image_url selectedNFT) (image_url clicked)) = true).
  { intros selectedNFT. unfold sameSelection.
    destruct (truthy (contract_address selectedNFT)) eqn:H1;
      destruct (truthy (contract_address clicked)) eqn:H2;
      destruct (truthy (token_id selectedNFT)) eqn:H3;
      destruct (truthy (token_id clicked)) eqn:H4; cbn [andb orb].
    1: { rewrite (sameText_eqb _ _ H1 H2), (sameText_eqb _ _ H3 H4).
         intros ->. reflexivity. }
    all: destruct (truthy (nft_id selectedNFT)) eqn:H5;
         destruct (truthy (nft_id clicked)) eqn:H6; cbn [andb orb].
    all: try (rewrite (sameText_eqb _ _ H5 H6); intros ->;
              rewrite ?andb_false_r, ?orb_true_r; reflexivity).
    all: rewrite Hurl; cbn [andb]; fold (sameText (image_url selectedNFT)
                                                  (image_url clicked));
         intros ->; rewrite ?andb_false_r, ?orb_true_r; reflexivity. }
  destruct (handleSelectNFT_shape selectedNFTs clicked) as [(Hex & ->) | (Hex & ->)];
    unfold isNFTSelected.
  - apply existsb_exists in Hex. destruct Hex as (selectedNFT & Hin & Hsame).
    apply existsb_exists. exists selectedNFT. split; [exact Hin | apply Hmatch, Hsame].
  - rewrite existsb_app. cbn [existsb].
    rewrite (Hmatch clicked (sameSelection_refl clicked)).
    rewrite orb_true_r. reflexivity.
Qed.

Lemma handleSelectNFT_shown_selected_witness :
  isNFTSelected (handleSelectNFT [assetFirstUrl] assetSecondUrl) assetSecondUrl = true.
Proof.
  apply (handleSelectNFT_shown_selected [assetFirstUrl] assetSecondUrl). reflexivity.
Defined.

(** ** A collection logo selected twice *)

Lemma append_inv_head (p a b : string) : (p ++ a)%string = (p ++ b)%string -> a = b.
Proof.
  induction p as [|ch rest IH]; cbn [String.append]; [auto|].
  intros [= Heq]. auto.
Qed.

Lemma collectionImage_key (c : NFTCollection) (stamp : string) :
  truthy (Some (collection_image_url c)) = true ->
  nftKey (collectionImage c stamp) = collection_image_url c.
Proof. intros Hurl. unfold nftKey, collectionImage. cbn. cbn in Hurl. rewrite Hurl. reflexivity. Qed.

(** X17: two clicks on the logo of one collection, at different times, put
    two NFT-like objects in the parent's selection, since their ids differ by
    the time stamp; the canvas, which keys them by image URL, gets a tile at
    the first click and nothing at the second. *)
Theorem collection_logo_twice (c : NFTCollection) (stamp1 stamp2 : string)
  (fresh1 fresh2 : nat -> string * (Q * Q)) (st0 : CanvasState) :
  truthy (Some (collection_image_url c)) = true ->
  stamp1 <> stamp2 ->
  ~ In (collection_image_url c) (existingNFTs st0) ->
  let sel1 := handleAddCollectionImage [] c stamp1 in
  let st1 := dispatch (processSelectedNFTs sel1 fresh1) st0 in
  let sel2 := handleAddCollectionImage sel1 c stamp2 in
  let st2 := dispatch (processSelectedNFTs sel2 fresh2) st1 in
  sel2 = [collectionImage c stamp1; collectionImage c stamp2]
  /\ (exists item, items st1 = items st0 ++ [item] /\ nft item = collectionImage c stamp1)
  /\ st2 = st1.
Proof.
  intros Hurl Hstamp Hfresh. cbn zeta.
  assert (Hsel1 : handleAddCollectionImage [] c stamp1 = [collectionImage c stamp1]).
  { unfold handleAddCollectionImage. rewrite Hurl. reflexivity. }
  assert (Hsel2 : handleAddCollectionImage [collectionImage c stamp1] c stamp2
                  = [collectionImage c stamp1; collectionImage c stamp2]).
  { unfold handleAddCollectionImage, handleSelectNFT. rewrite Hurl. cbn [negb existsb].
    replace (sameSelection (collectionImage c stamp1) (collectionImage c stamp2))
      with false; [reflexivity|].
    symmetry. unfold sameSelection, collectionImage.
    cbn [contract_address token_id nft_id truthy andb text].
    cbn [String.append String.eqb Ascii.eqb Bool.eqb negb andb].
    apply String.eqb_neq. intros Heq.
    apply append_inv_head in Heq. injection Heq as Heq. contradiction. }
  rewrite Hsel1, Hsel2.
  pose proof (collectionImage_key c stamp1 Hurl) as Hk1.
  pose proof (collectionImage_key c stamp2 Hurl) as Hk2.
  assert (Hnew1 : newNFTs st0 [collectionImage c stamp1] = [collectionImage c stamp1]).
  { unfold newNFTs. cbn [filter]. rewrite Hk1.
    destruct (existsb (String.eqb (collection_image_url c)) (existingNFTs st0)) eqn:Hex;
      [|reflexivity].
    apply existsb_exists in Hex. destruct Hex as (k & Hin & Heq).
    apply String.eqb_eq in Heq. subst k. contradiction. }
  assert (Hst1 : exists item,
            items (dispatch (processSelectedNFTs [collectionImage c stamp1] fresh1) st0)
            = items st0 ++ [item] /\ nft item = collectionImage c stamp1).
  { unfold dispatch, processSelectedNFTs. rewrite Hnew1. cbn [addEach].
    rewrite app_nil_r. apply addNFT_items. }
  split; [reflexivity|]. split; [exact Hst1|].
  destruct Hst1 as (item & Hitems & Hnft).
  set (st1 := dispatch (processSelectedNFTs [collectionImage c stamp1] fresh1) st0) in *.
  assert (Hexisting : existsb (String.eqb (collection_image_url c)) (existingNFTs st1) = true).
  { apply existsb_exists. exists (collection_image_url c).
    split; [|apply String.eqb_refl].
    unfold existingNFTs. rewrite Hitems, map_app. apply in_or_app. right.
    cbn [map]. rewrite Hnft, Hk1. left. reflexivity. }
  unfold dispatch at 1. unfold processSelectedNFTs, newNFTs. cbn [filter].
  rewrite Hk1, Hk2, Hexisting. reflexivity.
Qed.

Lemma collection_logo_twice_witness :
  let c := mkCollection "apes" "Apes" "https://img/apes.png" None "0xabc" None in
  let sel1 := handleAddCollectionImage [] c "1700000000000" in
  let st1 := dispatch (processSelectedNFTs sel1 sampleFresh) initialState in
  let sel2 := handleAddCollectionImage sel1 c "1700000000500" in
  let st2 := dispatch (processSelectedNFTs sel2 sampleFresh) st1 in
  sel2 = [collectionImage c "1700000000000"; collectionImage c "1700000000500"]
  /\ (exists item, items st1 = items initialState ++ [item]
                   /\ nft item = collectionImage c "1700000000000")
  /\ st2 = st1.
Proof.
  apply (collection_logo_twice
           (mkCollection "apes" "Apes" "https://img/apes.png" None "0xabc" None)
           "1700000000000" "1700000000500" sampleFresh sampleFresh initialState).
  - reflexivity.
  - discriminate.
  - intros [].
Defined.

(** ** Wallets *)

Lemma chain_eqb_eq (a b : Blockchain) : chain_eqb a b = true <-> a = b.
Proof. destruct a, b; cbn; split; congruence. Qed.

Lemma sameWallet_In (addr : string) (c : Blockchain) (l : list WalletEntry) :
  existsb (sameWallet addr c) l = true <-> In (mkWallet addr c) l.
Proof.
  rewrite existsb_exists. unfold sameWallet. split.
  - intros (w & Hin & Hsame). apply andb_true_iff in Hsame. destruct Hsame as [Ha Hc].
    apply String.eqb_eq in Ha. apply chain_eqb_eq in Hc. destruct w; cbn in *. subst.
    exact Hin.
  - intros Hin. exists (mkWallet addr c). split; [exact Hin|]. cbn.
    rewrite String.eqb_refl. destruct c; reflexivity.
Qed.

(** X18: [handleAdd] keeps the wallet list free of malformed addresses and
    of repeated (address, chain) pairs.  It appends the wallet typed in,
    clearing the input and the error, exactly when the address is well
    formed and the pair is not listed yet; otherwise it only sets an
    error. *)
Theorem handleAdd_keeps_wallets_valid (f : WalletForm) :
  walletsOK (localWallets f) ->
  walletsOK (localWallets (handleAdd f))
  /\ ((isValidAddress (input_address f) = true
       /\ ~ In (mkWallet (input_address f) (input_chain f)) (localWallets f)
       /\ localWallets (handleAdd f)
          = localWallets f ++ [mkWallet (input_address f) (input_chain f)]
       /\ form_error (handleAdd f) = EmptyString
       /\ input_address (handleAdd f) = EmptyString)
      \/ ((isValidAddress (input_address f) = false
           \/ In (mkWallet (input_address f) (input_chain f)) (localWallets f))
          /\ localWallets (handleAdd f) = localWallets f
          /\ form_error (handleAdd f) <> EmptyString
          /\ input_address (handleAdd f) = input_address f)).
Proof.
  intros [Hnd Hvalid]. unfold handleAdd.
  destruct (isValidAddress (input_address f)) eqn:Hv; cbn [negb].
  - destruct (existsb (sameWallet (input_address f) (input_chain f)) (localWallets f))
      eqn:Hex; cbn [localWallets form_error input_address].
    + apply sameWallet_In in Hex. split; [split; assumption|].
      right. repeat split; auto. discriminate.
    + assert (Hnotin : ~ In (mkWallet (input_address f) (input_chain f)) (localWallets f)).
      { intros Hin. apply sameWallet_In in Hin. congruence. }
      split.
      * split.
        -- apply NoDup_app; [exact Hnd | repeat constructor; intros [] |].
           intros w Hin [<- | []]. contradiction.
        -- apply Forall_app. split; [exact Hvalid|]. repeat constructor. exact Hv.
      * left. repeat split; auto.
  - cbn [localWallets form_error input_address]. split; [split; assumption|].
    right. repeat split; auto. discriminate.
Qed.

Lemma handleAdd_keeps_wallets_valid_witness :
  let f := mkWalletForm "0x52908400098527886E0F7030069857D2E4169EE7" Base EmptyString
             [mkWallet "0x52908400098527886E0F7030069857D2E4169EE7" Ethereum] in
  walletsOK (localWallets (handleAdd f))
  /\ ((isValidAddress (input_address f) = true
       /\ ~ In (mkWallet (input_address f) (input_chain f)) (localWallets f)
       /\ localWallets (handleAdd f)
          = localWallets f ++ [mkWallet (input_address f) (input_chain f)]
       /\ form_error (handleAdd f) = EmptyString
       /\ input_address (handleAdd f) = EmptyString)
      \/ ((isValidAddress (input_address f) = false
           \/ In (mkWallet (input_address f) (input_chain f)) (localWallets f))
          /\ localWallets (handleAdd f) = localWallets f
          /\ form_error (handleAdd f) <> EmptyString
          /\ input_address (handleAdd f) = input_address f)).
Proof.
  apply (handleAdd_keeps_wallets_valid
           (mkWalletForm "0x52908400098527886E0F7030069857D2E4169EE7" Base EmptyString
              [mkWallet "0x52908400098527886E0F7030069857D2E4169EE7" Ethereum])).
  split.
  - repeat constructor. intros [].
  - repeat constructor.
Defined.

Lemma removeIndex_past (l : list WalletEntry) : forall i idx,
  (idx < i)%nat -> removeIndex i idx l = l.
Proof.
  induction l as [|w rest IH]; intros i idx Hlt; cbn [removeIndex]; [reflexivity|].
  destruct (Nat.eqb_spec i idx); [lia|]. rewrite IH by lia. reflexivity.
Qed.

Lemma removeIndex_spec (l : list WalletEntry) : forall i idx,
  (i <= idx)%nat ->
  removeIndex i idx l = firstn (idx - i) l ++ skipn (S (idx - i)) l.
Proof.
  induction l as [|w rest IH]; intros i idx Hle; cbn [removeIndex].
  - rewrite firstn_nil, skipn_nil. reflexivity.
  - destruct (Nat.eqb_spec i idx) as [-> | Hne].
    + rewrite Nat.sub_diag. cbn [firstn skipn app]. apply removeIndex_past. lia.
    + rewrite (IH (S i) idx) by lia.
      replace (idx - i)%nat with (S (idx - S i)) by lia. reflexivity.
Qed.

(** X19: [handleRemove] deletes the wallet at the given position and no
    other, keeping the order; a position past the end deletes nothing.  The
    list stays free of malformed and of repeated wallets. *)
Theorem handleRemove_deletes_one (idx : nat) (f : WalletForm) :
  walletsOK (localWallets f) ->
  localWallets (handleRemove idx f)
  = firstn idx (localWallets f) ++ skipn (S idx) (localWallets f)
  /\ ((idx < List.length (localWallets f))%nat ->
      S (List.length (localWallets (handleRemove idx f)))
      = List.length (localWallets f))
  /\ ((List.length (localWallets f) <= idx)%nat ->
      localWallets (handleRemove idx f) = localWallets f)
  /\ walletsOK (localWallets (handleRemove idx f)).
Proof.
  intros [Hnd Hvalid]. unfold handleRemove. cbn [localWallets].
  rewrite (removeIndex_spec (localWallets f) 0 idx) by lia. rewrite Nat.sub_0_r.
  split; [reflexivity|]. split; [|split].
  - intros Hlt. rewrite length_app, length_firstn, length_skipn. lia.
  - intros Hge. rewrite firstn_all2 by lia. rewrite skipn_all2 by lia.
    apply app_nil_r.
  - rewrite <- (firstn_skipn idx (localWallets f)) in Hnd, Hvalid.
    destruct (skipn idx (localWallets f)) as [|w rest] eqn:Hskip.
    + assert (Hnil : skipn (S idx) (localWallets f) = []).
      { apply skipn_all2. apply (f_equal (@List.length _)) in Hskip.
        rewrite length_skipn in Hskip. cbn in Hskip. lia. }
      rewrite Hnil. split; assumption.
    + assert (Hrest : skipn (S idx) (localWallets f) = rest).
      { replace (S idx) with (1 + idx)%nat by lia. rewrite <- skipn_skipn, Hskip.
        reflexivity. }
      rewrite Hrest. split.
      * apply NoDup_remove_1 in Hnd. exact Hnd.
      * apply Forall_app in Hvalid. destruct Hvalid as [H1 H2].
        apply Forall_app. split; [exact H1|]. inversion H2; assumption.
Qed.

Lemma handleRemove_deletes_one_witness :
  let f := mkWalletForm EmptyString Base EmptyString
             [mkWallet "0x52908400098527886E0F7030069857D2E4169EE7" Ethereum;
              mkWallet "0x52908400098527886E0F7030069857D2E4169EE7" Base] in
  localWallets (handleRemove 0 f)
  = firstn 0 (localWallets f) ++ skipn 1 (localWallets f)
  /\ ((0 < List.length (localWallets f))%nat ->
      S (List.length (localWallets (handleRemove 0 f))) = List.length (localWallets f))
  /\ ((List.length (localWallets f) <= 0)%nat ->
      localWallets (handleRemove 0 f) = localWallets f)
  /\ walletsOK (localWallets (handleRemove 0 f)).
Proof.
  apply (handleRemove_deletes_one 0
           (mkWalletForm EmptyString Base EmptyString
              [mkWallet "0x52908400098527886E0F7030069857D2E4169EE7" Ethereum;
               mkWallet "0x52908400098527886E0F7030069857D2E4169EE7" Base])).
  split.
  - repeat constructor; cbn; intuition discriminate.
  - repeat constructor.
Defined.

Lemma length_string_append (a b : string) :
  String.length (a ++ b)%string = (String.length a + String.length b)%nat.
Proof. induction a as [|c rest IH]; cbn; [reflexivity | rewrite IH; reflexivity]. Qed.

Lemma length_substring (str : string) : forall n m,
  (n + m <= String.length str)%nat -> String.length (substring n m str) = m.
Proof.
  induction str as [|c rest IH]; intros n m Hle; cbn [String.length] in Hle.
  - destruct n, m; cbn; lia.
  - destruct n as [|n].
    + destruct m as [|m]; cbn [substring String.length]; [reflexivity|].
      rewrite IH by lia. reflexivity.
    + cbn [substring]. apply IH. lia.
Qed.

(** X20: an address accepted by [isValidAddress] has 42 characters, and
    [truncateAddress] shows it as its first six characters (starting with
    "0x"), three dots and its last five characters: 14 characters in all. *)
Theorem truncateAddress_valid (addr : string) :
  isValidAddress addr = true ->
  String.length addr = 42%nat
  /\ truncateAddress addr
     = (substring 0 6 addr ++ "..." ++ substring 37 5 addr)%string
  /\ substring 0 2 (truncateAddress addr) = "0x"%string
  /\ String.length (truncateAddress addr) = 14%nat.
Proof.
  intros Hvalid.
  assert (Hshape : exists rest, addr = String "0"%char (String "x"%char rest)
                                /\ String.length rest = 40%nat).
  { unfold isValidAddress in Hvalid.
    destruct addr as [|c0 tail]; [discriminate|].
    destruct c0 as [[] [] [] [] [] [] [] []]; try discriminate Hvalid.
    destruct tail as [|c1 rest]; [discriminate|].
    destruct c1 as [[] [] [] [] [] [] [] []]; try discriminate Hvalid.
    apply andb_true_iff in Hvalid. destruct Hvalid as [Hlen _].
    apply Nat.eqb_eq in Hlen. exists rest. auto. }
  destruct Hshape as (rest & -> & Hlen).
  set (addr := String "0"%char (String "x"%char rest)).
  assert (H42 : String.length addr = 42%nat) by (unfold addr; cbn; lia).
  assert (Htrunc : truncateAddress addr
                   = (substring 0 6 addr ++ "..." ++ substring 37 5 addr)%string).
  { unfold truncateAddress. rewrite H42. reflexivity. }
  split; [exact H42|]. split; [exact Htrunc|]. split.
  - rewrite Htrunc. unfold addr. cbn [substring String.append].
    assert (Hzero : forall str, substring 0 0 str = EmptyString)
      by (intros [|c str]; reflexivity).
    rewrite Hzero. reflexivity.
  - rewrite Htrunc, !length_string_append, !length_substring by lia. reflexivity.
Qed.

Lemma truncateAddress_valid_witness :
  String.length "0x52908400098527886E0F7030069857D2E4169EE7" = 42%nat
  /\ truncateAddress "0x52908400098527886E0F7030069857D2E4169EE7"
     = (substring 0 6 "0x52908400098527886E0F7030069857D2E4169EE7" ++ "..."
        ++ substring 37 5 "0x52908400098527886E0F7030069857D2E4169EE7")%string
  /\ substring 0 2 (truncateAddress "0x52908400098527886E0F7030069857D2E4169EE7")
     = "0x"%string
  /\ String.length (truncateAddress "0x52908400098527886E0F7030069857D2E4169EE7")
     = 14%nat.
Proof.
  apply (truncateAddress_valid "0x52908400098527886E0F7030069857D2E4169EE7").
  reflexivity.
Defined.

(** The address of the witness is shown as 0x5290...69EE7. *)
Example truncateAddress_sample :
  truncateAddress "0x52908400098527886E0F7030069857D2E4169EE7" = "0x5290...69EE7"%string.
Proof. reflexivity. Qed.

(** ** Collections and pages *)

Lemma find_append {A} (f : A -> bool) (l1 l2 : list A) :
  find f (l1 ++ l2) = match find f l1 with Some a => Some a | None => find f l2 end.
Proof.
  induction l1 as [|hd rest IH]; cbn [find app]; [reflexivity|].
  destruct (f hd); [reflexivity | exact IH].
Qed.

Lemma uniqueCollections_fold (l : list NFTCollection) : forall acc,
  NoDup (map slug acc) ->
  let result :=
    fold_left (fun acc c =>
                 if existsb (fun kept => String.eqb (slug kept) (slug c)) acc
                 then acc else acc ++ [c]) l acc in
  NoDup (map slug result)
  /\ forall key,
       find (fun c => String.eqb (slug c) key) result
       = match find (fun c => String.eqb (slug c) key) acc with
         | Some c => Some c
         | None => find (fun c => String.eqb (slug c) key) l
         end.
Proof.
  induction l as [|c rest IH]; intros acc Hnd; cbn zeta; cbn [fold_left].
  - split; [exact Hnd|]. intros key. cbn [find].
    destruct (find _ acc); reflexivity.
  - destruct (existsb (fun kept => String.eqb (slug kept) (slug c)) acc) eqn:Hex.
    + destruct (IH acc Hnd) as [Hnd' Hfind]. split; [exact Hnd'|].
      intros key. rewrite Hfind. cbn [find].
      destruct (find (fun c0 => String.eqb (slug c0) key) acc) as [kept|] eqn:Hacc;
        [reflexivity|].
      destruct (String.eqb_spec (slug c) key) as [<- | Hne]; [|reflexivity].
      apply existsb_exists in Hex. destruct Hex as (kept & Hin & Heq).
      pose proof (find_none _ _ Hacc kept Hin) as Hnone. cbn in Hnone. congruence.
    + assert (Hnd1 : NoDup (map slug (acc ++ [c]))).
      { rewrite map_app. apply NoDup_app; [exact Hnd | repeat constructor; intros [] |].
        intros key Hin [<- | []]. apply in_map_iff in Hin.
        destruct Hin as (kept & Heq & Hin).
        assert (Htrue : existsb (fun kept => String.eqb (slug kept) (slug c)) acc = true).
        { apply existsb_exists. exists kept. split; [exact Hin|].
          apply String.eqb_eq. exact Heq. }
        congruence. }
      destruct (IH (acc ++ [c]) Hnd1) as [Hnd' Hfind]. split; [exact Hnd'|].
      intros key. rewrite Hfind, find_append. cbn [find].
      destruct (find (fun c0 => String.eqb (slug c0) key) acc); [reflexivity|].
      destruct (String.eqb (slug c) key); reflexivity.
Qed.

(** X21: the collections kept by the hook have pairwise different slugs,
    and for every slug the collection kept is the first one fetched with
    that slug (none is kept when none was fetched). *)
Theorem uniqueCollections_first_per_slug (allCollections : list NFTCollection) :
  NoDup (map slug (uniqueCollections allCollections))
  /\ forall key,
       find (fun c => String.eqb (slug c) key) (uniqueCollections allCollections)
       = find (fun c => String.eqb (slug c) key) allCollections.
Proof.
  destruct (uniqueCollections_fold allCollections [] (NoDup_nil _)) as [Hnd Hfind].
  split; [exact Hnd | exact Hfind].
Qed.

Lemma fetchPages_length {A} (server : option string -> list A * option string)
  (limit : nat) :
  (forall cursor, List.length (fst (server cursor)) <= limit)%nat ->
  forall remaining cursor,
    (List.length (fetchPages server cursor remaining) <= limit * S remaining)%nat.
Proof.
  intros Hlimit. induction remaining as [|fewer IH]; intros cursor; cbn [fetchPages];
    specialize (Hlimit cursor) as Hpage; destruct (server cursor) as [nfts next];
    cbn [fst] in Hpage.
  - lia.
  - destruct (truthy next); [|nia].
    rewrite length_app. specialize (IH next). nia.
Qed.

(** X22: [fetchAllNFTsByAccount] requests one page, and further pages only
    while the answer carries a cursor and fewer than [maxPages] pages were
    read: when no answer holds more than [limit] NFTs it returns at most
    [limit] times [max 1 maxPages] NFTs, and exactly the first page when that
    page carries no cursor or [maxPages] is 1 or less. *)
Theorem fetchAllNFTsByAccount_bounded {A}
  (server : option string -> list A * option string) (maxPages : Z) (limit : nat) :
  (forall cursor, List.length (fst (server cursor)) <= limit)%nat ->
  (Z.of_nat (List.length (fetchAllNFTsByAccount server maxPages))
   <= Z.of_nat limit * Z.max 1 maxPages)%Z
  /\ (truthy (snd (server None)) = false \/ (maxPages <= 1)%Z ->
      fetchAllNFTsByAccount server maxPages = fst (server None)).
Proof.
  intros Hlimit. unfold fetchAllNFTsByAccount. split.
  - pose proof (fetchPages_length server limit Hlimit (Z.to_nat (maxPages - 1)) None). nia.
  - intros [Hnone | Hone].
    + destruct (Z.to_nat (maxPages - 1)); cbn [fetchPages];
        destruct (server None) as [nfts next]; cbn [fst snd] in *; [reflexivity|].
      rewrite Hnone. reflexivity.
    + replace (Z.to_nat (maxPages - 1)) with 0%nat by lia.
      cbn [fetchPages]. destruct (server None); reflexivity.
Qed.

Lemma fetchAllNFTsByAccount_bounded_witness :
  (Z.of_nat (List.length (fetchAllNFTsByAccount twoPageServer 10))
   <= Z.of_nat 2 * Z.max 1 10)%Z
  /\ (truthy (snd (twoPageServer None)) = false \/ (10 <= 1)%Z ->
      fetchAllNFTsByAccount twoPageServer 10 = fst (twoPageServer None)).
Proof.
  apply (fetchAllNFTsByAccount_bounded twoPageServer 10 2).
  intros [c|]; cbn; lia.
Defined.

(** The server of the witness answers two pages, read in order. *)
Example fetchAllNFTsByAccount_two_pages :
  fetchAllNFTsByAccount twoPageServer 10 = [1; 2; 3]%nat.
Proof. reflexivity. Qed.

(** ** The shuffle form *)

Lemma slice0_firstn {A} (stop : Z) (l : list A) :
  (0 <= stop)%Z -> slice0 stop l = firstn (Z.to_nat stop) l.
Proof. intros Hs. unfold slice0. destruct (Z.ltb_spec stop 0); [lia | reflexivity]. Qed.

Lemma In_logos (stamp : nat -> string) (cs : list NFTCollection) (a : NFT) :
  forall k, In a (logos stamp k cs) ->
  exists c s, In c cs /\ a = collectionImage c s.
Proof.
  induction cs as [|c rest IH]; intros k Hin; cbn [logos] in Hin; [destruct Hin|].
  destruct (truthy (Some (collection_image_url c))).
  - destruct Hin as [<- | Hin].
    + exists c, (stamp k). split; [left|]; reflexivity.
    + destruct (IH _ Hin) as (c' & s & Hc & ->). exists c', s. split; [right|]; auto.
  - destruct (IH _ Hin) as (c' & s & Hc & ->). exists c', s. split; [right|]; auto.
Qed.

Lemma firstn_incl_list {A} (k : nat) (l : list A) (a : A) :
  In a (firstn k l) -> In a l.
Proof.
  intros Hin. rewrite <- (firstn_skipn k l). apply in_or_app. left. exact Hin.
Qed.

Lemma half_ceiling (k : Z) : (Math_ceil (inject_Z k / 2) <= (k + 1) / 2)%Z.
Proof.
  unfold Math_ceil. pose proof (Qceiling_lt (inject_Z k / 2)) as Hlt.
  set (c := Qceiling (inject_Z k / 2)) in *.
  assert (Hz : inject_Z (2 * (c - 1)) < inject_Z k).
  { rewrite inject_Z_mult. change (inject_Z 2) with 2.
    assert (H2 : inject_Z k == 2 * (inject_Z k / 2)) by (field).
    lra. }
  rewrite <- Zlt_Qlt in Hz.
  apply Z.div_le_lower_bound; lia.
Qed.

(** X23: with a count that is not negative, [handleShuffle] hands over the
    count as the requested minimum and at most count NFTs of the wallet
    followed by at most half as many collection logos, rounded up.  Every
    NFT handed over is an NFT of the wallet (of a selected collection when
    the form restricts the draw) or the logo of one of the collections; the
    NFTs kept for the blank tiles are the rest of the shuffled list. *)
Theorem handleShuffle_selection (form : ShuffleForm) (nfts : list NFT)
  (collections : list NFTCollection) (selectedCollections : list string)
  (stamp : nat -> string) (shuffledNFTs shuffledCollectionNFTs : list NFT) :
  (0 <= count form)%Z ->
  Permutation (availableNFTs form nfts selectedCollections) shuffledNFTs ->
  Permutation (collectionNFTs form collections selectedCollections stamp)
              shuffledCollectionNFTs ->
  let result := handleShuffle form shuffledNFTs shuffledCollectionNFTs in
  passedMinCount result = count form
  /\ (Z.of_nat (List.length (passedNFTs result)) <= count form + (count form + 1) / 2)%Z
  /\ (forall a, In a (passedNFTs result) ->
        (In a nfts
         /\ (restricts form selectedCollections = true ->
             inCollections selectedCollections a = true))
        \/ (exists c s, In c collections /\ a = collectionImage c s))
  /\ (forall rest, fillWith result = Some rest ->
        rest <> []
        /\ firstn (Z.to_nat (Z.min (count form) (Z.of_nat (List.length shuffledNFTs))))
                  shuffledNFTs ++ rest
           = shuffledNFTs).
Proof.
  intros Hcount Hperm Hlogos. cbn zeta. unfold handleShuffle.
  set (nftCount := Z.min (count form) (Z.of_nat (List.length shuffledNFTs))).
  assert (Hn : (0 <= nftCount <= count form)%Z) by (unfold nftCount; lia).
  cbn [passedMinCount passedNFTs fillWith].
  rewrite (slice0_firstn nftCount) by lia.
  assert (Hwallet : forall a, In a (firstn (Z.to_nat nftCount) shuffledNFTs) ->
            In a nfts /\ (restricts form selectedCollections = true ->
                          inCollections selectedCollections a = true)).
  { intros a Hin. apply firstn_incl_list in Hin.
    apply (Permutation_in a (Permutation_sym Hperm)) in Hin.
    unfold availableNFTs in Hin.
    destruct (restricts form selectedCollections).
    - apply filter_In in Hin. tauto.
    - split; [exact Hin | discriminate]. }
  split; [reflexivity|]. split; [|split].
  - destruct (includeCollectionImages form).
    + set (collectionCount := Z.min _ _).
      pose proof (half_ceiling nftCount) as Hhalf.
      assert (Hmono : ((nftCount + 1) / 2 <= (count form + 1) / 2)%Z)
        by (apply Z.div_le_mono; lia).
      rewrite length_app, length_firstn.
      destruct (Z.ltb_spec collectionCount 0) as [Hneg | Hpos].
      * unfold slice0. destruct (Z.ltb_spec collectionCount 0); [|lia].
        rewrite length_firstn.
        assert (Hc : (0 <= Math_ceil (inject_Z nftCount / 2))%Z).
        { unfold Math_ceil. change 0%Z with (Qceiling 0). apply Qceiling_resp_le.
          apply Qle_shift_div_l; [lra|].
          assert (0 <= inject_Z nftCount)
            by (change 0 with (inject_Z 0); rewrite <- Zle_Qle; lia).
          lra. }
        unfold collectionCount in Hneg. lia.
      * rewrite (slice0_firstn collectionCount) by lia. rewrite length_firstn.
        unfold collectionCount. lia.
    + rewrite length_firstn.
      assert (0 <= (count form + 1) / 2)%Z by (apply Z.div_pos; lia). lia.
  - intros a Hin. destruct (includeCollectionImages form).
    + apply in_app_or in Hin. destruct Hin as [Hin | Hin]; [left; auto|].
      right.
      assert (Hsub : In a shuffledCollectionNFTs).
      { unfold slice0 in Hin. destruct (_ <? 0)%Z; apply firstn_incl_list in Hin; exact Hin. }
      apply (Permutation_in a (Permutation_sym Hlogos)) in Hsub.
      unfold collectionNFTs in Hsub. apply In_logos in Hsub.
      destruct Hsub as (c & s & Hc & ->). exists c, s. split; [|reflexivity].
      destruct (restricts form selectedCollections); [|exact Hc].
      apply filter_In in Hc. tauto.
    + left. auto.
  - intros rest Hfill. destruct (fillEmptyTiles form); [|discriminate].
    destruct (Nat.ltb_spec 0 (List.length (sliceFrom nftCount shuffledNFTs)));
      [|discriminate].
    injection Hfill as <-. split.
    + intros Hnil. rewrite Hnil in *. cbn in *. lia.
    + unfold sliceFrom. destruct (Z.ltb_spec nftCount 0); [lia|].
      apply firstn_skipn.
Qed.

Lemma handleShuffle_selection_witness :
  let form := mkShuffleForm 3 true false true in
  let apes := mkCollection "apes" "Apes" "https://img/apes.png" None "0xabc" None in
  let result :=
    handleShuffle form fiveNFTs
      (collectionNFTs form [apes] [] (fun _ => "1700000000000-k3x9a2b"%string)) in
  passedMinCount result = count form
  /\ (Z.of_nat (List.length (passedNFTs result)) <= count form + (count form + 1) / 2)%Z
  /\ (forall a, In a (passedNFTs result) ->
        (In a fiveNFTs
         /\ (restricts form [] = true -> inCollections [] a = true))
        \/ (exists c s, In c [apes] /\ a = collectionImage c s))
  /\ (forall rest, fillWith result = Some rest ->
        rest <> []
        /\ firstn (Z.to_nat (Z.min (count form) (Z.of_nat (List.length fiveNFTs))))
                  fiveNFTs ++ rest
           = fiveNFTs).
Proof.
  apply (handleShuffle_selection (mkShuffleForm 3 true false true) fiveNFTs
           [mkCollection "apes" "Apes" "https://img/apes.png" None "0xabc" None] []
           (fun _ => "1700000000000-k3x9a2b"%string) fiveNFTs).
  - cbn. lia.
  - apply Permutation_refl.
  - apply Permutation_refl.
Defined.

(** In the witness three NFTs and one logo are handed over, two NFTs are
    kept for the blank tiles. *)
Example handleShuffle_sample :
  let form := mkShuffleForm 3 true false true in
  let apes := mkCollection "apes" "Apes" "https://img/apes.png" None "0xabc" None in
  let result :=
    handleShuffle form fiveNFTs
      (collectionNFTs form [apes] [] (fun _ => "1700000000000-k3x9a2b"%string)) in
  List.length (passedNFTs result) = 4%nat
  /\ option_map (@List.length NFT) (fillWith result) = Some 2%nat.
Proof. vm_compute. split; reflexivity. Qed.

(** ** Export *)

Lemma insertByZIndex_perm (a : CanvasItem) (l : list CanvasItem) :
  Permutation (insertByZIndex a l) (a :: l).
Proof.
  induction l as [|b rest IH]; cbn [insertByZIndex]; [apply Permutation_refl|].
  destruct (zIndex a <=? zIndex b)%Z; [apply Permutation_refl|].
  eapply perm_trans; [apply perm_skip, IH | apply perm_swap].
Qed.

Lemma sortByZIndex_perm (l : list CanvasItem) : Permutation (sortByZIndex l) l.
Proof.
  induction l as [|a rest IH]; cbn [sortByZIndex fold_right]; [apply perm_nil|].
  eapply perm_trans; [apply insertByZIndex_perm | apply perm_skip, IH].
Qed.

Lemma insertByZIndex_sorted (a : CanvasItem) (l : list CanvasItem) :
  StronglySorted notAbove l -> StronglySorted notAbove (insertByZIndex a l).
Proof.
  induction 1 as [|b rest Hrest IH Hall]; cbn [insertByZIndex].
  - constructor; constructor.
  - destruct (Z.leb_spec (zIndex a) (zIndex b)) as [Hle | Hgt].
    + constructor; [constructor; assumption|].
      constructor; [exact Hle|].
      eapply Forall_impl; [|exact Hall]. unfold notAbove. intros c Hc. lia.
    + constructor; [exact IH|].
      apply (Permutation_Forall (Permutation_sym (insertByZIndex_perm a rest))).
      constructor; [unfold notAbove; lia | exact Hall].
Qed.

Lemma sortByZIndex_sorted (l : list CanvasItem) :
  StronglySorted notAbove (sortByZIndex l).
Proof.
  induction l as [|a rest IH]; cbn [sortByZIndex fold_right]; [constructor|].
  apply insertByZIndex_sorted, IH.
Qed.

Lemma insertByZIndex_stable (z : Z) (a : CanvasItem) (l : list CanvasItem) :
  filter (atZIndex z) (insertByZIndex a l) = filter (atZIndex z) (a :: l).
Proof.
  induction l as [|b rest IH]; cbn [insertByZIndex]; [reflexivity|].
  destruct (Z.leb_spec (zIndex a) (zIndex b)) as [Hle | Hgt]; [reflexivity|].
  cbn [filter] in *. rewrite IH. unfold atZIndex.
  destruct (Z.eqb_spec (zIndex a) z), (Z.eqb_spec (zIndex b) z); try reflexivity. lia.
Qed.

Lemma sortByZIndex_stable (z : Z) (l : list CanvasItem) :
  filter (atZIndex z) (sortByZIndex l) = filter (atZIndex z) l.
Proof.
  induction l as [|a rest IH]; cbn [sortByZIndex fold_right]; [reflexivity|].
  rewrite insertByZIndex_stable. cbn [filter]. fold (sortByZIndex rest). rewrite IH.
  reflexivity.
Qed.

Lemma filter_sorted (keep : CanvasItem -> bool) (l : list CanvasItem) :
  StronglySorted notAbove l -> StronglySorted notAbove (filter keep l).
Proof.
  induction 1 as [|b rest Hrest IH Hall]; cbn [filter]; [constructor|].
  destruct (keep b); [|exact IH].
  constructor; [exact IH|].
  apply Forall_forall. intros c Hc. apply filter_In in Hc.
  rewrite Forall_forall in Hall. apply Hall. tauto.
Qed.

Lemma filter_perm (keep : CanvasItem -> bool) (l l' : list CanvasItem) :
  Permutation l l' -> Permutation (filter keep l) (filter keep l').
Proof.
  induction 1 as [|a l l' Hp IH|a b l|l l' l'' H1 IH1 H2 IH2]; cbn [filter].
  - apply perm_nil.
  - destruct (keep a); [apply perm_skip|]; exact IH.
  - destruct (keep a), (keep b); try apply Permutation_refl. apply perm_swap.
  - eapply perm_trans; eassumption.
Qed.

Lemma filter_comm (p q : CanvasItem -> bool) (l : list CanvasItem) :
  filter p (filter q l) = filter q (filter p l).
Proof.
  induction l as [|a rest IH]; cbn [filter]; [reflexivity|].
  destruct (p a) eqn:Hp, (q a) eqn:Hq; cbn [filter]; rewrite ?Hp, ?Hq, IH; reflexivity.
Qed.

Lemma drawItem_drawn (exportSize : Q) (loadImage : option string -> option (Q * Q))
  (l : list CanvasItem) :
  map drawn (flat_map (drawItem exportSize loadImage) l) = filter (loads loadImage) l.
Proof.
  induction l as [|a rest IH]; cbn [flat_map filter map]; [reflexivity|].
  rewrite map_app, IH. unfold drawItem, loads.
  destruct (loadImage (image_url (nft a))) as [[w h]|]; reflexivity.
Qed.

Lemma scale_within (a total : Q) :
  0 <= a <= 100 -> 0 <= total -> 0 <= (a / 100) * total <= total.
Proof.
  intros [Ha0 Ha1] Ht.
  assert (H0 : 0 <= a / 100) by (apply Qle_shift_div_l; lra).
  assert (H1 : a / 100 <= 1) by (apply Qle_shift_div_r; lra).
  split; [apply Qmult_le_0_compat; assumption|].
  pose proof (Qmult_le_compat_r _ _ total H1 Ht) as Hm. lra.
Qed.

(** X24: [exportCanvas] makes its draw call exactly once for every item
    whose image loads and skips the others, going on with the next item; it
    draws in the order of the z-index, an item never before one with a
    smaller z-index, and the items that share a z-index in the order of the
    item list. *)
Theorem exportCanvas_draw_order (exportSize : Q)
  (loadImage : option string -> option (Q * Q)) (items : list CanvasItem) :
  let drawnItems := map drawn (exportCanvas exportSize loadImage items) in
  Permutation drawnItems (filter (loads loadImage) items)
  /\ StronglySorted notAbove drawnItems
  /\ (forall z, filter (atZIndex z) drawnItems
                = filter (atZIndex z) (filter (loads loadImage) items)).
Proof.
  cbn zeta. unfold exportCanvas. rewrite drawItem_drawn. split; [|split].
  - apply filter_perm, sortByZIndex_perm.
  - apply filter_sorted, sortByZIndex_sorted.
  - intros z. rewrite filter_comm, sortByZIndex_stable. apply filter_comm.
Qed.

(** The item raised by a click is drawn last. *)
Example exportCanvas_raised_last :
  let a := withZIndex (tile "a" 0 0 20) 3 in
  let b := tile "b" 20 0 20 in
  let c := tile "c" 40 0 20 in
  map (fun d => id (drawn d)) (exportCanvas 800 (fun _ => Some (512, 512)) [a; b; c])
  = ["b"; "c"; "a"]%string.
Proof. reflexivity. Qed.

(** X25: with an export size and image sizes that are not negative, for an
    item that has the four bounds of the canvas and a size that is not
    negative, the corner of the square [exportCanvas] draws on is not
    outside the exported image and the side of the square is not larger
    than it; for an item whose crop lies inside 0..100 the corner of the
    rectangle it reads is not outside the loaded image and the rectangle is
    not larger than it. *)
Theorem exportCanvas_draws_inside (exportSize : Q)
  (loadImage : option string -> option (Q * Q)) (items : list CanvasItem) (d : Draw) :
  0 <= exportSize ->
  (forall url width height,
      loadImage url = Some (width, height) -> 0 <= width /\ 0 <= height) ->
  In d (exportCanvas exportSize loadImage items) ->
  In (drawn d) items
  /\ loadImage (image_url (nft (drawn d))) = Some (imageWidth d, imageHeight d)
  /\ (inBounds (drawn d) -> 0 <= size (drawn d) ->
      0 <= destX d <= exportSize /\ 0 <= destY d <= exportSize
      /\ 0 <= destSize d <= exportSize)
  /\ (cropInBounds (drawn d) -> 0 <= cropWidth (drawn d) -> 0 <= cropHeight (drawn d) ->
      0 <= srcX d <= imageWidth d /\ 0 <= srcY d <= imageHeight d
      /\ 0 <= srcWidth d <= imageWidth d /\ 0 <= srcHeight d <= imageHeight d).
Proof.
  intros Hsize Hload Hin. unfold exportCanvas in Hin.
  apply in_flat_map in Hin. destruct Hin as (item & Hitem & Hd).
  apply (Permutation_in item (sortByZIndex_perm items)) in Hitem.
  unfold drawItem in Hd.
  destruct (loadImage (image_url (nft item))) as [[w h]|] eqn:Himg; [|destruct Hd].
  destruct Hd as [<- | []].
  cbn [drawn imageWidth imageHeight srcX srcY srcWidth srcHeight destX destY destSize].
  destruct (Hload _ _ _ Himg) as [Hw Hh].
  split; [exact Hitem|]. split; [exact Himg|]. split.
  - intros (Hx & Hy & Hxs & Hys) Hs.
    split; [apply scale_within; [split; lra | exact Hsize]|].
    split; apply scale_within; try exact Hsize; split; lra.
  - intros (Hx & Hy & Hxs & Hys) Hcw Hch.
    split; [apply scale_within; [split; lra | exact Hw]|].
    split; [apply scale_within; [split; lra | exact Hh]|].
    split; apply scale_within; try assumption; split; lra.
Qed.

Lemma exportCanvas_draws_inside_witness :
  let d := mkDraw (tile "c" 40 0 20) 512 512
                  ((0 / 100) * 512) ((0 / 100) * 512)
                  ((100 / 100) * 512) ((100 / 100) * 512)
                  ((40 / 100) * 800) ((0 / 100) * 800) ((20 / 100) * 800) in
  In (drawn d) (items threeAdded)
  /\ sampleLoadImage (image_url (nft (drawn d))) = Some (imageWidth d, imageHeight d)
  /\ (inBounds (drawn d) -> 0 <= size (drawn d) ->
      0 <= destX d <= 800 /\ 0 <= destY d <= 800 /\ 0 <= destSize d <= 800)
  /\ (cropInBounds (drawn d) -> 0 <= cropWidth (drawn d) -> 0 <= cropHeight (drawn d) ->
      0 <= srcX d <= imageWidth d /\ 0 <= srcY d <= imageHeight d
      /\ 0 <= srcWidth d <= imageWidth d /\ 0 <= srcHeight d <= imageHeight d).
Proof.
  apply (exportCanvas_draws_inside 800 sampleLoadImage (items threeAdded)).
  - lra.
  - intros url width height. unfold sampleLoadImage.
    destruct url as [u|]; [|discriminate].
    destruct (String.eqb u "b"); [discriminate|].
    intros Heq. injection Heq as <- <-. split; lra.
  - cbn. right. left. reflexivity.
Defined.

(** The image at "b" does not load: the export draws the two other tiles. *)
Example exportCanvas_skips_failed :
  map (fun d => id (drawn d)) (exportCanvas 800 sampleLoadImage (items threeAdded))
  = ["a"; "c"]%string.
Proof. reflexivity. Qed.

(** ** Collection selection *)

Lemma filter_other_id (other : string) (l : list string) :
  ~ In other l -> filter (fun s => negb (String.eqb s other)) l = l.
Proof.
  induction l as [|s rest IH]; intros Hnot; cbn [filter]; [reflexivity|].
  destruct (String.eqb_spec s other) as [-> | Hne]; cbn [negb].
  - exfalso. apply Hnot. left. reflexivity.
  - rewrite IH; [reflexivity|]. intros Hin. apply Hnot. right. exact Hin.
Qed.

Lemma existsb_slug (target : string) (l : list string) :
  existsb (String.eqb target) l = true <-> In target l.
Proof.
  rewrite existsb_exists. split.
  - intros (s & Hin & Heq). apply String.eqb_eq in Heq. subst. exact Hin.
  - intros Hin. exists target. split; [exact Hin | apply String.eqb_refl].
Qed.

(** X26: a click on a collection of [CollectionSelector] turns the
    selection of that collection over and leaves the selection of every
    other collection as it is; a selection without duplicates stays without
    duplicates, and two clicks on a collection that was not selected give
    the selection back. *)
Theorem toggleCollection_flips (selected : list string) (c : NFTCollection) :
  (In (slug c) (toggleCollection selected c) <-> ~ In (slug c) selected)
  /\ (forall s, s <> slug c ->
        (In s (toggleCollection selected c) <-> In s selected))
  /\ (NoDup selected -> NoDup (toggleCollection selected c))
  /\ (~ In (slug c) selected ->
      toggleCollection (toggleCollection selected c) c = selected).
Proof.
  unfold toggleCollection.
  destruct (existsb (String.eqb (slug c)) selected) eqn:Hex.
  - assert (Hin : In (slug c) selected) by (apply existsb_slug; exact Hex).
    split; [|split; [|split]].
    + rewrite filter_In. rewrite String.eqb_refl. cbn [negb]. split.
      * intros [_ Hf]. discriminate.
      * intros Hnot. contradiction.
    + intros s Hne. rewrite filter_In. split; [tauto|].
      intros Hs. split; [exact Hs|].
      destruct (String.eqb_spec s (slug c)); [contradiction | reflexivity].
    + intros Hnd. apply NoDup_filter. exact Hnd.
    + intros Hnot. contradiction.
  - assert (Hnot : ~ In (slug c) selected).
    { intros Hin. apply existsb_slug in Hin. congruence. }
    split; [|split; [|split]].
    + rewrite in_app_iff. split; [tauto|]. intros _. right. left. reflexivity.
    + intros s Hne. rewrite in_app_iff. split; [|tauto].
      intros [Hs | [Hs | []]]; [exact Hs | congruence].
    + intros Hnd. apply NoDup_app; [exact Hnd | repeat constructor; intros [] |].
      intros s Hs [<- | []]. contradiction.
    + intros _.
      assert (Hnow : existsb (String.eqb (slug c)) (selected ++ [slug c]) = true).
      { apply existsb_slug, in_or_app. right. left. reflexivity. }
      rewrite Hnow, filter_app, filter_other_id by exact Hnot.
      cbn [filter]. rewrite String.eqb_refl. cbn [negb]. apply app_nil_r.
Qed.
